(** * token-ext-proc: the ext_proc session handler and its usage headers

    A shallow embedding of [Process] (main.go) together with the library
    calls it depends on: [strconv.Itoa], [json.Unmarshal] into the anonymous
    struct declared in [Process], and the message types of the ext_proc
    protocol that the handler builds.

    The second copy of the program (the one without debug logging) has the
    same receive / switch / send loop; it is embedded in module [Unlogged]
    and shown to differ from main.go in the log lines only. *)

From Stdlib Require Import ZArith List String Ascii Bool Lia Arith.
Import ListNotations.

Local Open Scope Z_scope.

(** ** Bytes and strings

    A Go [[]byte] is a list of 8-bit characters, a Go [string] is a Rocq
    [string]; [string(b)] and [[]byte(s)] are the two conversions of the
    standard library. *)

Definition bytes := list ascii.

Definition b2z (c : ascii) : Z := Z.of_N (N_of_ascii c).
Definition z2b (n : Z) : ascii := ascii_of_N (Z.to_N (n mod 256)).

Definition dquote : ascii := "034"%char.
Definition bslash : ascii := "092"%char.

Definition bytes_eqb (a b : bytes) : bool :=
  if list_eq_dec ascii_dec a b then true else false.

Definition is_digit (c : ascii) : bool := (48 <=? b2z c) && (b2z c <=? 57).

(** ** strconv *)

Module strconv.

(** Go's [int] on the build target of the Dockerfile (GOARCH=amd64). *)
Definition IntSize : Z := 64.
Definition minInt : Z := - 2 ^ 63.
Definition maxInt : Z := 2 ^ 63 - 1.
Definition maxUint64 : Z := 2 ^ 64 - 1.

Definition in_int (n : Z) : Prop := minInt <= n <= maxInt.

Definition digit_char (d : Z) : ascii := z2b (48 + d).

(** [formatBits], base 10: the digits are produced from the least
    significant one, each pushed in front of what was produced so far.
    The loop runs at most once per bit of [u]. *)
Fixpoint formatBits (fuel : nat) (u : Z) (a : bytes) : bytes :=
  match fuel with
  | O => a
  | S fuel' =>
      let a' := digit_char (u mod 10) :: a in
      if u <? 10 then a' else formatBits fuel' (u / 10) a'
  end.

Definition FormatUint (u : Z) : bytes :=
  formatBits (S (Z.to_nat (Z.log2 u))) u [].

(** [FormatInt(i, 10)]: a minus sign and the magnitude for a negative
    value. *)
Definition FormatInt (i : Z) : bytes :=
  if i <? 0 then "-"%char :: FormatUint (- i) else FormatUint i.

Definition Itoa (i : Z) : string := string_of_list_ascii (FormatInt i).

Inductive NumError := ErrSyntax | ErrRange.

(** [ParseUint(s, 10, 64)] after the empty-string test: one digit at a
    time, with the two overflow tests of the library on the 64-bit
    accumulator. *)
Fixpoint ParseUint_loop (s : bytes) (n : Z) : Z + NumError :=
  match s with
  | [] => inl n
  | c :: s' =>
      if is_digit c then
        let d := b2z c - 48 in
        if n >=? maxUint64 / 10 + 1 then inr ErrRange
        else
          let n10 := n * 10 in
          let n1 := (n10 + d) mod 2 ^ 64 in
          if (n1 <? n10) || (n1 >? maxUint64) then inr ErrRange
          else ParseUint_loop s' n1
      else inr ErrSyntax
  end.

Definition ParseUint (s : bytes) : Z + NumError :=
  match s with
  | [] => inr ErrSyntax
  | _ => ParseUint_loop s 0
  end.

(** [ParseInt(s, 10, 64)]. *)
Definition ParseInt (s : bytes) : Z + NumError :=
  match s with
  | [] => inr ErrSyntax
  | c :: s' =>
      let neg := Ascii.eqb c "-" in
      let digits := if Ascii.eqb c "+" || neg then s' else s in
      match ParseUint digits with
      | inr ErrSyntax => inr ErrSyntax
      | inr ErrRange => inr ErrRange
      | inl un =>
          let cutoff := 2 ^ (IntSize - 1) in
          if negb neg && (un >=? cutoff) then inr ErrRange
          else if neg && (un >? cutoff) then inr ErrRange
          else inl (if neg then - un else un)
      end
  end.

End strconv.

(** ** unicode/utf8 and unicode/utf16 *)

Module utf8.

Definition RuneError : Z := 0xFFFD.
Definition MaxRune : Z := 0x10FFFF.
Definition RuneSelf : Z := 0x80.

(** The table [first] together with [acceptRanges]: for a leading byte,
    the length of the sequence and the range allowed for its second
    byte; [None] for the bytes that start no sequence. *)
Definition first (p0 : Z) : option (nat * Z * Z) :=
  if p0 <? 0xC2 then None
  else if p0 <=? 0xDF then Some (2%nat, 0x80, 0xBF)
  else if p0 =? 0xE0 then Some (3%nat, 0xA0, 0xBF)
  else if p0 =? 0xED then Some (3%nat, 0x80, 0x9F)
  else if p0 <=? 0xEF then Some (3%nat, 0x80, 0xBF)
  else if p0 =? 0xF0 then Some (4%nat, 0x90, 0xBF)
  else if p0 <=? 0xF3 then Some (4%nat, 0x80, 0xBF)
  else if p0 =? 0xF4 then Some (4%nat, 0x80, 0x8F)
  else None.

Definition at_ (p : bytes) (i : nat) : Z := b2z (nth i p zero).

Definition DecodeRune (p : bytes) : Z * nat :=
  match p with
  | [] => (RuneError, 0%nat)
  | c0 :: _ =>
      let p0 := b2z c0 in
      if p0 <? RuneSelf then (p0, 1%nat)
      else
        match first p0 with
        | None => (RuneError, 1%nat)
        | Some (sz, lo, hi) =>
            if (List.length p <? sz)%nat then (RuneError, 1%nat)
            else
              let b1 := at_ p 1 in
              if (b1 <? lo) || (hi <? b1) then (RuneError, 1%nat)
              else if (sz <=? 2)%nat then
                (Z.lor (Z.shiftl (Z.land p0 0x1F) 6) (Z.land b1 0x3F), 2%nat)
              else
                let b2 := at_ p 2 in
                if (b2 <? 0x80) || (0xBF <? b2) then (RuneError, 1%nat)
                else if (sz <=? 3)%nat then
                  (Z.lor (Z.lor (Z.shiftl (Z.land p0 0x0F) 12)
                                (Z.shiftl (Z.land b1 0x3F) 6))
                         (Z.land b2 0x3F), 3%nat)
                else
                  let b3 := at_ p 3 in
                  if (b3 <? 0x80) || (0xBF <? b3) then (RuneError, 1%nat)
                  else
                    (Z.lor (Z.lor (Z.lor (Z.shiftl (Z.land p0 0x07) 18)
                                         (Z.shiftl (Z.land b1 0x3F) 12))
                                  (Z.shiftl (Z.land b2 0x3F) 6))
                           (Z.land b3 0x3F), 4%nat)
        end
  end.

Definition enc3 (r : Z) : bytes :=
  [ z2b (Z.lor 0xE0 (Z.shiftr r 12));
    z2b (Z.lor 0x80 (Z.land (Z.shiftr r 6) 0x3F));
    z2b (Z.lor 0x80 (Z.land r 0x3F)) ].

(** [AppendRune(nil, r)]. *)
Definition EncodeRune (r : Z) : bytes :=
  if (0 <=? r) && (r <=? 0x7F) then [z2b r]
  else if (0 <=? r) && (r <=? 0x7FF) then
    [ z2b (Z.lor 0xC0 (Z.shiftr r 6)); z2b (Z.lor 0x80 (Z.land r 0x3F)) ]
  else if (r <? 0) || (MaxRune <? r) || ((0xD800 <=? r) && (r <=? 0xDFFF)) then
    enc3 RuneError
  else if r <=? 0xFFFF then enc3 r
  else
    [ z2b (Z.lor 0xF0 (Z.shiftr r 18));
      z2b (Z.lor 0x80 (Z.land (Z.shiftr r 12) 0x3F));
      z2b (Z.lor 0x80 (Z.land (Z.shiftr r 6) 0x3F));
      z2b (Z.lor 0x80 (Z.land r 0x3F)) ].

End utf8.

Module utf16.

Definition IsSurrogate (r : Z) : bool := (0xD800 <=? r) && (r <? 0xE000).

Definition DecodeRune (r1 r2 : Z) : Z :=
  if (0xD800 <=? r1) && (r1 <? 0xDC00) && (0xDC00 <=? r2) && (r2 <? 0xE000)
  then Z.lor (Z.shiftl (r1 - 0xD800) 10) (r2 - 0xDC00) + 0x10000
  else utf8.RuneError.

End utf16.

(** ** encoding/json

    [json.Unmarshal(data, &v)] first checks that [data] is one well-formed
    JSON text ([checkValid]) and then walks the same tokens again to fill
    [v].  The model scans [data] once into a tree that keeps every literal
    as the bytes it was written with, and decodes from that tree. *)

Module json.

Unset Elimination Schemes.
Inductive value : Type :=
| VNull
| VTrue
| VFalse
| VNumber (lit : bytes)
| VString (raw : bytes)                 (* the bytes between the quotes *)
| VArray (elems : list value)
| VObject (members : list (bytes * value)).   (* keys: bytes between the quotes *)
Set Elimination Schemes.

Inductive scan (A : Type) : Type :=
| Scanned (a : A)
| Invalid            (* the scanner reports a syntax error *)
| NoFuel.            (* never returned by [checkValid], see [checkValid_fuel] *)
Arguments Scanned {A} a.
Arguments Invalid {A}.
Arguments NoFuel {A}.

Definition maxNestingDepth : Z := 10000.

Definition isSpace (c : ascii) : bool :=
  (b2z c <=? 32) &&
  (Ascii.eqb c " " || Ascii.eqb c "009" || Ascii.eqb c "013" || Ascii.eqb c "010").

Fixpoint skipSpace (s : bytes) : bytes :=
  match s with
  | c :: s' => if isSpace c then skipSpace s' else s
  | [] => []
  end.

Definition isHex (c : ascii) : bool :=
  is_digit c
  || ((97 <=? b2z c) && (b2z c <=? 102))
  || ((65 <=? b2z c) && (b2z c <=? 70)).

(** The characters accepted after a backslash by [stateInStringEsc],
    [u] apart. *)
Definition isSimpleEscape (c : ascii) : bool :=
  Ascii.eqb c "b" || Ascii.eqb c "f" || Ascii.eqb c "n" || Ascii.eqb c "r"
  || Ascii.eqb c "t" || Ascii.eqb c bslash || Ascii.eqb c "/"
  || Ascii.eqb c dquote.

Definition cons_lit (pre : bytes) (r : option (bytes * bytes)) : option (bytes * bytes) :=
  match r with
  | Some (lit, rest) => Some (pre ++ lit, rest)
  | None => None
  end.

(** [stateInString] and its escape states, entered after the opening
    quote: the bytes up to the closing quote and what follows it. *)
Fixpoint scanString (s : bytes) : option (bytes * bytes) :=
  match s with
  | [] => None
  | c :: s1 =>
      if Ascii.eqb c dquote then Some ([], s1)
      else if Ascii.eqb c bslash then
        match s1 with
        | [] => None
        | e :: s2 =>
            if isSimpleEscape e then cons_lit [c; e] (scanString s2)
            else if Ascii.eqb e "u" then
              match s2 with
              | h1 :: h2 :: h3 :: h4 :: s6 =>
                  if isHex h1 && isHex h2 && isHex h3 && isHex h4
                  then cons_lit [c; e; h1; h2; h3; h4] (scanString s6)
                  else None
              | _ => None
              end
            else None
        end
      else if b2z c <? 32 then None
      else cons_lit [c] (scanString s1)
  end.

(** The number states of the scanner. *)
Inductive numState := stBegin | stNeg | st0 | st1 | stDot | stDot0 | stE | stESign | stE0.

Inductive numStep := Goto (st : numState) | EndNumber | BadNumber.

Definition isDigit19 (c : ascii) : bool := (49 <=? b2z c) && (b2z c <=? 57).
Definition isExp (c : ascii) : bool := Ascii.eqb c "e" || Ascii.eqb c "E".

Definition numNext (st : numState) (c : ascii) : numStep :=
  match st with
  | stBegin =>
      if Ascii.eqb c "-" then Goto stNeg
      else if Ascii.eqb c "0" then Goto st0
      else if isDigit19 c then Goto st1
      else BadNumber
  | stNeg =>
      if Ascii.eqb c "0" then Goto st0
      else if isDigit19 c then Goto st1
      else BadNumber
  | st1 =>
      if is_digit c then Goto st1
      else if Ascii.eqb c "." then Goto stDot
      else if isExp c then Goto stE
      else EndNumber
  | st0 =>
      if Ascii.eqb c "." then Goto stDot
      else if isExp c then Goto stE
      else EndNumber
  | stDot => if is_digit c then Goto stDot0 else BadNumber
  | stDot0 =>
      if is_digit c then Goto stDot0
      else if isExp c then Goto stE
      else EndNumber
  | stE =>
      if Ascii.eqb c "+" || Ascii.eqb c "-" then Goto stESign
      else if is_digit c then Goto stE0
      else BadNumber
  | stESign => if is_digit c then Goto stE0 else BadNumber
  | stE0 => if is_digit c then Goto stE0 else EndNumber
  end.

(** The states in which the end of the input ends a number. *)
Definition numFinal (st : numState) : bool :=
  match st with
  | st0 | st1 | stDot0 | stE0 => true
  | _ => false
  end.

Fixpoint scanNumberFrom (st : numState) (s : bytes) : option (bytes * bytes) :=
  match s with
  | [] => if numFinal st then Some ([], []) else None
  | c :: s' =>
      match numNext st c with
      | Goto st' => cons_lit [c] (scanNumberFrom st' s')
      | EndNumber => Some ([], s)
      | BadNumber => None
      end
  end.

Definition scanNumber (s : bytes) : option (bytes * bytes) := scanNumberFrom stBegin s.

(** A key of an object and the colon after it. *)
Definition scanKey (s : bytes) : option (bytes * bytes) :=
  match skipSpace s with
  | c :: s1 =>
      if Ascii.eqb c dquote then
        match scanString s1 with
        | Some (k, r) =>
            match skipSpace r with
            | c2 :: r1 => if Ascii.eqb c2 ":" then Some (k, r1) else None
            | [] => None
            end
        | None => None
        end
      else None
  | [] => None
  end.

Definition lit_bytes (s : string) : bytes := list_ascii_of_string s.

Fixpoint strip_prefix (p s : bytes) : option bytes :=
  match p, s with
  | [], _ => Some s
  | a :: p', b :: s' => if Ascii.eqb a b then strip_prefix p' s' else None
  | _ :: _, [] => None
  end.

Definition scanLiteral (word : string) (v : value) (s : bytes) : scan (value * bytes) :=
  match strip_prefix (lit_bytes word) s with
  | Some r => Scanned (v, r)
  | None => Invalid
  end.

(** The scanner either goes on with what it scanned or stops. *)
Definition bind {A B : Type} (m : scan A) (k : A -> scan B) : scan B :=
  match m with
  | Scanned a => k a
  | Invalid => Invalid
  | NoFuel => NoFuel
  end.

Notation "' pat <- m ;; k" :=
  (bind m (fun pat => k))
  (at level 61, pat pattern, m at next level, right associativity).

(** One value, starting in [stateBeginValue] with [depth] containers
    open; [scanArrayRest] and [scanObjectRest] start in [stateEndValue]
    inside an array, respectively an object. *)
Fixpoint scanValue (fuel : nat) (depth : Z) (s : bytes) {struct fuel}
  : scan (value * bytes) :=
  match fuel with
  | O => NoFuel
  | S f =>
      match skipSpace s with
      | [] => Invalid
      | c :: s1 =>
          if Ascii.eqb c "{" then
            if maxNestingDepth <=? depth then Invalid
            else
              match skipSpace s1 with
              | [] => Invalid
              | c' :: s2 =>
                  if Ascii.eqb c' "}" then Scanned (VObject [], s2)
                  else
                    match scanKey s1 with
                    | None => Invalid
                    | Some (k, r) =>
                        '(v, r1) <- scanValue f (depth + 1) r ;;
                        '(ms, r2) <- scanObjectRest f (depth + 1) r1 ;;
                        Scanned (VObject ((k, v) :: ms), r2)
                    end
              end
          else if Ascii.eqb c "[" then
            if maxNestingDepth <=? depth then Invalid
            else
              match skipSpace s1 with
              | [] => Invalid
              | c' :: s2 =>
                  if Ascii.eqb c' "]" then Scanned (VArray [], s2)
                  else
                    '(v, r1) <- scanValue f (depth + 1) s1 ;;
                    '(vs, r2) <- scanArrayRest f (depth + 1) r1 ;;
                    Scanned (VArray (v :: vs), r2)
              end
          else if Ascii.eqb c dquote then
            match scanString s1 with
            | Some (raw, r) => Scanned (VString raw, r)
            | None => Invalid
            end
          else if Ascii.eqb c "-" || is_digit c then
            match scanNumber (c :: s1) with
            | Some (lit, r) => Scanned (VNumber lit, r)
            | None => Invalid
            end
          else if Ascii.eqb c "t" then scanLiteral "true" VTrue (c :: s1)
          else if Ascii.eqb c "f" then scanLiteral "false" VFalse (c :: s1)
          else if Ascii.eqb c "n" then scanLiteral "null" VNull (c :: s1)
          else Invalid
      end
  end

with scanArrayRest (fuel : nat) (depth : Z) (s : bytes) {struct fuel}
  : scan (list value * bytes) :=
  match fuel with
  | O => NoFuel
  | S f =>
      match skipSpace s with
      | [] => Invalid
      | c :: s1 =>
          if Ascii.eqb c "," then
            '(v, r1) <- scanValue f depth s1 ;;
            '(vs, r2) <- scanArrayRest f depth r1 ;;
            Scanned (v :: vs, r2)
          else if Ascii.eqb c "]" then Scanned ([], s1)
          else Invalid
      end
  end

with scanObjectRest (fuel : nat) (depth : Z) (s : bytes) {struct fuel}
  : scan (list (bytes * value) * bytes) :=
  match fuel with
  | O => NoFuel
  | S f =>
      match skipSpace s with
      | [] => Invalid
      | c :: s1 =>
          if Ascii.eqb c "," then
            match scanKey s1 with
            | None => Invalid
            | Some (k, r) =>
                '(v, r1) <- scanValue f depth r ;;
                '(ms, r2) <- scanObjectRest f depth r1 ;;
                Scanned ((k, v) :: ms, r2)
            end
          else if Ascii.eqb c "}" then Scanned ([], s1)
          else Invalid
      end
  end.

(** [checkValid]: one value, then only white space up to the end of the
    input.  Every recursive call of the scanner consumes a byte, so the
    length of the input bounds the calls. *)
Definition checkValid (data : bytes) : scan value :=
  match scanValue (S (List.length data)) 0 data with
  | Scanned (v, r) =>
      match skipSpace r with
      | [] => Scanned v
      | _ :: _ => Invalid
      end
  | Invalid => Invalid
  | NoFuel => NoFuel
  end.

(** *** Decoding *)

(** The value of a hexadecimal digit, -1 for another character. *)
Definition hex_digit (c : ascii) : Z :=
  if is_digit c then b2z c - 48
  else if (97 <=? b2z c) && (b2z c <=? 102) then b2z c - 97 + 10
  else if (65 <=? b2z c) && (b2z c <=? 70) then b2z c - 65 + 10
  else -1.

(** [getu4]: the rune of a [\uXXXX] escape at the head of [s], -1 when
    there is none. *)
Definition getu4 (s : bytes) : Z :=
  match s with
  | c0 :: c1 :: h1 :: h2 :: h3 :: h4 :: _ =>
      if Ascii.eqb c0 bslash && Ascii.eqb c1 "u" then
        fold_left
          (fun r c => if (r <? 0) || (hex_digit c <? 0) then -1 else r * 16 + hex_digit c)
          [h1; h2; h3; h4] 0
      else -1
  | _ => -1
  end.

Definition app_opt (pre : bytes) (r : option bytes) : option bytes :=
  match r with
  | Some t => Some (pre ++ t)
  | None => None
  end.

(** The loop of [unquoteBytes] over the bytes between the quotes.  (The
    library first looks for a prefix that needs no rewriting; the loop
    copies such a prefix unchanged, so only the loop is modelled.)
    Every round consumes at least one byte: [fuel] is the length of the
    input. *)
Fixpoint unquote_loop (fuel : nat) (s : bytes) : option bytes :=
  match s with
  | [] => Some []
  | c :: s1 =>
      match fuel with
      | O => None
      | S f =>
          if Ascii.eqb c bslash then
            match s1 with
            | [] => None
            | e :: s2 =>
                if Ascii.eqb e dquote || Ascii.eqb e bslash || Ascii.eqb e "/"
                   || Ascii.eqb e "'"
                then app_opt [e] (unquote_loop f s2)
                else if Ascii.eqb e "b" then app_opt ["008"%char] (unquote_loop f s2)
                else if Ascii.eqb e "f" then app_opt ["012"%char] (unquote_loop f s2)
                else if Ascii.eqb e "n" then app_opt ["010"%char] (unquote_loop f s2)
                else if Ascii.eqb e "r" then app_opt ["013"%char] (unquote_loop f s2)
                else if Ascii.eqb e "t" then app_opt ["009"%char] (unquote_loop f s2)
                else if Ascii.eqb e "u" then
                  let rr := getu4 s in
                  if rr <? 0 then None
                  else
                    let s6 := skipn 6 s in
                    if utf16.IsSurrogate rr then
                      let dec := utf16.DecodeRune rr (getu4 s6) in
                      if negb (dec =? utf8.RuneError)
                      then app_opt (utf8.EncodeRune dec) (unquote_loop f (skipn 6 s6))
                      else app_opt (utf8.EncodeRune utf8.RuneError) (unquote_loop f s6)
                    else app_opt (utf8.EncodeRune rr) (unquote_loop f s6)
                else None
            end
          else if Ascii.eqb c dquote || (b2z c <? 32) then None
          else if b2z c <? utf8.RuneSelf then app_opt [c] (unquote_loop f s1)
          else
            let '(rr, size) := utf8.DecodeRune s in
            app_opt (utf8.EncodeRune rr) (unquote_loop f (skipn size s))
      end
  end.

(** [unquoteBytes] applied to the literal whose bytes between the quotes
    are [raw]. *)
Definition unquoteBytes (raw : bytes) : option bytes :=
  unquote_loop (List.length raw) raw.

(** [foldRune]: the smallest rune of the simple-folding orbit of [r].
    Two orbits hold ASCII letters next to other runes: the Kelvin sign
    folds to K and the long s to S.  Every other rune outside ASCII has an
    orbit of runes outside ASCII; the model leaves it where it is, which
    keeps the outcome of every comparison with the folded name of an
    ASCII field. *)
Definition foldRune (r : Z) : Z :=
  if r =? 0x212A then 0x4B
  else if r =? 0x17F then 0x53
  else r.

(** [appendFoldedName(nil, in)]. *)
Fixpoint foldName_loop (fuel : nat) (s : bytes) : bytes :=
  match s with
  | [] => []
  | c :: s1 =>
      match fuel with
      | O => []
      | S f =>
          if b2z c <? utf8.RuneSelf then
            (if (97 <=? b2z c) && (b2z c <=? 122) then z2b (b2z c - 32) else c)
              :: foldName_loop f s1
          else
            let '(r, n) := utf8.DecodeRune s in
            utf8.EncodeRune (foldRune r) ++ foldName_loop f (skipn n s)
      end
  end.

Definition foldName (s : bytes) : bytes := foldName_loop (List.length s) s.

Fixpoint find_index {A : Type} (p : A -> bool) (l : list A) : option nat :=
  match l with
  | [] => None
  | a :: l' => if p a then Some O else option_map S (find_index p l')
  end.

(** The lookup in [object]: the field whose name is [key], else the
    first field whose folded name is the folded [key].  A struct is
    given by the JSON names of its fields, in declaration order. *)
Definition lookupField (fields : list string) (key : bytes) : option nat :=
  match find_index (fun n => bytes_eqb (lit_bytes n) key) fields with
  | Some i => Some i
  | None =>
      find_index (fun n => bytes_eqb (foldName (lit_bytes n)) (foldName key)) fields
  end.

Inductive Error : Type :=
| SyntaxError
| UnmarshalTypeError (Value : string) (Type_ : string)
| PhasePanic.

Record decodeState : Type := { savedError : option Error }.

Definition saveError (d : decodeState) (e : Error) : decodeState :=
  match savedError d with
  | None => {| savedError := Some e |}
  | Some _ => d
  end.

(** [value] with an [int] as its target: [array] and [object] save a
    type error and skip, [literalStore] stores a number that
    [strconv.ParseInt] accepts, ignores [null] and saves a type error for
    the rest. *)
Definition value_int (d : decodeState) (j : value) (cur : Z) : decodeState * Z :=
  match j with
  | VArray _ => (saveError d (UnmarshalTypeError "array" "int"), cur)
  | VObject _ => (saveError d (UnmarshalTypeError "object" "int"), cur)
  | VNull => (d, cur)
  | VTrue | VFalse => (saveError d (UnmarshalTypeError "bool" "int"), cur)
  | VString _ => (saveError d (UnmarshalTypeError "string" "int"), cur)
  | VNumber lit =>
      match strconv.ParseInt lit with
      | inl n => (d, n)
      | inr _ =>
          (saveError d (UnmarshalTypeError ("number " ++ string_of_list_ascii lit) "int"),
           cur)
      end
  end.

(** [value] with a struct as its target, the members of an object being
    handled by [members]. *)
Definition value_struct {T : Type}
    (members : decodeState -> list (bytes * value) -> T -> decodeState * T)
    (d : decodeState) (j : value) (cur : T) : decodeState * T :=
  match j with
  | VArray _ => (saveError d (UnmarshalTypeError "array" "struct"), cur)
  | VObject ms => members d ms cur
  | VNull => (d, cur)
  | VTrue | VFalse => (saveError d (UnmarshalTypeError "bool" "struct"), cur)
  | VString _ => (saveError d (UnmarshalTypeError "string" "struct"), cur)
  | VNumber _ => (saveError d (UnmarshalTypeError "number" "struct"), cur)
  end.

(** The loop of [object] over the members: [field d i v cur] decodes [v]
    into field [i]; a key that selects no field has its value skipped. *)
Fixpoint object_loop {T : Type} (fields : list string)
    (field : decodeState -> nat -> value -> T -> decodeState * T)
    (d : decodeState) (ms : list (bytes * value)) (cur : T) : decodeState * T :=
  match ms with
  | [] => (d, cur)
  | (k, v) :: ms' =>
      match unquoteBytes k with
      | None => (saveError d PhasePanic, cur)
      | Some key =>
          let '(d', cur') :=
            match lookupField fields key with
            | Some i => field d i v cur
            | None => (d, cur)
            end in
          object_loop fields field d' ms' cur'
      end
  end.

End json.

(** ** The protocol messages

    The generated protobuf types, with the fields that [Process] reads or
    writes (and, for a header option, the fields that say how the header is
    applied).  A field that no literal of the program sets keeps its zero
    value and is left out.  A message-typed field is a pointer in Go: [None]
    is the nil pointer. *)

Module configPb.

Record HeaderValue : Type := { Key : string; Value : string }.

Inductive HeaderAppendAction :=
| APPEND_IF_EXISTS_OR_ADD | ADD_IF_ABSENT
| OVERWRITE_IF_EXISTS_OR_ADD | OVERWRITE_IF_EXISTS.

Record HeaderValueOption : Type := {
  Header : option HeaderValue;
  Append : option bool;                 (* *wrapperspb.BoolValue *)
  AppendAction : HeaderAppendAction;
  KeepEmptyValue : bool
}.

End configPb.

Module filterPb.

Inductive HeaderSendMode := DEFAULT | SEND | SKIP.
Inductive BodySendMode := NONE | STREAMED | BUFFERED | BUFFERED_PARTIAL.

Record ProcessingMode : Type := {
  RequestHeaderMode : HeaderSendMode;
  ResponseHeaderMode : HeaderSendMode;
  RequestBodyMode : BodySendMode;
  ResponseBodyMode : BodySendMode;
  RequestTrailerMode : HeaderSendMode;
  ResponseTrailerMode : HeaderSendMode
}.

End filterPb.

Module extProcPb.

Record HttpHeaders : Type := {
  Headers : list (string * string);
  HttpHeaders_EndOfStream : bool
}.

Record HttpBody : Type := { Body : bytes; EndOfStream : bool }.

Record HttpTrailers : Type := { Trailers : list (string * string) }.

(** The oneof [ProcessingRequest.Request]. *)
Inductive isProcessingRequest_Request : Type :=
| ProcessingRequest_RequestHeaders (RequestHeaders : HttpHeaders)
| ProcessingRequest_ResponseHeaders (ResponseHeaders : HttpHeaders)
| ProcessingRequest_RequestBody (RequestBody : HttpBody)
| ProcessingRequest_ResponseBody (ResponseBody : HttpBody)
| ProcessingRequest_RequestTrailers (RequestTrailers : HttpTrailers)
| ProcessingRequest_ResponseTrailers (ResponseTrailers : HttpTrailers).

Record ProcessingRequest : Type := { Request : option isProcessingRequest_Request }.

Record HeaderMutation : Type := {
  SetHeaders : list configPb.HeaderValueOption;
  RemoveHeaders : list string
}.

Record CommonResponse : Type := { HeaderMutation_ : option HeaderMutation }.

Record HeadersResponse : Type := { HeadersResponse_Response : option CommonResponse }.
Record BodyResponse : Type := { BodyResponse_Response : option CommonResponse }.

(** The oneof [ProcessingResponse.Response], with the alternatives that
    the program builds. *)
Inductive isProcessingResponse_Response : Type :=
| ProcessingResponse_RequestHeaders (RequestHeaders : HeadersResponse)
| ProcessingResponse_ResponseHeaders (ResponseHeaders : HeadersResponse)
| ProcessingResponse_RequestBody (RequestBody : BodyResponse)
| ProcessingResponse_ResponseBody (ResponseBody : BodyResponse).

Record ProcessingResponse : Type := {
  Response : option isProcessingResponse_Response;
  ModeOverride : option filterPb.ProcessingMode
}.

End extProcPb.

Import configPb filterPb extProcPb.

(** ** The stream and what [Process] does to the outside *)

Inductive codes := Unknown | Unimplemented.

(** Go [error] values: [io.EOF], an error of the transport, and the error
    that [status.Errorf] builds around a cause. *)
Inductive error : Type :=
| io_EOF
| transport_error (msg : string)
| status_Errorf (c : codes) (format : string) (cause : error).

Definition is_EOF (e : error) : bool :=
  match e with
  | io_EOF => true
  | _ => false
  end.

(** The struct that [Process] declares for the body. *)
Record UsageT : Type := {
  PromptTokens : Z;
  TotalTokens : Z;
  CompletionTokens : Z
}.

Record openAIRespT : Type := { Usage : UsageT }.

Inductive log_arg : Type :=
| ArgRequest (req : ProcessingRequest)
| ArgOneof (r : option isProcessingRequest_Request)
| ArgResponse (resp : ProcessingResponse)
| ArgBool (b : bool)
| ArgError (e : error)
| ArgJsonError (e : json.Error)
| ArgUsage (u : UsageT)
| ArgHeaders (hs : list HeaderValueOption).

Inductive log_line : Type :=
| Println (msg : string)
| Printf (format : string) (args : list log_arg).

(** What one run of [Process] does, in order: the calls on the stream, the
    calls of [json.Unmarshal] and the log lines. *)
Inductive event : Type :=
| EvRecv (r : ProcessingRequest + error)
| EvLog (l : log_line)
| EvUnmarshal (data : bytes)
| EvSend (resp : ProcessingResponse) (err : option error).

(** The far end of the stream: what the successive calls of [Recv] return,
    and the result of the [n]-th call of [Send]. *)
Record ProcessServer : Type := {
  recv_script : list (ProcessingRequest + error);
  send_result : nat -> option error
}.

(** [Process] returns an error or nil; a run whose script of [Recv]
    results is used up is still blocked in [Recv]. *)
Inductive outcome : Type :=
| Returned (err : option error)
| Blocked.

(** ** json.Unmarshal into [openAIResp] *)

Definition Usage_fields : list string :=
  ["prompt_tokens"; "total_tokens"; "completion_tokens"]%string.

Definition openAIResp_fields : list string := ["usage"%string].

Definition Usage_field (d : json.decodeState) (i : nat) (v : json.value) (u : UsageT)
  : json.decodeState * UsageT :=
  match i with
  | 0%nat =>
      let '(d', n) := json.value_int d v (PromptTokens u) in
      (d', {| PromptTokens := n; TotalTokens := TotalTokens u;
              CompletionTokens := CompletionTokens u |})
  | 1%nat =>
      let '(d', n) := json.value_int d v (TotalTokens u) in
      (d', {| PromptTokens := PromptTokens u; TotalTokens := n;
              CompletionTokens := CompletionTokens u |})
  | 2%nat =>
      let '(d', n) := json.value_int d v (CompletionTokens u) in
      (d', {| PromptTokens := PromptTokens u; TotalTokens := TotalTokens u;
              CompletionTokens := n |})
  | _ => (d, u)
  end.

Definition decode_Usage : json.decodeState -> json.value -> UsageT -> json.decodeState * UsageT :=
  json.value_struct (json.object_loop Usage_fields Usage_field).

Definition openAIResp_field (d : json.decodeState) (i : nat) (v : json.value)
    (r : openAIRespT) : json.decodeState * openAIRespT :=
  match i with
  | 0%nat =>
      let '(d', u) := decode_Usage d v (Usage r) in
      (d', {| Usage := u |})
  | _ => (d, r)
  end.

Definition decode_openAIResp
  : json.decodeState -> json.value -> openAIRespT -> json.decodeState * openAIRespT :=
  json.value_struct (json.object_loop openAIResp_fields openAIResp_field).

(** [json.Unmarshal(data, &v)]: the value of [v] afterwards and the error
    returned.  A syntax error leaves [v] untouched; a type error is saved,
    decoding goes on, and the first saved error is returned at the end. *)
Definition Unmarshal (data : bytes) (v : openAIRespT) : openAIRespT * option json.Error :=
  match json.checkValid data with
  | json.Scanned j =>
      let '(d, v') := decode_openAIResp {| json.savedError := None |} j v in
      (v', json.savedError d)
  | json.Invalid | json.NoFuel => (v, Some json.SyntaxError)
  end.

Definition zero_openAIResp : openAIRespT :=
  {| Usage := {| PromptTokens := 0; TotalTokens := 0; CompletionTokens := 0 |} |}.

(** ** Process *)

Definition header (key value : string) : HeaderValueOption :=
  {| Header := Some {| Key := key; Value := value |};
     Append := None;
     AppendAction := APPEND_IF_EXISTS_OR_ADD;
     KeepEmptyValue := false |}.

(** [&extProcPb.ProcessingResponse{Response: &..._ResponseBody{ResponseBody:
    &extProcPb.BodyResponse{}}}] *)
Definition emptyBodyResponse : ProcessingResponse :=
  {| Response := Some (ProcessingResponse_ResponseBody {| BodyResponse_Response := None |});
     ModeOverride := None |}.

(** The [switch r := req.Request.(type)] of the loop: what it does and
    the [resp] it leaves. *)
Definition Process_switch (req : ProcessingRequest) : list event * ProcessingResponse :=
  match Request req with
  | Some (ProcessingRequest_RequestHeaders _) =>
      ([ EvLog (Println "[Process] Processing RequestHeaders");
         EvLog (Println "[Process] RequestHeaders processed, passing through response unchanged") ],
       {| Response := Some (ProcessingResponse_RequestHeaders
                              {| HeadersResponse_Response := None |});
          ModeOverride := None |})
  | Some (ProcessingRequest_RequestBody _) =>
      ([ EvLog (Println "[Process] Processing RequestBody");
         EvLog (Println "[Process] RequestBody processed, passing through response unchanged") ],
       {| Response := Some (ProcessingResponse_RequestBody
                              {| BodyResponse_Response := None |});
          ModeOverride := None |})
  | Some (ProcessingRequest_ResponseHeaders _) =>
      ([ EvLog (Println "[Process] Processing ResponseHeaders, instructing Envoy to buffer response body");
         EvLog (Println "[Process] ResponseHeaders processed, buffering response body") ],
       {| Response := Some (ProcessingResponse_ResponseHeaders
                              {| HeadersResponse_Response := None |});
          ModeOverride :=
            Some {| RequestHeaderMode := DEFAULT;
                    ResponseHeaderMode := SEND;
                    RequestBodyMode := NONE;
                    ResponseBodyMode := BUFFERED;
                    RequestTrailerMode := DEFAULT;
                    ResponseTrailerMode := DEFAULT |} |})
  | Some (ProcessingRequest_ResponseBody rb) =>
      let pre :=
        [ EvLog (Println "[Process] Processing ResponseBody");
          EvLog (Printf "[Process] ResponseBody received, EndOfStream: %v"
                        [ArgBool (EndOfStream rb)]) ] in
      if negb (EndOfStream rb) then
        (pre ++ [ EvLog (Println "[Process] ResponseBody not complete, continuing to buffer") ],
         emptyBodyResponse)
      else
        let pre :=
          pre ++
          [ EvLog (Println "[Process] Received complete ResponseBody, attempting to parse JSON for usage metrics");
            EvUnmarshal (Body rb) ] in
        let '(openAIResp, err) := Unmarshal (Body rb) zero_openAIResp in
        match err with
        | Some e =>
            (pre ++ [ EvLog (Printf "[Process] Failed to unmarshal JSON: %v" [ArgJsonError e]) ],
             emptyBodyResponse)
        | None =>
            let headers :=
              [ header "x-openai-prompt-tokens"
                       (strconv.Itoa (PromptTokens (Usage openAIResp)));
                header "x-openai-total-tokens"
                       (strconv.Itoa (TotalTokens (Usage openAIResp)));
                header "x-openai-completion-tokens"
                       (strconv.Itoa (CompletionTokens (Usage openAIResp))) ] in
            (pre ++
             [ EvLog (Printf "[Process] Successfully parsed usage metrics: %+v"
                             [ArgUsage (Usage openAIResp)]);
               EvLog (Printf "[Process] ResponseBody processed and decorated with headers: %+v"
                             [ArgHeaders headers]) ],
             {| Response :=
                  Some (ProcessingResponse_ResponseBody
                          {| BodyResponse_Response :=
                               Some {| HeaderMutation_ :=
                                         Some {| SetHeaders := headers;
                                                 RemoveHeaders := [] |} |} |});
                ModeOverride := None |})
        end
  | r =>
      ([ EvLog (Printf "[Process] Received unrecognized request type: %+v" [ArgOneof r]) ],
       {| Response := None; ModeOverride := None |})
  end.

(** The [for] loop, [nsent] calls of [Send] having been made. *)
Fixpoint Process_loop (incoming : list (ProcessingRequest + error))
    (send : nat -> option error) (nsent : nat) : list event * outcome :=
  match incoming with
  | [] => ([], Blocked)
  | inr err :: _ =>
      if is_EOF err then
        ([ EvRecv (inr err);
           EvLog (Println "[Process] Received EOF, terminating processing loop") ],
         Returned None)
      else
        ([ EvRecv (inr err);
           EvLog (Printf "[Process] Error receiving request: %v" [ArgError err]) ],
         Returned (Some (status_Errorf Unknown "cannot receive stream request: %v" err)))
  | inl req :: rest =>
      let '(evs, resp) := Process_switch req in
      let after_send :=
        match send nsent with
        | Some e => EvLog (Printf "[Process] Error sending response: %v" [ArgError e])
        | None => EvLog (Printf "[Process] Sent response: %+v" [ArgResponse resp])
        end in
      let '(tr, out) := Process_loop rest send (S nsent) in
      ([ EvRecv (inl req);
         EvLog (Printf "[Process] Received request: %+v" [ArgRequest req]) ]
       ++ evs ++ [ EvSend resp (send nsent); after_send ] ++ tr,
       out)
  end.

Definition Process (srv : ProcessServer) : list event * outcome :=
  let '(tr, out) := Process_loop (recv_script srv) (send_result srv) 0 in
  (EvLog (Println "[Process] Starting processing loop") :: tr, out).

(** *** Reading a run *)

(** The decision for one callback. *)
Definition decision (req : ProcessingRequest) : ProcessingResponse :=
  snd (Process_switch req).

(** The responses handed to [Send], in order. *)
Fixpoint sent (tr : list event) : list ProcessingResponse :=
  match tr with
  | [] => []
  | EvSend resp _ :: tr' => resp :: sent tr'
  | _ :: tr' => sent tr'
  end.

(** The callbacks that [Recv] delivered, in order. *)
Fixpoint received (tr : list event) : list ProcessingRequest :=
  match tr with
  | [] => []
  | EvRecv (inl req) :: tr' => req :: received tr'
  | _ :: tr' => received tr'
  end.

(** The inputs of the calls of [json.Unmarshal], in order. *)
Fixpoint unmarshal_calls (tr : list event) : list bytes :=
  match tr with
  | [] => []
  | EvUnmarshal data :: tr' => data :: unmarshal_calls tr'
  | _ :: tr' => unmarshal_calls tr'
  end.

Definition is_call (e : event) : bool :=
  match e with
  | EvRecv _ | EvSend _ _ => true
  | _ => false
  end.

(** The header mutation that a decision carries, if any. *)
Definition mutation_of (resp : ProcessingResponse) : option HeaderMutation :=
  match Response resp with
  | Some (ProcessingResponse_RequestHeaders h)
  | Some (ProcessingResponse_ResponseHeaders h) =>
      match HeadersResponse_Response h with
      | Some c => HeaderMutation_ c
      | None => None
      end
  | Some (ProcessingResponse_RequestBody b)
  | Some (ProcessingResponse_ResponseBody b) =>
      match BodyResponse_Response b with
      | Some c => HeaderMutation_ c
      | None => None
      end
  | None => None
  end.

(** The headers that a decision sets: none when it carries no mutation. *)
Definition set_headers_of (resp : ProcessingResponse) : list HeaderValueOption :=
  match mutation_of resp with
  | Some m => SetHeaders m
  | None => []
  end.

Definition has_common_response (resp : ProcessingResponse) : bool :=
  match Response resp with
  | Some (ProcessingResponse_RequestHeaders h)
  | Some (ProcessingResponse_ResponseHeaders h) =>
      match HeadersResponse_Response h with Some _ => true | None => false end
  | Some (ProcessingResponse_RequestBody b)
  | Some (ProcessingResponse_ResponseBody b) =>
      match BodyResponse_Response b with Some _ => true | None => false end
  | None => false
  end.

(** A decision that changes nothing: no mode override and no common
    response (so no header or body mutation). *)
Definition neutral (resp : ProcessingResponse) : bool :=
  match ModeOverride resp with
  | Some _ => false
  | None => negb (has_common_response resp)
  end.

(** Callbacks, as the far end builds them. *)
Definition RequestHeadersCb (h : HttpHeaders) : ProcessingRequest :=
  {| Request := Some (ProcessingRequest_RequestHeaders h) |}.
Definition RequestBodyCb (b : HttpBody) : ProcessingRequest :=
  {| Request := Some (ProcessingRequest_RequestBody b) |}.
Definition ResponseHeadersCb (h : HttpHeaders) : ProcessingRequest :=
  {| Request := Some (ProcessingRequest_ResponseHeaders h) |}.
Definition ResponseBodyCb (body : bytes) (eos : bool) : ProcessingRequest :=
  {| Request := Some (ProcessingRequest_ResponseBody
                        {| Body := body; EndOfStream := eos |}) |}.

(** ** JSON texts

    [render] writes a tree back as compact JSON text (no white space), the
    form in which the bodies of the properties below are given. *)

Fixpoint join (sep : bytes) (parts : list bytes) : bytes :=
  match parts with
  | [] => []
  | [p] => p
  | p :: ps => p ++ sep ++ join sep ps
  end.

Definition quote (raw : bytes) : bytes := dquote :: raw ++ [dquote].

Fixpoint render (v : json.value) : bytes :=
  match v with
  | json.VNull => json.lit_bytes "null"
  | json.VTrue => json.lit_bytes "true"
  | json.VFalse => json.lit_bytes "false"
  | json.VNumber lit => lit
  | json.VString raw => quote raw
  | json.VArray vs => "["%char :: join [","%char] (map render vs) ++ ["]"%char]
  | json.VObject ms =>
      "{"%char
        :: join [","%char] (map (fun m => quote (fst m) ++ ":"%char :: render (snd m)) ms)
        ++ ["}"%char]
  end.

Definition render_member (m : bytes * json.value) : bytes :=
  quote (fst m) ++ ":"%char :: render (snd m).

(** The number of containers open at the deepest point of a value. *)
Fixpoint depth_of (v : json.value) : Z :=
  match v with
  | json.VArray vs => 1 + fold_right (fun x d => Z.max (depth_of x) d) 0 vs
  | json.VObject ms => 1 + fold_right (fun m d => Z.max (depth_of (snd m)) d) 0 ms
  | _ => 0
  end.

(** [raw] is the inside of a string literal: the scanner takes all of it,
    up to a closing quote put after it. *)
Definition string_ok (raw : bytes) : bool :=
  match json.scanString (raw ++ [dquote]) with
  | Some (r, []) => bytes_eqb r raw
  | _ => false
  end.

(** [lit] is a number literal: the scanner takes all of it. *)
Definition number_ok (lit : bytes) : bool :=
  match json.scanNumber lit with
  | Some (l, []) => bytes_eqb l lit
  | _ => false
  end.

(** The literals of a tree are well formed. *)
Fixpoint literals_ok (v : json.value) : bool :=
  match v with
  | json.VNumber lit => number_ok lit
  | json.VString raw => string_ok raw
  | json.VArray vs => forallb literals_ok vs
  | json.VObject ms => forallb (fun m => string_ok (fst m) && literals_ok (snd m)) ms
  | _ => true
  end.

Definition key (name : string) : bytes := json.lit_bytes name.

Definition number (n : Z) : json.value :=
  json.VNumber (list_ascii_of_string (strconv.Itoa n)).

(** [{"usage":{"prompt_tokens":P,"total_tokens":T,"completion_tokens":C}}]
    as a member of the top-level object. *)
Definition usage_member (P T C : Z) : bytes * json.value :=
  (key "usage",
   json.VObject [ (key "prompt_tokens", number P);
                  (key "total_tokens", number T);
                  (key "completion_tokens", number C) ]).

(** A top-level member that has nothing to do with usage: its key selects
    no field of the target struct, and its value is any JSON value whose
    nesting, counted from inside the top-level object, stays within the
    scanner's limit. *)
Definition unrelated (m : bytes * json.value) : bool :=
  string_ok (fst m)
  && match json.unquoteBytes (fst m) with
     | Some k =>
         match json.lookupField openAIResp_fields k with
         | None => true
         | Some _ => false
         end
     | None => false
     end
  && literals_ok (snd m)
  && (depth_of (snd m) <? json.maxNestingDepth).

(** The three headers of a mutation, for given values. *)
Definition usage_headers (p t c : string) : list HeaderValueOption :=
  [ header "x-openai-prompt-tokens" p;
    header "x-openai-total-tokens" t;
    header "x-openai-completion-tokens" c ].

(** A string of decimal digits, not empty. *)
Definition all_digits (s : string) : bool :=
  match list_ascii_of_string s with
  | [] => false
  | l => forallb is_digit l
  end.

(** ** The state machine of the specification

    The handler itself keeps no phase.  The phases below are those that the
    specification gives for one transaction; they serve to say which
    callbacks arrive in protocol order. *)

Inductive phase := Start | AwaitRequestBody | AwaitResponseHeaders | Buffering | Done.

(** The transition of the specification for a callback that matches the
    phase; [None] when the callback is not the one expected. *)
Definition spec_next (ph : phase) (req : ProcessingRequest) : option phase :=
  match ph, Request req with
  | Start, Some (ProcessingRequest_RequestHeaders _) => Some AwaitRequestBody
  | AwaitRequestBody, Some (ProcessingRequest_RequestBody _) => Some AwaitResponseHeaders
  | AwaitResponseHeaders, Some (ProcessingRequest_ResponseHeaders _) => Some Buffering
  | Buffering, Some (ProcessingRequest_ResponseBody rb) =>
      Some (if EndOfStream rb then Done else Buffering)
  | _, _ => None
  end.

(** The phase reached by callbacks that all arrive in protocol order. *)
Fixpoint spec_run (ph : phase) (reqs : list ProcessingRequest) : option phase :=
  match reqs with
  | [] => Some ph
  | req :: reqs' =>
      match spec_next ph req with
      | Some ph' => spec_run ph' reqs'
      | None => None
      end
  end.

(** One whole transaction in protocol order. *)
Definition in_protocol_order (reqs : list ProcessingRequest) : bool :=
  match spec_run Start reqs with
  | Some Done => true
  | _ => false
  end.

Definition is_ResponseHeaders (req : ProcessingRequest) : bool :=
  match Request req with
  | Some (ProcessingRequest_ResponseHeaders _) => true
  | _ => false
  end.

Definition is_unrecognized (req : ProcessingRequest) : bool :=
  match Request req with
  | Some (ProcessingRequest_RequestTrailers _)
  | Some (ProcessingRequest_ResponseTrailers _)
  | None => true
  | _ => false
  end.

(** The mode override of the response-headers decision. *)
Definition buffered_override : ProcessingMode :=
  {| RequestHeaderMode := DEFAULT;
     ResponseHeaderMode := SEND;
     RequestBodyMode := NONE;
     ResponseBodyMode := BUFFERED;
     RequestTrailerMode := DEFAULT;
     ResponseTrailerMode := DEFAULT |}.

(** The accumulator of the specification: the bytes of all chunks of a
    response body, in order. *)
Definition spec_accumulated (chunks : list bytes) : bytes := List.concat chunks.

(** The value of a run of decimal digits read after the accumulator
    [acc]. *)
Fixpoint decval (acc : Z) (l : bytes) : Z :=
  match l with
  | [] => acc
  | c :: l' => decval (acc * 10 + (b2z c - 48)) l'
  end.

(** What may follow a value in compact JSON text: the end of the input, a
    comma or a closing bracket. *)
Definition delimited (rest : bytes) : Prop :=
  match rest with
  | [] => True
  | c :: _ => c = ","%char \/ c = "}"%char \/ c = "]"%char
  end.

(** What follows the first element of an array, respectively the first
    member of an object, in compact text. *)
Fixpoint array_tail (vs : list json.value) (rest : bytes) : bytes :=
  match vs with
  | [] => "]"%char :: rest
  | v :: vs' => ","%char :: render v ++ array_tail vs' rest
  end.

Fixpoint object_tail (ms : list (bytes * json.value)) (rest : bytes) : bytes :=
  match ms with
  | [] => "}"%char :: rest
  | m :: ms' => ","%char :: render_member m ++ object_tail ms' rest
  end.

(** The characters that start a value in compact text. *)
Definition starts_value (c : ascii) : bool :=
  negb (json.isSpace c)
  && negb (Ascii.eqb c "]") && negb (Ascii.eqb c "}") && negb (Ascii.eqb c ",").

(** The first character of a number literal. *)
Definition number_start (c : ascii) : bool :=
  match json.numNext json.stBegin c with
  | json.Goto _ => true
  | _ => false
  end.

(** The deepest nesting among the elements of an array, or among the
    values of the members of an object. *)
Definition depth_elems (vs : list json.value) : Z :=
  fold_right (fun x d => Z.max (depth_of x) d) 0 vs.

Definition depth_members (ms : list (bytes * json.value)) : Z :=
  fold_right (fun m d => Z.max (depth_of (snd m)) d) 0 ms.

(** Scanning the compact text of [v] gives [v] back, whatever delimiter
    follows, as long as the nesting limit is respected. *)
Definition scans_back (v : json.value) : Prop :=
  literals_ok v = true ->
  forall fuel depth rest,
    delimited rest ->
    depth + depth_of v <= json.maxNestingDepth ->
    (List.length (render v ++ rest) < fuel)%nat ->
    json.scanValue fuel depth (render v ++ rest) = json.Scanned (v, rest).

(** The body of the first property: the usage object among unrelated
    members of the top-level object. *)
Definition usage_document (before after : list (bytes * json.value)) (P T C : Z)
  : json.value :=
  json.VObject (before ++ usage_member P T C :: after).

(** The callbacks that the stream delivers before its first failing
    read, and the error of that read. *)
Fixpoint delivered (script : list (ProcessingRequest + error)) : list ProcessingRequest :=
  match script with
  | inl req :: script' => req :: delivered script'
  | _ => []
  end.

Fixpoint first_failure (script : list (ProcessingRequest + error)) : option error :=
  match script with
  | [] => None
  | inl _ :: script' => first_failure script'
  | inr e :: _ => Some e
  end.

(** The bodies of the response-body callbacks that carry the end of the
    stream. *)
Definition eos_body (req : ProcessingRequest) : list bytes :=
  match Request req with
  | Some (ProcessingRequest_ResponseBody rb) => if EndOfStream rb then [Body rb] else []
  | _ => []
  end.

Definition has_override (resp : ProcessingResponse) : bool :=
  match ModeOverride resp with
  | Some _ => true
  | None => false
  end.

(** The error that [Process] returns for a failing read. *)
Definition outcome_of (failure : option error) : outcome :=
  match failure with
  | None => Blocked
  | Some e =>
      if is_EOF e then Returned None
      else Returned (Some (status_Errorf Unknown "cannot receive stream request: %v" e))
  end.

(** The log line written after the [n]-th call of [Send]. *)
Definition send_log (send : nat -> option error) (n : nat) (resp : ProcessingResponse)
  : event :=
  match send n with
  | Some e => EvLog (Printf "[Process] Error sending response: %v" [ArgError e])
  | None => EvLog (Printf "[Process] Sent response: %+v" [ArgResponse resp])
  end.

(** The calls on the stream, in order. *)
Definition calls (tr : list event) : list event := filter is_call tr.

(** Strict alternation: each callback is read, then its decision is sent,
    before the next one is read; [n] calls of [Send] were made before. *)
Fixpoint exchange (send : nat -> option error) (n : nat) (reqs : list ProcessingRequest)
  : list event :=
  match reqs with
  | [] => []
  | req :: reqs' =>
      EvRecv (inl req) :: EvSend (decision req) (send n) :: exchange send (S n) reqs'
  end.

Definition last_read (failure : option error) : list event :=
  match failure with
  | Some e => [EvRecv (inr e)]
  | None => []
  end.

(** A callback is out of phase when the state machine of the
    specification, having followed the callbacks before it, expects another
    one. *)
Definition out_of_phase (before : list ProcessingRequest) (req : ProcessingRequest) : bool :=
  match spec_run Start before with
  | Some ph => match spec_next ph req with Some _ => false | None => true end
  | None => false
  end.

(** The chunks of a response body as callbacks: all but the last without
    the end-of-stream flag. *)
Definition chunked (chunks : list bytes) (final : bytes) : list ProcessingRequest :=
  map (fun c => ResponseBodyCb c false) chunks ++ [ResponseBodyCb final true].

Definition past_headers (ph : phase) : nat :=
  match ph with
  | Buffering | Done => 1%nat
  | _ => 0%nat
  end.

Definition Usage_in_int (u : UsageT) : Prop :=
  strconv.in_int (PromptTokens u) /\ strconv.in_int (TotalTokens u)
  /\ strconv.in_int (CompletionTokens u).

(** The name of the header that an option sets. *)
Definition header_name (h : HeaderValueOption) : option string :=
  option_map Key (Header h).

(** The inside of a string literal, as the scanner accepts it: plain
    characters and escapes. *)
Fixpoint string_body (s : bytes) : bool :=
  match s with
  | [] => true
  | c :: s1 =>
      if Ascii.eqb c dquote then false
      else if Ascii.eqb c bslash then
        match s1 with
        | [] => false
        | e :: s2 =>
            if json.isSimpleEscape e then string_body s2
            else if Ascii.eqb e "u" then
              match s2 with
              | h1 :: h2 :: h3 :: h4 :: s6 =>
                  json.isHex h1 && json.isHex h2 && json.isHex h3 && json.isHex h4
                  && string_body s6
              | _ => false
              end
            else false
        end
      else if b2z c <? 32 then false
      else string_body s1
  end.

(** Every key of every object of a tree is the inside of a string
    literal. *)
Fixpoint keys_ok (v : json.value) : bool :=
  match v with
  | json.VArray vs => forallb keys_ok vs
  | json.VObject ms => forallb (fun m => string_body (fst m) && keys_ok (snd m)) ms
  | _ => true
  end.


(** The response body shown in the README of the repository. *)
Definition README_body : json.value :=
  json.VObject
    [ (key "id", json.VString (key "12972888-f5f5-4fcd-8f19-1ff1327756c8"));
      (key "object", json.VString (key "text_completion"));
      (key "created", json.VNumber (key "1743763196"));
      (key "model", json.VString (key "llm"));
      (key "choices",
       json.VArray
         [ json.VObject
             [ (key "index", json.VNumber (key "0"));
               (key "text", json.VString (key "?\n\nKubernetes is a container orchestr"));
               (key "logprobs", json.VNull);
               (key "finish_reason", json.VString (key "length"));
               (key "stop_reason", json.VNull);
               (key "prompt_logprobs", json.VNull) ] ]);
      (key "usage",
       json.VObject
         [ (key "prompt_tokens", json.VNumber (key "5"));
           (key "total_tokens", json.VNumber (key "15"));
           (key "completion_tokens", json.VNumber (key "10"));
           (key "prompt_tokens_details", json.VNull) ]);
      (key "system_fingerprint", json.VNull) ].

(** The four callbacks of one transaction, the whole body in one chunk. *)
Definition transaction (body : bytes) : list ProcessingRequest :=
  let h := {| Headers := []; HttpHeaders_EndOfStream := false |} in
  [ RequestHeadersCb h;
    RequestBodyCb {| Body := []; EndOfStream := true |};
    ResponseHeadersCb h;
    ResponseBodyCb body true ].

(** ** The program without debug logging

    The second copy of the program: the same loop as main.go, logging only
    a failure of [json.Unmarshal] and a failure of [Send]. *)

Module Unlogged.

Definition Process_switch (req : ProcessingRequest) : list event * ProcessingResponse :=
  match Request req with
  | Some (ProcessingRequest_RequestHeaders _) =>
      ([],
       {| Response := Some (ProcessingResponse_RequestHeaders
                              {| HeadersResponse_Response := None |});
          ModeOverride := None |})
  | Some (ProcessingRequest_RequestBody _) =>
      ([],
       {| Response := Some (ProcessingResponse_RequestBody
                              {| BodyResponse_Response := None |});
          ModeOverride := None |})
  | Some (ProcessingRequest_ResponseHeaders _) =>
      ([],
       {| Response := Some (ProcessingResponse_ResponseHeaders
                              {| HeadersResponse_Response := None |});
          ModeOverride :=
            Some {| RequestHeaderMode := DEFAULT;
                    ResponseHeaderMode := SEND;
                    RequestBodyMode := NONE;
                    ResponseBodyMode := BUFFERED;
                    RequestTrailerMode := DEFAULT;
                    ResponseTrailerMode := DEFAULT |} |})
  | Some (ProcessingRequest_ResponseBody rb) =>
      if negb (EndOfStream rb) then ([], emptyBodyResponse)
      else
        let '(openAIResp, err) := Unmarshal (Body rb) zero_openAIResp in
        match err with
        | Some e =>
            ([ EvUnmarshal (Body rb);
               EvLog (Printf "failed to unmarshal JSON: %v" [ArgJsonError e]) ],
             emptyBodyResponse)
        | None =>
            let headers :=
              [ header "x-openai-prompt-tokens"
                       (strconv.Itoa (PromptTokens (Usage openAIResp)));
                header "x-openai-total-tokens"
                       (strconv.Itoa (TotalTokens (Usage openAIResp)));
                header "x-openai-completion-tokens"
                       (strconv.Itoa (CompletionTokens (Usage openAIResp))) ] in
            ([ EvUnmarshal (Body rb) ],
             {| Response :=
                  Some (ProcessingResponse_ResponseBody
                          {| BodyResponse_Response :=
                               Some {| HeaderMutation_ :=
                                         Some {| SetHeaders := headers;
                                                 RemoveHeaders := [] |} |} |});
                ModeOverride := None |})
        end
  | _ => ([], {| Response := None; ModeOverride := None |})
  end.

Fixpoint Process_loop (incoming : list (ProcessingRequest + error))
    (send : nat -> option error) (nsent : nat) : list event * outcome :=
  match incoming with
  | [] => ([], Blocked)
  | inr err :: _ =>
      if is_EOF err then ([ EvRecv (inr err) ], Returned None)
      else
        ([ EvRecv (inr err) ],
         Returned (Some (status_Errorf Unknown "cannot receive stream request: %v" err)))
  | inl req :: rest =>
      let '(evs, resp) := Process_switch req in
      let after_send :=
        match send nsent with
        | Some e => [ EvLog (Printf "send error: %v" [ArgError e]) ]
        | None => []
        end in
      let '(tr, out) := Process_loop rest send (S nsent) in
      ([ EvRecv (inl req) ] ++ evs ++ [ EvSend resp (send nsent) ] ++ after_send ++ tr, out)
  end.

Definition Process (srv : ProcessServer) : list event * outcome :=
  Process_loop (recv_script srv) (send_result srv) 0.

End Unlogged.

(** *** Reading a run, continued *)

Definition is_log (e : event) : bool :=
  match e with
  | EvLog _ => true
  | _ => false
  end.

(** A run without its log lines: the calls on the stream and the calls of
    [json.Unmarshal], with their arguments and results. *)
Definition effects (tr : list event) : list event := filter (fun e => negb (is_log e)) tr.

(** The log lines of a run. *)
Fixpoint log_lines (tr : list event) : list log_line :=
  match tr with
  | [] => []
  | EvLog l :: tr' => l :: log_lines tr'
  | _ :: tr' => log_lines tr'
  end.

(** The script up to its first failing read: what a run can reach. *)
Fixpoint until_failure (script : list (ProcessingRequest + error))
  : list (ProcessingRequest + error) :=
  match script with
  | [] => []
  | inl req :: script' => inl req :: until_failure script'
  | inr e :: _ => [inr e]
  end.

(** The bodies, among the complete response bodies delivered, that
    [json.Unmarshal] rejects. *)
Definition unmarshal_fails (body : bytes) : bool :=
  match snd (Unmarshal body zero_openAIResp) with
  | Some _ => true
  | None => false
  end.

Definition parse_failures (reqs : list ProcessingRequest) : nat :=
  List.length (filter unmarshal_fails (flat_map eos_body reqs)).

(** The calls of [Send], among [len] calls from the [n]-th on, that
    fail. *)
Definition send_fails (send : nat -> option error) (k : nat) : bool :=
  match send k with
  | Some _ => true
  | None => false
  end.

Definition send_failures (send : nat -> option error) (n len : nat) : nat :=
  List.length (filter (send_fails send) (seq n len)).

(** The log line of main.go that reports a call of [Send]. *)
Definition send_report (resp : ProcessingResponse) (err : option error) : event :=
  match err with
  | Some e => EvLog (Printf "[Process] Error sending response: %v" [ArgError e])
  | None => EvLog (Printf "[Process] Sent response: %+v" [ArgResponse resp])
  end.

(** Every call of [Send] in a trace is directly followed by the log line
    that reports its result. *)
Fixpoint sends_reported (tr : list event) : Prop :=
  match tr with
  | [] => True
  | EvSend resp err :: tr' => hd_error tr' = Some (send_report resp err) /\ sends_reported tr'
  | _ :: tr' => sends_reported tr'
  end.

(** The alternative of the oneof that a callback, respectively a
    decision, uses. *)
Inductive kind := KRequestHeaders | KResponseHeaders | KRequestBody | KResponseBody.

Definition request_kind (req : ProcessingRequest) : option kind :=
  match Request req with
  | Some (ProcessingRequest_RequestHeaders _) => Some KRequestHeaders
  | Some (ProcessingRequest_ResponseHeaders _) => Some KResponseHeaders
  | Some (ProcessingRequest_RequestBody _) => Some KRequestBody
  | Some (ProcessingRequest_ResponseBody _) => Some KResponseBody
  | _ => None
  end.

Definition response_kind (resp : ProcessingResponse) : option kind :=
  match Response resp with
  | Some (ProcessingResponse_RequestHeaders _) => Some KRequestHeaders
  | Some (ProcessingResponse_ResponseHeaders _) => Some KResponseHeaders
  | Some (ProcessingResponse_RequestBody _) => Some KRequestBody
  | Some (ProcessingResponse_ResponseBody _) => Some KResponseBody
  | None => None
  end.

(** A complete response body: the callback carries end-of-stream. *)
Definition complete_body (req : ProcessingRequest) : option bytes :=
  match Request req with
  | Some (ProcessingRequest_ResponseBody rb) =>
      if EndOfStream rb then Some (Body rb) else None
  | _ => None
  end.

(** *** Reading a scanned body *)

(** The field that the key of a member selects: the key is unquoted and
    looked up among the JSON names of the fields. *)
Definition selected (fields : list string) (k : bytes) : option nat :=
  match json.unquoteBytes k with
  | Some name => json.lookupField fields name
  | None => None
  end.

Definition selects (fields : list string) (i : nat) (m : bytes * json.value) : bool :=
  match selected fields (fst m) with
  | Some j => Nat.eqb i j
  | None => false
  end.

(** The values that an object gives for field [i], in the order of the
    text; none for a value that is not an object. *)
Definition values_at (fields : list string) (i : nat) (v : json.value) : list json.value :=
  match v with
  | json.VObject ms => map snd (filter (selects fields i) ms)
  | _ => []
  end.

(** The integer of a value, when it is a number literal that
    [strconv.ParseInt] accepts. *)
Definition int_of (v : json.value) : list Z :=
  match v with
  | json.VNumber lit =>
      match strconv.ParseInt lit with
      | inl n => [n]
      | inr _ => []
      end
  | _ => []
  end.

(** The integers that a body gives for count [i] (0 for the prompt
    tokens, 1 for the total, 2 for the completion tokens), in the order
    of the text. *)
Definition count_values (i : nat) (j : json.value) : list Z :=
  flat_map int_of (flat_map (values_at Usage_fields i) (values_at openAIResp_fields 0%nat j)).

(** What the decoder takes without a type error: for an [int], [null] and
    the number literals that fit; for a struct, [null] and the objects all
    of whose values under a key that selects a field are taken. *)
Definition count_accepted (v : json.value) : bool :=
  match v with
  | json.VNull => true
  | json.VNumber lit =>
      match strconv.ParseInt lit with
      | inl _ => true
      | inr _ => false
      end
  | _ => false
  end.

Definition member_accepted (fields : list string) (ok : json.value -> bool)
    (m : bytes * json.value) : bool :=
  match selected fields (fst m) with
  | Some _ => ok (snd m)
  | None => true
  end.

Definition struct_accepted (fields : list string) (ok : json.value -> bool)
    (v : json.value) : bool :=
  match v with
  | json.VNull => true
  | json.VObject ms => forallb (member_accepted fields ok) ms
  | _ => false
  end.

Definition usage_accepted : json.value -> bool := struct_accepted Usage_fields count_accepted.

Definition body_accepted : json.value -> bool :=
  struct_accepted openAIResp_fields usage_accepted.

(** The count of a usage record by the index of its field. *)
Definition Usage_get (i : nat) (u : UsageT) : Z :=
  match i with
  | 0%nat => PromptTokens u
  | 1%nat => TotalTokens u
  | 2%nat => CompletionTokens u
  | _ => 0
  end.

(** The header values of a decision, each read back by
    [strconv.ParseInt]. *)
Definition header_value (h : HeaderValueOption) : option string :=
  option_map Value (Header h).

Definition read_back (h : HeaderValueOption) : option (Z + strconv.NumError) :=
  option_map (fun s => strconv.ParseInt (list_ascii_of_string s)) (header_value h).

(** ASCII letters in upper case, other bytes as they are. *)
Definition to_upper (c : ascii) : ascii :=
  if (97 <=? b2z c) && (b2z c <=? 122) then z2b (b2z c - 32) else c.

Definition is_ascii (c : ascii) : bool := b2z c <? utf8.RuneSelf.

(** The folded names of the fields of a struct are pairwise distinct. *)
Definition distinct_folded (fields : list string) : Prop :=
  NoDup (map (fun n => json.foldName (json.lit_bytes n)) fields).

(** A run of decimal digits that does not start with a zero. *)
Definition no_leading_zero (l : bytes) : Prop :=
  match l with
  | [] => True
  | c :: _ => c <> "0"%char
  end.

(** The text of a value, when it is a number literal that
    [strconv.ParseInt] accepts, and the texts that a body gives for count
    [i], in the order of the text. *)
Definition int_text (v : json.value) : list bytes :=
  match v with
  | json.VNumber lit =>
      match strconv.ParseInt lit with
      | inl _ => [lit]
      | inr _ => []
      end
  | _ => []
  end.

Definition count_texts (i : nat) (j : json.value) : list bytes :=
  flat_map int_text (flat_map (values_at Usage_fields i) (values_at openAIResp_fields 0%nat j)).

(** Every number of a tree is a number literal of JSON. *)
Fixpoint numbers_ok (v : json.value) : bool :=
  match v with
  | json.VNumber lit => number_ok lit
  | json.VArray vs => forallb numbers_ok vs
  | json.VObject ms => forallb (fun m => numbers_ok (snd m)) ms
  | _ => true
  end.

(** The one literal that [strconv.Itoa] does not give back. *)
Definition minus_zero : bytes := json.lit_bytes "-0".

(** A number at the top of a value. *)
Definition is_number (v : json.value) : bool :=
  match v with
  | json.VNumber _ => true
  | _ => false
  end.

(** Bytes that hold something else than white space. *)
Definition has_nonspace (q : bytes) : bool := existsb (fun c => negb (json.isSpace c)) q.

(* ================================================================== *)
(** * Properties *)

(** ** Characters *)

Ltac ascii_cases c :=
  destruct c as [[] [] [] [] [] [] [] []]; vm_compute; try reflexivity; try congruence.

Lemma bytes_eqb_eq (a b : bytes) : bytes_eqb a b = true <-> a = b.
Proof.
  unfold bytes_eqb. destruct (list_eq_dec ascii_dec a b); split; congruence.
Qed.

Lemma bytes_eqb_refl (a : bytes) : bytes_eqb a a = true.
Proof. apply bytes_eqb_eq. reflexivity. Qed.

Lemma b2z_range (c : ascii) : 0 <= b2z c < 256.
Proof.
  destruct c as [[] [] [] [] [] [] [] []]; vm_compute; split; congruence.
Qed.

Lemma digit_char_b2z (d : Z) : 0 <= d <= 9 -> b2z (strconv.digit_char d) = 48 + d.
Proof.
  intros H.
  assert (d = 0 \/ d = 1 \/ d = 2 \/ d = 3 \/ d = 4 \/ d = 5 \/ d = 6 \/ d = 7
          \/ d = 8 \/ d = 9) as Hd by lia.
  repeat (destruct Hd as [-> | Hd]; [reflexivity |]). subst d. reflexivity.
Qed.

Lemma is_digit_range (c : ascii) : is_digit c = true <-> 48 <= b2z c <= 57.
Proof. unfold is_digit. rewrite andb_true_iff, !Z.leb_le. tauto. Qed.

Lemma digit_char_is_digit (d : Z) : 0 <= d <= 9 -> is_digit (strconv.digit_char d) = true.
Proof. intros H. apply is_digit_range. rewrite digit_char_b2z by exact H. lia. Qed.

Lemma digit_zero (c : ascii) : is_digit c = true -> b2z c = 48 -> c = "0"%char.
Proof. ascii_cases c. Qed.

Lemma digit_not_sign (c : ascii) :
  is_digit c = true -> Ascii.eqb c "-" = false /\ Ascii.eqb c "+" = false.
Proof. ascii_cases c; split; reflexivity. Qed.

(** ** strconv: printing and reading back *)

Lemma decval_app (l l' : bytes) (acc : Z) : decval acc (l ++ l') = decval (decval acc l) l'.
Proof. revert acc. induction l as [| c l IH]; intros acc; simpl; [reflexivity | apply IH]. Qed.

Lemma decval_mono (l : bytes) (acc : Z) :
  forallb is_digit l = true -> 0 <= acc -> acc <= decval acc l.
Proof.
  revert acc. induction l as [| c l IH]; intros acc Hd Hacc; simpl in *; [lia |].
  apply andb_true_iff in Hd as [Hc Hl]. apply is_digit_range in Hc.
  specialize (IH (acc * 10 + (b2z c - 48)) Hl). lia.
Qed.

(** The digits that [formatBits] puts in front of [a]: decimal digits, the
    first of which is a zero only for the number zero, and whose value is
    [u]. *)
Lemma formatBits_spec (fuel : nat) :
  forall u a, 0 <= u < 2 ^ Z.of_nat fuel -> fuel <> O ->
    exists c l,
      strconv.formatBits fuel u a = (c :: l) ++ a
      /\ forallb is_digit (c :: l) = true
      /\ decval 0 (c :: l) = u
      /\ (c = "0"%char -> l = [] /\ u = 0).
Proof.
  induction fuel as [| f IH]; intros u a Hu Hf; [congruence |].
  simpl strconv.formatBits.
  assert (0 <= u mod 10 <= 9) as Hm by (pose proof (Z.mod_pos_bound u 10); lia).
  destruct (Z.ltb_spec u 10) as [Hlt | Hge].
  - exists (strconv.digit_char (u mod 10)), [].
    rewrite Z.mod_small in * by lia.
    split; [reflexivity |]. split; [| split].
    + simpl. rewrite digit_char_is_digit by lia. reflexivity.
    + simpl. rewrite digit_char_b2z by lia. lia.
    + intros H0. apply (f_equal b2z) in H0. rewrite digit_char_b2z in H0 by lia.
      change (b2z "0") with 48 in H0. split; [reflexivity | lia].
  - assert (1 <= u / 10) as Hq by (apply Z.div_le_lower_bound; lia).
    assert (u / 10 < 2 ^ Z.of_nat f) as Hq2.
    { apply Z.div_lt_upper_bound; [lia |].
      rewrite Nat2Z.inj_succ, Z.pow_succ_r in Hu by lia. lia. }
    assert (f <> O) as Hf0.
    { intros ->. simpl in Hq2. lia. }
    destruct (IH (u / 10) (strconv.digit_char (u mod 10) :: a)) as (c & l & E & Hd & Hv & Hz);
      [lia | exact Hf0 |].
    exists c, (l ++ [strconv.digit_char (u mod 10)]).
    split; [| split; [| split]].
    + rewrite E. simpl. rewrite <- app_assoc. reflexivity.
    + change (c :: l ++ [strconv.digit_char (u mod 10)])
        with ((c :: l) ++ [strconv.digit_char (u mod 10)]).
      rewrite forallb_app, Hd. simpl. rewrite digit_char_is_digit by lia. reflexivity.
    + change (c :: l ++ [strconv.digit_char (u mod 10)])
        with ((c :: l) ++ [strconv.digit_char (u mod 10)]).
      rewrite decval_app, Hv. simpl. rewrite digit_char_b2z by lia.
      pose proof (Z.div_mod u 10). lia.
    + intros H0. destruct (Hz H0) as [_ Hu0]. lia.
Qed.

Lemma FormatUint_spec (u : Z) :
  0 <= u ->
  exists c l,
    strconv.FormatUint u = c :: l
    /\ forallb is_digit (c :: l) = true
    /\ decval 0 (c :: l) = u
    /\ (c = "0"%char -> l = [] /\ u = 0).
Proof.
  intros Hu. unfold strconv.FormatUint.
  destruct (formatBits_spec (S (Z.to_nat (Z.log2 u))) u []) as (c & l & E & H);
    [| congruence |].
  - split; [exact Hu |].
    rewrite Nat2Z.inj_succ, Z2Nat.id by apply Z.log2_nonneg.
    destruct (Z.eq_dec u 0) as [-> | Hn]; [reflexivity |].
    apply Z.log2_spec. lia.
  - exists c, l. rewrite E, app_nil_r. exact (conj eq_refl H).
Qed.

Lemma ParseUint_loop_digits (l : bytes) :
  forall acc, forallb is_digit l = true -> 0 <= acc -> decval acc l <= strconv.maxInt ->
    strconv.ParseUint_loop l acc = inl (decval acc l).
Proof.
  induction l as [| c l IH]; intros acc Hd Hacc Hmax; simpl; [reflexivity |].
  simpl in Hd. apply andb_true_iff in Hd as [Hc Hl]. rewrite Hc.
  apply is_digit_range in Hc.
  simpl in Hmax.
  pose proof (decval_mono l (acc * 10 + (b2z c - 48)) Hl ltac:(lia)) as Hm.
  unfold strconv.maxInt, strconv.maxUint64 in *.
  change (2 ^ 63) with 9223372036854775808 in *.
  change (2 ^ 64) with 18446744073709551616 in *.
  change ((18446744073709551616 - 1) / 10 + 1) with 1844674407370955162.
  destruct (Z.geb_spec acc 1844674407370955162) as [Hbig | _]; [lia |].
  rewrite Z.mod_small by lia.
  destruct (Z.ltb_spec (acc * 10 + (b2z c - 48)) (acc * 10)) as [Hbad | _]; [lia |].
  destruct (Z.gtb_spec (acc * 10 + (b2z c - 48)) (18446744073709551616 - 1)) as [Hbad | _];
    [lia |].
  simpl. apply IH; [exact Hl | lia | exact Hmax].
Qed.

(** Reading back what [Itoa] printed, for a count that fits an [int]. *)
Lemma ParseInt_FormatInt (n : Z) :
  0 <= n <= strconv.maxInt -> strconv.ParseInt (strconv.FormatInt n) = inl n.
Proof.
  intros Hn. unfold strconv.FormatInt.
  destruct (Z.ltb_spec n 0) as [Hneg | _]; [lia |].
  destruct (FormatUint_spec n) as (c & l & E & Hd & Hv & _); [lia |].
  rewrite E. unfold strconv.ParseInt.
  assert (is_digit c = true) as Hc by (simpl in Hd; apply andb_true_iff in Hd; tauto).
  destruct (digit_not_sign c Hc) as [-> ->]. simpl orb. cbv iota.
  unfold strconv.ParseUint.
  rewrite ParseUint_loop_digits; [| exact Hd | lia | rewrite Hv; lia].
  rewrite Hv. unfold strconv.maxInt, strconv.IntSize in *.
  change (2 ^ (64 - 1)) with (2 ^ 63).
  destruct (Z.geb_spec n (2 ^ 63)) as [Hbig | _]; [lia | reflexivity].
Qed.

(** ** The scanner on compact text *)

Lemma skipSpace_nonspace (c : ascii) (s : bytes) :
  json.isSpace c = false -> json.skipSpace (c :: s) = c :: s.
Proof. intros H. simpl. rewrite H. reflexivity. Qed.

Lemma skipSpace_length (s : bytes) : (List.length (json.skipSpace s) <= List.length s)%nat.
Proof.
  induction s as [| c s IH]; simpl; [lia |].
  destruct (json.isSpace c); simpl; lia.
Qed.

Lemma cons_lit_Some (pre : bytes) (r : option (bytes * bytes)) (l t : bytes) :
  json.cons_lit pre r = Some (l, t) ->
  exists l', r = Some (l', t) /\ l = pre ++ l'.
Proof.
  destruct r as [[l' t'] |]; simpl; [| discriminate].
  intros H. injection H as <- <-. exists l'. split; reflexivity.
Qed.

(** A scanned string ends at its closing quote: what comes after it does
    not matter. *)
Lemma scanString_app (n : nat) :
  forall s r t x, (List.length s <= n)%nat ->
    json.scanString s = Some (r, t) -> json.scanString (s ++ x) = Some (r, t ++ x).
Proof.
  induction n as [| n IH]; intros s r t x Hlen H.
  - destruct s; [discriminate | simpl in Hlen; lia].
  - destruct s as [| c s1]; [discriminate |].
    simpl in Hlen. simpl in H. simpl.
    destruct (Ascii.eqb c dquote).
    { injection H as <- <-. reflexivity. }
    destruct (Ascii.eqb c bslash).
    + destruct s1 as [| e s2]; [discriminate |]. simpl in Hlen. simpl.
      destruct (json.isSimpleEscape e).
      * apply cons_lit_Some in H as (l' & H & ->).
        rewrite (IH s2 l' t x) by (lia || exact H). reflexivity.
      * destruct (Ascii.eqb e "u"); [| discriminate].
        destruct s2 as [| h1 [| h2 [| h3 [| h4 s6]]]]; try discriminate.
        simpl in Hlen. simpl.
        destruct (json.isHex h1 && json.isHex h2 && json.isHex h3 && json.isHex h4);
          [| discriminate].
        apply cons_lit_Some in H as (l' & H & ->).
        rewrite (IH s6 l' t x) by (lia || exact H). reflexivity.
    + destruct (b2z c <? 32); [discriminate |].
      apply cons_lit_Some in H as (l' & H & ->).
      rewrite (IH s1 l' t x) by (lia || exact H). reflexivity.
Qed.

Lemma scanString_ok (raw rest : bytes) :
  string_ok raw = true -> json.scanString (raw ++ dquote :: rest) = Some (raw, rest).
Proof.
  unfold string_ok. intros H.
  destruct (json.scanString (raw ++ [dquote])) as [[r t] |] eqn:E; [| discriminate].
  destruct t; [| discriminate]. apply bytes_eqb_eq in H. subst r.
  change (raw ++ dquote :: rest) with (raw ++ [dquote] ++ rest).
  rewrite app_assoc.
  apply (scanString_app (List.length (raw ++ [dquote])) _ _ _ rest) in E; [exact E | lia].
Qed.

Lemma delimiter_ends_number (st : json.numState) (c : ascii) :
  json.numFinal st = true -> c = ","%char \/ c = "}"%char \/ c = "]"%char ->
  json.numNext st c = json.EndNumber.
Proof.
  intros Hf [-> | [-> | ->]]; destruct st; try discriminate; reflexivity.
Qed.

(** A number that the scanner takes to the end of the input is taken the
    same way when a delimiter follows. *)
Lemma scanNumberFrom_app (s : bytes) :
  forall st l rest, delimited rest ->
    json.scanNumberFrom st s = Some (l, []) ->
    json.scanNumberFrom st (s ++ rest) = Some (l, rest).
Proof.
  induction s as [| c s IH]; intros st l rest Hd H; simpl in *.
  - destruct (json.numFinal st) eqn:Hf; [| discriminate].
    injection H as <-.
    destruct rest as [| c r]; simpl; [rewrite Hf; reflexivity |].
    rewrite (delimiter_ends_number st c Hf Hd). reflexivity.
  - destruct (json.numNext st c) as [st' | |]; try discriminate.
    apply cons_lit_Some in H as (l' & H & ->).
    rewrite (IH st' l' rest Hd H). reflexivity.
Qed.

Lemma scanNumber_ok (lit rest : bytes) :
  number_ok lit = true -> delimited rest ->
  json.scanNumber (lit ++ rest) = Some (lit, rest).
Proof.
  unfold number_ok, json.scanNumber. intros H Hd.
  destruct (json.scanNumberFrom json.stBegin lit) as [[l t] |] eqn:E; [| discriminate].
  destruct t; [| discriminate]. apply bytes_eqb_eq in H. subst l.
  apply scanNumberFrom_app; assumption.
Qed.

Lemma number_start_facts (c : ascii) :
  number_start c = true ->
  starts_value c = true
  /\ Ascii.eqb c "{" = false /\ Ascii.eqb c "[" = false /\ Ascii.eqb c dquote = false
  /\ (Ascii.eqb c "-" || is_digit c) = true.
Proof. ascii_cases c; intros _; repeat split. Qed.

Lemma number_ok_head (lit : bytes) :
  number_ok lit = true -> exists c l, lit = c :: l /\ number_start c = true.
Proof.
  unfold number_ok, json.scanNumber. destruct lit as [| c l]; [discriminate |].
  intros H. exists c, l. split; [reflexivity |].
  unfold number_start. cbn [json.scanNumberFrom] in H.
  destruct (json.numNext json.stBegin c); [reflexivity | | discriminate].
  destruct l; discriminate.
Qed.

(** Induction on JSON values, with the hypothesis available for every
    element of an array and every member of an object. *)
Lemma value_induction (P : json.value -> Prop) :
  P json.VNull -> P json.VTrue -> P json.VFalse ->
  (forall lit, P (json.VNumber lit)) ->
  (forall raw, P (json.VString raw)) ->
  (forall vs, Forall P vs -> P (json.VArray vs)) ->
  (forall ms, Forall (fun m => P (snd m)) ms -> P (json.VObject ms)) ->
  forall v, P v.
Proof.
  intros Hnull Htrue Hfalse Hnum Hstr Harr Hobj.
  fix F 1. intros [| | | lit | raw | vs | ms].
  - exact Hnull.
  - exact Htrue.
  - exact Hfalse.
  - apply Hnum.
  - apply Hstr.
  - apply Harr. revert vs. fix G 1. intros [| v vs].
    + constructor.
    + constructor; [apply F | apply G].
  - apply Hobj. revert ms. fix G 1. intros [| [k v] ms].
    + constructor.
    + constructor; [apply F | apply G].
Qed.

Lemma render_head (v : json.value) :
  literals_ok v = true -> exists c t, render v = c :: t /\ starts_value c = true.
Proof.
  destruct v as [| | | lit | raw | vs | ms]; intros H; simpl in H;
    try (eexists; eexists; split; [reflexivity | reflexivity]).
  destruct (number_ok_head lit H) as (c & l & -> & Hc).
  exists c, l. split; [reflexivity |]. apply number_start_facts. exact Hc.
Qed.

Lemma starts_value_facts (c : ascii) :
  starts_value c = true ->
  json.isSpace c = false /\ Ascii.eqb c "]" = false /\ Ascii.eqb c "}" = false
  /\ Ascii.eqb c "," = false.
Proof.
  unfold starts_value. rewrite !andb_true_iff, !negb_true_iff. tauto.
Qed.

Lemma join_array_tail (vs : list json.value) :
  forall v rest,
    join [","%char] (render v :: map render vs) ++ "]"%char :: rest
    = render v ++ array_tail vs rest.
Proof.
  induction vs as [| v' vs IH]; intros v rest; [reflexivity |].
  change (join [","%char] (render v :: map render (v' :: vs)))
    with (render v ++ [","%char] ++ join [","%char] (render v' :: map render vs)).
  rewrite <- !app_assoc. rewrite IH. reflexivity.
Qed.

Lemma join_object_tail (ms : list (bytes * json.value)) :
  forall m rest,
    join [","%char] (render_member m :: map render_member ms) ++ "}"%char :: rest
    = render_member m ++ object_tail ms rest.
Proof.
  induction ms as [| m' ms IH]; intros m rest; [reflexivity |].
  change (join [","%char] (render_member m :: map render_member (m' :: ms)))
    with (render_member m ++ [","%char]
            ++ join [","%char] (render_member m' :: map render_member ms)).
  rewrite <- !app_assoc. rewrite IH. reflexivity.
Qed.

Lemma render_array_cons (v : json.value) (vs : list json.value) (rest : bytes) :
  render (json.VArray (v :: vs)) ++ rest = "["%char :: render v ++ array_tail vs rest.
Proof.
  change (render (json.VArray (v :: vs)))
    with ("["%char :: join [","%char] (render v :: map render vs) ++ ["]"%char]).
  rewrite <- join_array_tail, <- app_comm_cons, <- app_assoc. reflexivity.
Qed.

Lemma render_object_cons (m : bytes * json.value) (ms : list (bytes * json.value))
    (rest : bytes) :
  render (json.VObject (m :: ms)) ++ rest = "{"%char :: render_member m ++ object_tail ms rest.
Proof.
  change (render (json.VObject (m :: ms)))
    with ("{"%char :: join [","%char] (render_member m :: map render_member ms) ++ ["}"%char]).
  rewrite <- join_object_tail, <- app_comm_cons, <- app_assoc. reflexivity.
Qed.

Lemma array_tail_delimited (vs : list json.value) (rest : bytes) :
  delimited (array_tail vs rest).
Proof. destruct vs; simpl; auto. Qed.

Lemma object_tail_delimited (ms : list (bytes * json.value)) (rest : bytes) :
  delimited (object_tail ms rest).
Proof. destruct ms; simpl; auto. Qed.

(** The unfolding of the scanner at the characters of compact text. *)
Lemma scanValue_array (f : nat) (d : Z) (s1 : bytes) :
  json.scanValue (S f) d ("["%char :: s1) =
  if json.maxNestingDepth <=? d then json.Invalid
  else
    match json.skipSpace s1 with
    | [] => json.Invalid
    | c' :: s2 =>
        if Ascii.eqb c' "]" then json.Scanned (json.VArray [], s2)
        else
          match json.scanValue f (d + 1) s1 with
          | json.Scanned (v, r1) =>
              match json.scanArrayRest f (d + 1) r1 with
              | json.Scanned (vs, r2) => json.Scanned (json.VArray (v :: vs), r2)
              | json.Invalid => json.Invalid
              | json.NoFuel => json.NoFuel
              end
          | json.Invalid => json.Invalid
          | json.NoFuel => json.NoFuel
          end
    end.
Proof. reflexivity. Qed.

Lemma scanValue_object (f : nat) (d : Z) (s1 : bytes) :
  json.scanValue (S f) d ("{"%char :: s1) =
  if json.maxNestingDepth <=? d then json.Invalid
  else
    match json.skipSpace s1 with
    | [] => json.Invalid
    | c' :: s2 =>
        if Ascii.eqb c' "}" then json.Scanned (json.VObject [], s2)
        else
          match json.scanKey s1 with
          | None => json.Invalid
          | Some (k, r) =>
              match json.scanValue f (d + 1) r with
              | json.Scanned (v, r1) =>
                  match json.scanObjectRest f (d + 1) r1 with
                  | json.Scanned (ms, r2) => json.Scanned (json.VObject ((k, v) :: ms), r2)
                  | json.Invalid => json.Invalid
                  | json.NoFuel => json.NoFuel
                  end
              | json.Invalid => json.Invalid
              | json.NoFuel => json.NoFuel
              end
          end
    end.
Proof. reflexivity. Qed.

Lemma scanArrayRest_comma (f : nat) (d : Z) (s1 : bytes) :
  json.scanArrayRest (S f) d (","%char :: s1) =
  match json.scanValue f d s1 with
  | json.Scanned (v, r1) =>
      match json.scanArrayRest f d r1 with
      | json.Scanned (vs, r2) => json.Scanned (v :: vs, r2)
      | json.Invalid => json.Invalid
      | json.NoFuel => json.NoFuel
      end
  | json.Invalid => json.Invalid
  | json.NoFuel => json.NoFuel
  end.
Proof. reflexivity. Qed.

Lemma scanObjectRest_comma (f : nat) (d : Z) (s1 : bytes) :
  json.scanObjectRest (S f) d (","%char :: s1) =
  match json.scanKey s1 with
  | None => json.Invalid
  | Some (k, r) =>
      match json.scanValue f d r with
      | json.Scanned (v, r1) =>
          match json.scanObjectRest f d r1 with
          | json.Scanned (ms, r2) => json.Scanned ((k, v) :: ms, r2)
          | json.Invalid => json.Invalid
          | json.NoFuel => json.NoFuel
          end
      | json.Invalid => json.Invalid
      | json.NoFuel => json.NoFuel
      end
  end.
Proof. reflexivity. Qed.

Lemma scanValue_number (f : nat) (d : Z) (c : ascii) (s : bytes) :
  number_start c = true ->
  json.scanValue (S f) d (c :: s) =
  match json.scanNumber (c :: s) with
  | Some (lit, r) => json.Scanned (json.VNumber lit, r)
  | None => json.Invalid
  end.
Proof.
  intros Hc. destruct (number_start_facts c Hc) as (Hs & H1 & H2 & H3 & H4).
  destruct (starts_value_facts c Hs) as (Hsp & _).
  cbn [json.scanValue]. rewrite skipSpace_nonspace by exact Hsp.
  rewrite H1, H2, H3, H4. reflexivity.
Qed.

Lemma scanValue_string (f : nat) (d : Z) (s : bytes) :
  json.scanValue (S f) d (dquote :: s) =
  match json.scanString s with
  | Some (raw, r) => json.Scanned (json.VString raw, r)
  | None => json.Invalid
  end.
Proof. reflexivity. Qed.

Lemma scanKey_ok (k rest : bytes) :
  string_ok k = true -> json.scanKey (quote k ++ ":"%char :: rest) = Some (k, rest).
Proof.
  intros Hk. unfold json.scanKey, quote.
  change ((dquote :: k ++ [dquote]) ++ ":"%char :: rest)
    with (dquote :: (k ++ [dquote]) ++ ":"%char :: rest).
  rewrite <- app_assoc. simpl app.
  rewrite skipSpace_nonspace by reflexivity.
  change (Ascii.eqb dquote dquote) with true. cbv iota.
  rewrite scanString_ok by exact Hk. reflexivity.
Qed.

Lemma render_member_app (k : bytes) (v : json.value) (x : bytes) :
  render_member (k, v) ++ x = quote k ++ ":"%char :: (render v ++ x).
Proof. unfold render_member. rewrite <- app_assoc. reflexivity. Qed.

Lemma render_member_length (k : bytes) (v : json.value) :
  List.length (render_member (k, v)) = (3 + List.length k + List.length (render v))%nat.
Proof.
  unfold render_member, quote. simpl. repeat (rewrite length_app; simpl). lia.
Qed.

Lemma depth_elems_nonneg (vs : list json.value) : 0 <= depth_elems vs.
Proof. induction vs as [| v vs IH]; unfold depth_elems in *; simpl; lia. Qed.

Lemma depth_members_nonneg (ms : list (bytes * json.value)) : 0 <= depth_members ms.
Proof. induction ms as [| m ms IH]; unfold depth_members in *; simpl; lia. Qed.

Ltac len_lia := repeat (rewrite ?length_app in *; simpl List.length in * ); lia.

Lemma scanArrayRest_tail (vs : list json.value) :
  Forall scans_back vs -> forallb literals_ok vs = true ->
  forall fuel depth rest,
    delimited rest ->
    depth + depth_elems vs <= json.maxNestingDepth ->
    (List.length (array_tail vs rest) < fuel)%nat ->
    json.scanArrayRest fuel depth (array_tail vs rest) = json.Scanned (vs, rest).
Proof.
  induction 1 as [| v vs Hv _ IH]; intros Hok fuel depth rest Hd Hdepth Hfuel;
    (destruct fuel as [| f]; [simpl in Hfuel; lia |]).
  - reflexivity.
  - simpl in Hok. apply andb_true_iff in Hok as [Hokv Hokvs].
    unfold depth_elems in Hdepth. simpl in Hdepth. fold (depth_elems vs) in Hdepth.
    simpl array_tail in *. rewrite scanArrayRest_comma.
    rewrite (Hv Hokv f depth (array_tail vs rest));
      [| apply array_tail_delimited | lia | len_lia].
    rewrite (IH Hokvs f depth rest); [reflexivity | exact Hd | lia | len_lia].
Qed.

Lemma scanObjectRest_tail (ms : list (bytes * json.value)) :
  Forall (fun m => scans_back (snd m)) ms ->
  forallb (fun m => string_ok (fst m) && literals_ok (snd m)) ms = true ->
  forall fuel depth rest,
    delimited rest ->
    depth + depth_members ms <= json.maxNestingDepth ->
    (List.length (object_tail ms rest) < fuel)%nat ->
    json.scanObjectRest fuel depth (object_tail ms rest) = json.Scanned (ms, rest).
Proof.
  induction 1 as [| [k v] ms Hv _ IH]; intros Hok fuel depth rest Hd Hdepth Hfuel;
    (destruct fuel as [| f]; [simpl in Hfuel; lia |]).
  - reflexivity.
  - simpl in Hok. apply andb_true_iff in Hok as [Hokm Hokms].
    apply andb_true_iff in Hokm as [Hokk Hokv].
    unfold depth_members in Hdepth. simpl in Hdepth. fold (depth_members ms) in Hdepth.
    cbn [object_tail] in *. simpl snd in Hv.
    rewrite scanObjectRest_comma, render_member_app.
    rewrite scanKey_ok by exact Hokk.
    cbn [List.length] in Hfuel. rewrite length_app, render_member_length in Hfuel.
    rewrite (Hv Hokv f depth (object_tail ms rest));
      [| apply object_tail_delimited | lia | len_lia].
    rewrite (IH Hokms f depth rest); [reflexivity | exact Hd | lia | len_lia].
Qed.

(** The scanner reads compact text back into the tree it was written
    from. *)
Theorem scanValue_render (v : json.value) : scans_back v.
Proof.
  induction v as [| | | lit | raw | vs IH | ms IH] using value_induction;
    intros Hok fuel depth rest Hd Hdepth Hfuel;
    (destruct fuel as [| f]; [simpl in Hfuel; lia |]).
  - reflexivity.
  - reflexivity.
  - reflexivity.
  - simpl in Hok. simpl render.
    destruct (number_ok_head lit Hok) as (c & l & E & Hc).
    pose proof (scanNumber_ok lit rest Hok Hd) as Hscan.
    subst lit. rewrite <- app_comm_cons in *.
    rewrite scanValue_number by exact Hc. rewrite Hscan. reflexivity.
  - simpl in Hok. simpl render. unfold quote.
    rewrite <- app_comm_cons, <- app_assoc. simpl app.
    rewrite scanValue_string, scanString_ok by exact Hok. reflexivity.
  - destruct vs as [| v vs].
    + change (render (json.VArray []) ++ rest) with ("["%char :: "]"%char :: rest).
      rewrite scanValue_array.
      simpl in Hdepth. destruct (Z.leb_spec json.maxNestingDepth depth); [lia |].
      reflexivity.
    + rewrite render_array_cons in *. rewrite scanValue_array.
      change (depth_of (json.VArray (v :: vs)))
        with (1 + Z.max (depth_of v) (depth_elems vs)) in Hdepth.
      pose proof (depth_elems_nonneg vs).
      destruct (Z.leb_spec json.maxNestingDepth depth); [lia |].
      simpl in Hok. apply andb_true_iff in Hok as [Hokv Hokvs].
      inversion IH as [| ? ? IHv IHvs]; subst.
      assert (json.scanValue f (depth + 1) (render v ++ array_tail vs rest)
              = json.Scanned (v, array_tail vs rest)) as Ev.
      { apply IHv; [exact Hokv | apply array_tail_delimited | lia | len_lia]. }
      destruct (render_head v Hokv) as (c & t & Er & Hc).
      destruct (starts_value_facts c Hc) as (Hsp & Hb & _).
      rewrite Er in *. simpl app in *.
      rewrite skipSpace_nonspace by exact Hsp. rewrite Hb, Ev.
      rewrite (scanArrayRest_tail vs IHvs Hokvs f (depth + 1) rest);
        [reflexivity | exact Hd | lia | len_lia].
  - destruct ms as [| [k v] ms].
    + change (render (json.VObject []) ++ rest) with ("{"%char :: "}"%char :: rest).
      rewrite scanValue_object.
      simpl in Hdepth. destruct (Z.leb_spec json.maxNestingDepth depth); [lia |].
      reflexivity.
    + rewrite render_object_cons in *. rewrite scanValue_object.
      change (depth_of (json.VObject ((k, v) :: ms)))
        with (1 + Z.max (depth_of v) (depth_members ms)) in Hdepth.
      pose proof (depth_members_nonneg ms).
      destruct (Z.leb_spec json.maxNestingDepth depth); [lia |].
      simpl in Hok. apply andb_true_iff in Hok as [Hokm Hokms].
      apply andb_true_iff in Hokm as [Hokk Hokv].
      inversion IH as [| ? ? IHv IHms]; subst. simpl in IHv.
      cbn [List.length] in Hfuel. rewrite length_app, render_member_length in Hfuel.
      rewrite render_member_app.
      rewrite scanKey_ok by exact Hokk.
      unfold quote. simpl app.
      rewrite skipSpace_nonspace by reflexivity.
      change (Ascii.eqb dquote "}") with false. cbv iota.
      rewrite (IHv Hokv f (depth + 1) (object_tail ms rest));
        [| apply object_tail_delimited | lia | len_lia].
      rewrite (scanObjectRest_tail ms IHms Hokms f (depth + 1) rest);
        [reflexivity | exact Hd | lia | len_lia].
Qed.

Lemma skipSpace_render (v : json.value) (rest : bytes) :
  literals_ok v = true -> json.skipSpace (render v ++ rest) = render v ++ rest.
Proof.
  intros Hok. destruct (render_head v Hok) as (c & t & -> & Hc).
  destruct (starts_value_facts c Hc) as (Hsp & _).
  simpl app. apply skipSpace_nonspace. exact Hsp.
Qed.

(** [checkValid] accepts the compact text of a tree whose literals are
    well formed and whose nesting is within the limit, and returns the
    tree. *)
Theorem checkValid_render (v : json.value) :
  literals_ok v = true -> depth_of v <= json.maxNestingDepth ->
  json.checkValid (render v) = json.Scanned v.
Proof.
  intros Hok Hdepth. unfold json.checkValid.
  pose proof (scanValue_render v Hok (S (List.length (render v))) 0 [] I) as H.
  rewrite app_nil_r in H. rewrite H; [reflexivity | lia | lia].
Qed.

(** ** The fuel of the scanner is never used up *)

Lemma skipSpace_cons_length (s s1 : bytes) (c : ascii) :
  json.skipSpace s = c :: s1 -> (List.length s1 < List.length s)%nat.
Proof.
  intros H. pose proof (skipSpace_length s) as Hl. rewrite H in Hl. simpl in Hl. lia.
Qed.

Lemma scanString_length (n : nat) :
  forall s r t, (List.length s <= n)%nat ->
    json.scanString s = Some (r, t) -> (List.length t < List.length s)%nat.
Proof.
  induction n as [| n IH]; intros s r t Hlen H.
  - destruct s; [discriminate | simpl in Hlen; lia].
  - destruct s as [| c s1]; [discriminate |].
    simpl in Hlen. simpl in H.
    destruct (Ascii.eqb c dquote).
    { injection H as <- <-. simpl. lia. }
    destruct (Ascii.eqb c bslash).
    + destruct s1 as [| e s2]; [discriminate |]. simpl in Hlen.
      destruct (json.isSimpleEscape e).
      * apply cons_lit_Some in H as (l' & H & ->).
        apply IH in H; [simpl; lia | lia].
      * destruct (Ascii.eqb e "u"); [| discriminate].
        destruct s2 as [| h1 [| h2 [| h3 [| h4 s6]]]]; try discriminate.
        simpl in Hlen.
        destruct (json.isHex h1 && json.isHex h2 && json.isHex h3 && json.isHex h4);
          [| discriminate].
        apply cons_lit_Some in H as (l' & H & ->).
        apply IH in H; [simpl; lia | lia].
    + destruct (b2z c <? 32); [discriminate |].
      apply cons_lit_Some in H as (l' & H & ->).
      apply IH in H; [simpl; lia | lia].
Qed.

Lemma scanString_shorter (s r t : bytes) :
  json.scanString s = Some (r, t) -> (List.length t < List.length s)%nat.
Proof. apply (scanString_length (List.length s)). lia. Qed.

Lemma scanNumberFrom_length (s : bytes) :
  forall st l r, json.scanNumberFrom st s = Some (l, r) ->
    (List.length r <= List.length s)%nat
    /\ (st = json.stBegin -> (List.length r < List.length s)%nat).
Proof.
  induction s as [| c s IH]; intros st l r H; simpl in H.
  - destruct st; simpl in H; try discriminate; injection H as <- <-;
      (split; [simpl; lia | discriminate]).
  - destruct (json.numNext st c) as [st' | |] eqn:E.
    + apply cons_lit_Some in H as (l' & H & ->).
      apply IH in H as [H _]. simpl. split; intros; lia.
    + injection H as <- <-. split; [lia |]. intros ->. simpl in E.
      destruct (Ascii.eqb c "-"); [discriminate |].
      destruct (Ascii.eqb c "0"); [discriminate |].
      destruct (json.isDigit19 c); discriminate.
    + discriminate.
Qed.

Lemma scanNumber_shorter (s l r : bytes) :
  json.scanNumber s = Some (l, r) -> (List.length r < List.length s)%nat.
Proof. intros H. apply scanNumberFrom_length in H as [_ H]. apply H. reflexivity. Qed.

Lemma scanKey_shorter (s k r : bytes) :
  json.scanKey s = Some (k, r) -> (List.length r < List.length s)%nat.
Proof.
  unfold json.scanKey. intros H.
  destruct (json.skipSpace s) as [| c s1] eqn:E1; [discriminate |].
  destruct (Ascii.eqb c dquote); [| discriminate].
  destruct (json.scanString s1) as [[k' r'] |] eqn:E2; [| discriminate].
  destruct (json.skipSpace r') as [| c2 r1] eqn:E3; [discriminate |].
  destruct (Ascii.eqb c2 ":"); [| discriminate].
  injection H as <- <-.
  apply skipSpace_cons_length in E1, E3. apply scanString_shorter in E2. lia.
Qed.

Lemma strip_prefix_length (p : bytes) :
  forall s r, json.strip_prefix p s = Some r ->
    (List.length r + List.length p = List.length s)%nat.
Proof.
  induction p as [| a p IH]; intros s r H; simpl in H.
  - injection H as <-. simpl. lia.
  - destruct s as [| b s]; [discriminate |].
    destruct (Ascii.eqb a b); [| discriminate].
    apply IH in H. simpl. lia.
Qed.

Lemma scanLiteral_shorter (w : string) (v0 v : json.value) (s r : bytes) :
  json.lit_bytes w <> [] ->
  json.scanLiteral w v0 s = json.Scanned (v, r) -> (List.length r < List.length s)%nat.
Proof.
  unfold json.scanLiteral. intros Hw H.
  destruct (json.strip_prefix (json.lit_bytes w) s) as [r' |] eqn:E; [| discriminate].
  injection H as <- <-. apply strip_prefix_length in E.
  destruct (json.lit_bytes w); [congruence | simpl in E; lia].
Qed.

(** Destructs, one after the other, what the hypothesis [H] matches on. *)
Ltac break_in H :=
  repeat
    match type of H with
    | context [match ?x with _ => _ end] => destruct x eqn:?; try discriminate H
    | context [if ?b then _ else _] => destruct b eqn:?; try discriminate H
    end.

(** Turns what is known about the pieces of a scan into facts on lengths. *)
Ltac length_facts :=
  repeat
    match goal with
    | H : json.skipSpace _ = _ :: _ |- _ => apply skipSpace_cons_length in H
    | H : json.scanString _ = Some _ |- _ => apply scanString_shorter in H
    | H : json.scanNumber _ = Some _ |- _ => apply scanNumber_shorter in H
    | H : json.scanKey _ = Some _ |- _ => apply scanKey_shorter in H
    | H : json.scanLiteral _ _ _ = json.Scanned _ |- _ =>
        apply scanLiteral_shorter in H; [| discriminate]
    end.

(** A successful scan consumes input. *)
Lemma scan_shorter (fuel : nat) :
  (forall d s v r, json.scanValue fuel d s = json.Scanned (v, r) ->
     (List.length r < List.length s)%nat)
  /\ (forall d s vs r, json.scanArrayRest fuel d s = json.Scanned (vs, r) ->
        (List.length r < List.length s)%nat)
  /\ (forall d s ms r, json.scanObjectRest fuel d s = json.Scanned (ms, r) ->
        (List.length r < List.length s)%nat).
Proof.
  induction fuel as [| f (IHv & IHa & IHo)]; [repeat split; discriminate |].
  split; [| split]; intros d s x r H;
    cbn [json.scanValue json.scanArrayRest json.scanObjectRest] in H; unfold json.bind in H;
    break_in H; try (injection H as <- <-);
    repeat match goal with
      | H : json.scanValue f _ _ = json.Scanned _ |- _ => apply IHv in H
      | H : json.scanArrayRest f _ _ = json.Scanned _ |- _ => apply IHa in H
      | H : json.scanObjectRest f _ _ = json.Scanned _ |- _ => apply IHo in H
      end;
    length_facts; simpl in *; lia.
Qed.

Lemma scan_fuel (fuel : nat) :
  (forall d s, (List.length s < fuel)%nat -> json.scanValue fuel d s <> json.NoFuel)
  /\ (forall d s, (List.length s < fuel)%nat -> json.scanArrayRest fuel d s <> json.NoFuel)
  /\ (forall d s, (List.length s < fuel)%nat -> json.scanObjectRest fuel d s <> json.NoFuel).
Proof.
  induction fuel as [| f (IHv & IHa & IHo)]; [repeat split; intros; lia |].
  destruct (scan_shorter f) as (Sv & Sa & So).
  split; [| split]; intros d s Hlen H;
    cbn [json.scanValue json.scanArrayRest json.scanObjectRest] in H; unfold json.bind in H;
    break_in H;
    repeat match goal with
      | H : json.scanValue f _ _ = json.Scanned _ |- _ => apply Sv in H
      | H : json.scanArrayRest f _ _ = json.Scanned _ |- _ => apply Sa in H
      | H : json.scanObjectRest f _ _ = json.Scanned _ |- _ => apply So in H
      end;
    length_facts;
    try (unfold json.scanLiteral in *;
         match goal with
         | H : match ?x with _ => _ end = json.NoFuel |- _ => destruct x; discriminate H
         end);
    match goal with
    | H : json.scanValue f _ _ = json.NoFuel |- _ => apply IHv in H; [exact H | simpl in *; lia]
    | H : json.scanArrayRest f _ _ = json.NoFuel |- _ => apply IHa in H; [exact H | simpl in *; lia]
    | H : json.scanObjectRest f _ _ = json.NoFuel |- _ => apply IHo in H; [exact H | simpl in *; lia]
    end.
Qed.

(** [checkValid] decides: it never stops for lack of fuel. *)
Theorem checkValid_fuel (data : bytes) : json.checkValid data <> json.NoFuel.
Proof.
  unfold json.checkValid.
  destruct (scan_fuel (S (List.length data))) as (Hv & _).
  specialize (Hv 0 data ltac:(lia)).
  destruct (json.scanValue (S (List.length data)) 0 data) as [[v r] | |];
    [destruct (json.skipSpace r); discriminate | discriminate | congruence].
Qed.

(** ** Number literals printed by [Itoa] *)

Lemma Itoa_bytes (n : Z) : list_ascii_of_string (strconv.Itoa n) = strconv.FormatInt n.
Proof. apply list_ascii_of_string_of_list_ascii. Qed.

Lemma FormatInt_nonneg (n : Z) : 0 <= n -> strconv.FormatInt n = strconv.FormatUint n.
Proof. intros H. unfold strconv.FormatInt. destruct (Z.ltb_spec n 0); [lia | reflexivity]. Qed.

Lemma scan_digits (l : bytes) :
  forallb is_digit l = true -> json.scanNumberFrom json.st1 l = Some (l, []).
Proof.
  induction l as [| c l IH]; intros H; simpl in *; [reflexivity |].
  apply andb_true_iff in H as [Hc Hl]. rewrite Hc, (IH Hl). reflexivity.
Qed.

Lemma digit_nonzero_start (c : ascii) :
  is_digit c = true -> Ascii.eqb c "0" = false ->
  json.numNext json.stBegin c = json.Goto json.st1.
Proof. destruct c as [[] [] [] [] [] [] [] []]; vm_compute; intros; congruence. Qed.

Lemma number_ok_digits (c : ascii) (l : bytes) :
  forallb is_digit (c :: l) = true -> (c = "0"%char -> l = []) ->
  number_ok (c :: l) = true.
Proof.
  intros Hd Hz. simpl in Hd. apply andb_true_iff in Hd as [Hc Hl].
  unfold number_ok, json.scanNumber. cbn [json.scanNumberFrom].
  destruct (Ascii.eqb c "0") eqn:E.
  - apply Ascii.eqb_eq in E. rewrite (Hz E). subst c. reflexivity.
  - rewrite (digit_nonzero_start c Hc E), (scan_digits l Hl). simpl.
    apply bytes_eqb_refl.
Qed.

Lemma number_ok_FormatInt (n : Z) : 0 <= n -> number_ok (strconv.FormatInt n) = true.
Proof.
  intros Hn. rewrite FormatInt_nonneg by exact Hn.
  destruct (FormatUint_spec n Hn) as (c & l & -> & Hd & _ & Hz).
  apply number_ok_digits; [exact Hd | intros E; apply (Hz E)].
Qed.

Lemma all_digits_Itoa (n : Z) : 0 <= n -> all_digits (strconv.Itoa n) = true.
Proof.
  intros Hn. unfold all_digits. rewrite Itoa_bytes, FormatInt_nonneg by exact Hn.
  destruct (FormatUint_spec n Hn) as (c & l & -> & Hd & _). exact Hd.
Qed.

(** ** Decoding the usage object *)

Lemma value_int_number (d : json.decodeState) (n cur : Z) :
  0 <= n <= strconv.maxInt -> json.value_int d (number n) cur = (d, n).
Proof.
  intros Hn. unfold number, json.value_int.
  rewrite Itoa_bytes, ParseInt_FormatInt by exact Hn. reflexivity.
Qed.

Lemma decode_Usage_numbers (d : json.decodeState) (u : UsageT) (P T C : Z) :
  0 <= P <= strconv.maxInt -> 0 <= T <= strconv.maxInt -> 0 <= C <= strconv.maxInt ->
  decode_Usage d (snd (usage_member P T C)) u
  = (d, {| PromptTokens := P; TotalTokens := T; CompletionTokens := C |}).
Proof.
  intros HP HT HC. unfold decode_Usage, usage_member, json.value_struct. cbn [snd].
  cbn [json.object_loop].
  change (json.unquoteBytes (key "prompt_tokens")) with (Some (key "prompt_tokens")).
  change (json.unquoteBytes (key "total_tokens")) with (Some (key "total_tokens")).
  change (json.unquoteBytes (key "completion_tokens")) with (Some (key "completion_tokens")).
  cbv beta iota.
  change (json.lookupField Usage_fields (key "prompt_tokens")) with (Some 0%nat).
  change (json.lookupField Usage_fields (key "total_tokens")) with (Some 1%nat).
  change (json.lookupField Usage_fields (key "completion_tokens")) with (Some 2%nat).
  cbn [Usage_field].
  rewrite (value_int_number d P) by exact HP. cbn [TotalTokens CompletionTokens PromptTokens].
  rewrite (value_int_number d T) by exact HT. cbn [TotalTokens CompletionTokens PromptTokens].
  rewrite (value_int_number d C) by exact HC. reflexivity.
Qed.

Lemma unrelated_facts (m : bytes * json.value) :
  unrelated m = true ->
  string_ok (fst m) = true
  /\ (exists k, json.unquoteBytes (fst m) = Some k
                /\ json.lookupField openAIResp_fields k = None)
  /\ literals_ok (snd m) = true
  /\ depth_of (snd m) < json.maxNestingDepth.
Proof.
  unfold unrelated. rewrite !andb_true_iff. intros [[[Hk Hu] Hl] Hd].
  apply Z.ltb_lt in Hd. repeat split; try assumption.
  destruct (json.unquoteBytes (fst m)) as [k |]; [| discriminate].
  exists k. split; [reflexivity |].
  destruct (json.lookupField openAIResp_fields k); [discriminate | reflexivity].
Qed.

(** Members that select no field leave the target and the saved error as
    they are. *)
Lemma object_loop_unrelated (ms rest : list (bytes * json.value)) :
  forall d cur, forallb unrelated ms = true ->
    json.object_loop openAIResp_fields openAIResp_field d (ms ++ rest) cur
    = json.object_loop openAIResp_fields openAIResp_field d rest cur.
Proof.
  induction ms as [| [k v] ms IH]; intros d cur H; [reflexivity |].
  simpl in H. apply andb_true_iff in H as [Hm Hms].
  destruct (unrelated_facts _ Hm) as (_ & (k' & Hk & Hl) & _). simpl in Hk.
  simpl. rewrite Hk, Hl. apply IH. exact Hms.
Qed.

Lemma unrelated_literals (ms : list (bytes * json.value)) :
  forallb unrelated ms = true ->
  forallb (fun m => string_ok (fst m) && literals_ok (snd m)) ms = true.
Proof.
  induction ms as [| m ms IH]; intros H; [reflexivity |].
  simpl in *. apply andb_true_iff in H as [Hm Hms].
  destruct (unrelated_facts _ Hm) as (Hk & _ & Hl & _).
  rewrite Hk, Hl, (IH Hms). reflexivity.
Qed.

Lemma unrelated_depth (ms : list (bytes * json.value)) :
  forallb unrelated ms = true -> depth_members ms < json.maxNestingDepth.
Proof.
  induction ms as [| m ms IH]; intros H; [reflexivity |].
  simpl in H. apply andb_true_iff in H as [Hm Hms].
  destruct (unrelated_facts _ Hm) as (_ & _ & _ & Hd).
  specialize (IH Hms). unfold depth_members in *. simpl. lia.
Qed.

Lemma depth_members_app (a b : list (bytes * json.value)) :
  depth_members (a ++ b) = Z.max (depth_members a) (depth_members b).
Proof.
  pose proof (depth_members_nonneg b).
  induction a as [| m a IH]; unfold depth_members in *; simpl; [lia |].
  rewrite IH. lia.
Qed.

Lemma forallb_literals_app (a b : list (bytes * json.value)) :
  forallb (fun m => string_ok (fst m) && literals_ok (snd m)) (a ++ b)
  = forallb (fun m => string_ok (fst m) && literals_ok (snd m)) a
    && forallb (fun m => string_ok (fst m) && literals_ok (snd m)) b.
Proof. apply forallb_app. Qed.

Lemma usage_member_literals (P T C : Z) :
  0 <= P -> 0 <= T -> 0 <= C ->
  string_ok (fst (usage_member P T C)) && literals_ok (snd (usage_member P T C)) = true.
Proof.
  intros HP HT HC. unfold usage_member. cbn [fst snd literals_ok forallb number].
  change (string_ok (key "usage")) with true.
  change (string_ok (key "prompt_tokens")) with true.
  change (string_ok (key "total_tokens")) with true.
  change (string_ok (key "completion_tokens")) with true.
  rewrite !Itoa_bytes, !number_ok_FormatInt by assumption. reflexivity.
Qed.

Theorem Unmarshal_usage_document (before after : list (bytes * json.value)) (P T C : Z) :
  0 <= P <= strconv.maxInt -> 0 <= T <= strconv.maxInt -> 0 <= C <= strconv.maxInt ->
  forallb unrelated before = true -> forallb unrelated after = true ->
  Unmarshal (render (usage_document before after P T C)) zero_openAIResp
  = ({| Usage := {| PromptTokens := P; TotalTokens := T; CompletionTokens := C |} |}, None).
Proof.
  intros HP HT HC Hb Ha. unfold Unmarshal.
  rewrite checkValid_render.
  - unfold usage_document, decode_openAIResp, json.value_struct.
    rewrite object_loop_unrelated by exact Hb.
    cbn [json.object_loop usage_member].
    change (json.unquoteBytes (key "usage")) with (Some (key "usage")).
    cbv beta iota.
    change (json.lookupField openAIResp_fields (key "usage")) with (Some 0%nat).
    cbn [openAIResp_field].
    pose proof (decode_Usage_numbers {| json.savedError := None |}
                  (Usage zero_openAIResp) P T C HP HT HC) as E.
    unfold usage_member in E. cbn [snd] in E. rewrite E. cbv beta iota.
    rewrite <- (app_nil_r after).
    rewrite (object_loop_unrelated after []) by exact Ha. reflexivity.
  - unfold usage_document. cbn [literals_ok].
    rewrite forallb_literals_app. cbn [forallb].
    rewrite (unrelated_literals _ Hb), (unrelated_literals _ Ha).
    rewrite usage_member_literals by lia. reflexivity.
  - unfold usage_document.
    change (depth_of (json.VObject (before ++ usage_member P T C :: after)))
      with (1 + depth_members (before ++ usage_member P T C :: after)).
    rewrite depth_members_app.
    pose proof (unrelated_depth _ Hb). pose proof (unrelated_depth _ Ha).
    change (depth_members (usage_member P T C :: after))
      with (Z.max 1 (depth_members after)).
    unfold json.maxNestingDepth in *. lia.
Qed.

(** ** Runs of [Process] *)

Lemma sent_app (a b : list event) : sent (a ++ b) = sent a ++ sent b.
Proof.
  induction a as [| e a IH]; [reflexivity |].
  destruct e; simpl; rewrite IH; reflexivity.
Qed.

Lemma received_app (a b : list event) : received (a ++ b) = received a ++ received b.
Proof.
  induction a as [| e a IH]; [reflexivity |].
  destruct e as [[req | err] | | |]; simpl; rewrite IH; reflexivity.
Qed.

Lemma unmarshal_calls_app (a b : list event) :
  unmarshal_calls (a ++ b) = unmarshal_calls a ++ unmarshal_calls b.
Proof.
  induction a as [| e a IH]; [reflexivity |].
  destruct e; simpl; rewrite IH; reflexivity.
Qed.

(** The switch only logs and, for a complete response body, parses. *)
Lemma Process_switch_events (req : ProcessingRequest) :
  sent (fst (Process_switch req)) = []
  /\ received (fst (Process_switch req)) = []
  /\ unmarshal_calls (fst (Process_switch req)) = eos_body req.
Proof.
  unfold Process_switch, eos_body.
  destruct (Request req) as [[h | h | b | rb | t | t] |]; try (repeat split; reflexivity).
  destruct (EndOfStream rb); simpl; [| repeat split; reflexivity].
  destruct (Unmarshal (Body rb) zero_openAIResp) as [u [e |]]; repeat split; reflexivity.
Qed.

Lemma Process_switch_pair (req : ProcessingRequest) :
  Process_switch req = (fst (Process_switch req), decision req).
Proof. unfold decision. destruct (Process_switch req); reflexivity. Qed.

(** One round of the loop. *)
Lemma Process_loop_cons (req : ProcessingRequest) (rest : list (ProcessingRequest + error))
    (send : nat -> option error) (n : nat) :
  Process_loop (inl req :: rest) send n =
  ([ EvRecv (inl req);
     EvLog (Printf "[Process] Received request: %+v" [ArgRequest req]) ]
   ++ fst (Process_switch req)
   ++ [ EvSend (decision req) (send n); send_log send n (decision req) ]
   ++ fst (Process_loop rest send (S n)),
   snd (Process_loop rest send (S n))).
Proof.
  cbn [Process_loop]. rewrite (Process_switch_pair req).
  destruct (Process_loop rest send (S n)) as [tr out]. reflexivity.
Qed.

(** What a run sends, receives, parses and returns. *)
Lemma Process_loop_run (script : list (ProcessingRequest + error)) :
  forall send n,
    sent (fst (Process_loop script send n)) = map decision (delivered script)
    /\ received (fst (Process_loop script send n)) = delivered script
    /\ unmarshal_calls (fst (Process_loop script send n))
       = flat_map eos_body (delivered script)
    /\ snd (Process_loop script send n) = outcome_of (first_failure script).
Proof.
  induction script as [| [req | err] script IH]; intros send n.
  - repeat split; reflexivity.
  - rewrite Process_loop_cons. cbn [fst snd delivered first_failure map flat_map].
    destruct (IH send (S n)) as (Hs & Hr & Hu & Ho).
    destruct (Process_switch_events req) as (Es & Er & Eu).
    change (?a :: ?b :: ?c ++ ?d) with ([a; b] ++ c ++ d).
    rewrite !sent_app, !received_app, !unmarshal_calls_app, Es, Er, Eu, Hs, Hr, Hu, Ho.
    unfold send_log. destruct (send n); repeat split; reflexivity.
  - cbn [Process_loop delivered first_failure outcome_of].
    destruct (is_EOF err); repeat split; reflexivity.
Qed.

Lemma Process_run (srv : ProcessServer) :
  sent (fst (Process srv)) = map decision (delivered (recv_script srv))
  /\ received (fst (Process srv)) = delivered (recv_script srv)
  /\ unmarshal_calls (fst (Process srv)) = flat_map eos_body (delivered (recv_script srv))
  /\ snd (Process srv) = outcome_of (first_failure (recv_script srv)).
Proof.
  unfold Process.
  destruct (Process_loop_run (recv_script srv) (send_result srv) 0) as (Hs & Hr & Hu & Ho).
  destruct (Process_loop (recv_script srv) (send_result srv) 0) as [tr out].
  simpl in *. repeat split; assumption.
Qed.

Lemma delivered_map_inl (reqs : list ProcessingRequest) (rest : list (ProcessingRequest + error)) :
  delivered (map inl reqs ++ rest) = reqs ++ delivered rest.
Proof. induction reqs as [| r reqs IH]; simpl; [reflexivity | rewrite IH; reflexivity]. Qed.

Lemma delivered_only (reqs : list ProcessingRequest) : delivered (map inl reqs) = reqs.
Proof.
  rewrite <- (app_nil_r (map inl reqs)), delivered_map_inl. apply app_nil_r.
Qed.

(** The decision for a complete response body, from the result of
    [json.Unmarshal]. *)
Lemma decision_complete_body (body : bytes) :
  decision (ResponseBodyCb body true) =
  match Unmarshal body zero_openAIResp with
  | (_, Some _) => emptyBodyResponse
  | (r, None) =>
      {| Response :=
           Some (ProcessingResponse_ResponseBody
                   {| BodyResponse_Response :=
                        Some {| HeaderMutation_ :=
                                  Some {| SetHeaders :=
                                            usage_headers
                                              (strconv.Itoa (PromptTokens (Usage r)))
                                              (strconv.Itoa (TotalTokens (Usage r)))
                                              (strconv.Itoa (CompletionTokens (Usage r)));
                                          RemoveHeaders := [] |} |} |});
         ModeOverride := None |}
  end.
Proof.
  unfold decision, Process_switch, ResponseBodyCb. cbn [Request EndOfStream Body negb].
  destruct (Unmarshal body zero_openAIResp) as [r [e |]]; reflexivity.
Qed.

Lemma decision_partial_body (body : bytes) :
  decision (ResponseBodyCb body false) = emptyBodyResponse.
Proof. reflexivity. Qed.

Lemma Unmarshal_invalid (body : bytes) (v : openAIRespT) :
  json.checkValid body = json.Invalid -> Unmarshal body v = (v, Some json.SyntaxError).
Proof. intros H. unfold Unmarshal. rewrite H. reflexivity. Qed.

Lemma Unmarshal_no_usage (ms : list (bytes * json.value)) :
  forallb unrelated ms = true ->
  Unmarshal (render (json.VObject ms)) zero_openAIResp = (zero_openAIResp, None).
Proof.
  intros H. unfold Unmarshal. rewrite checkValid_render.
  - unfold decode_openAIResp, json.value_struct.
    rewrite <- (app_nil_r ms), object_loop_unrelated by exact H. reflexivity.
  - cbn [literals_ok]. apply unrelated_literals. exact H.
  - change (depth_of (json.VObject ms)) with (1 + depth_members ms).
    pose proof (unrelated_depth ms H). lia.
Qed.

(** ** Keys of scanned objects are always unquoted

    [object] panics when [unquoteBytes] rejects a key.  That never happens:
    the scanner has accepted the key, and [unquoteBytes] accepts whatever the
    scanner accepts. *)

Lemma app_opt_Some (pre : bytes) (r : option bytes) :
  r <> None -> json.app_opt pre r <> None.
Proof. destruct r; simpl; congruence. Qed.

Lemma scanString_body (n : nat) :
  forall s raw t, (List.length s <= n)%nat ->
    json.scanString s = Some (raw, t) -> string_body raw = true.
Proof.
  induction n as [| n IH]; intros s raw t Hlen H.
  - destruct s; [discriminate | simpl in Hlen; lia].
  - destruct s as [| c s1]; [discriminate |].
    simpl in Hlen. simpl in H.
    destruct (Ascii.eqb c dquote) eqn:Eq.
    { injection H as <- <-. reflexivity. }
    destruct (Ascii.eqb c bslash) eqn:Eb.
    + destruct s1 as [| e s2]; [discriminate |]. simpl in Hlen.
      destruct (json.isSimpleEscape e) eqn:Es.
      * apply cons_lit_Some in H as (l' & H & ->).
        apply IH in H; [| lia]. simpl. rewrite Eq, Eb, Es. exact H.
      * destruct (Ascii.eqb e "u") eqn:Eu; [| discriminate].
        destruct s2 as [| h1 [| h2 [| h3 [| h4 s6]]]]; try discriminate.
        simpl in Hlen.
        destruct (json.isHex h1 && json.isHex h2 && json.isHex h3 && json.isHex h4) eqn:Eh;
          [| discriminate].
        apply cons_lit_Some in H as (l' & H & ->).
        apply IH in H; [| lia]. simpl. rewrite Eq, Eb, Es, Eu, Eh. exact H.
    + destruct (b2z c <? 32) eqn:Ec; [discriminate |].
      apply cons_lit_Some in H as (l' & H & ->).
      apply IH in H; [| lia]. simpl. rewrite Eq, Eb, Ec. exact H.
Qed.

Lemma scanKey_body (s k r : bytes) : json.scanKey s = Some (k, r) -> string_body k = true.
Proof.
  unfold json.scanKey. intros H. break_in H. injection H as <- <-.
  match goal with
  | E : json.scanString ?x = Some _ |- _ => apply (scanString_body (List.length x)) in E
  end; [assumption | lia].
Qed.

Lemma hex_digit_nonneg (c : ascii) : json.isHex c = true -> 0 <= json.hex_digit c.
Proof.
  unfold json.isHex, json.hex_digit. intros H.
  destruct (is_digit c) eqn:Ed; [apply is_digit_range in Ed; lia |].
  destruct ((97 <=? b2z c) && (b2z c <=? 102)) eqn:Ea.
  { apply andb_true_iff in Ea as [Ea _]. apply Z.leb_le in Ea. lia. }
  destruct ((65 <=? b2z c) && (b2z c <=? 70)) eqn:EA; [| discriminate].
  apply andb_true_iff in EA as [EA _]. apply Z.leb_le in EA. lia.
Qed.

Lemma hex_digit_isHex (c : ascii) : 0 <= json.hex_digit c -> json.isHex c = true.
Proof.
  unfold json.isHex, json.hex_digit.
  destruct (is_digit c); [reflexivity |].
  destruct ((97 <=? b2z c) && (b2z c <=? 102)); [reflexivity |].
  destruct ((65 <=? b2z c) && (b2z c <=? 70)); [reflexivity | lia].
Qed.

Lemma getu4_escape (h1 h2 h3 h4 : ascii) (rest : bytes) :
  json.isHex h1 && json.isHex h2 && json.isHex h3 && json.isHex h4 = true ->
  0 <= json.getu4 (bslash :: "u"%char :: h1 :: h2 :: h3 :: h4 :: rest).
Proof.
  rewrite !andb_true_iff. intros [[[H1 H2] H3] H4].
  apply hex_digit_nonneg in H1, H2, H3, H4.
  unfold json.getu4. change (Ascii.eqb bslash bslash && Ascii.eqb "u" "u") with true.
  cbv iota. cbn [fold_left].
  repeat match goal with
    | |- context [(?a <? 0) || (?b <? 0)] =>
        let E := fresh in
        assert ((a <? 0) || (b <? 0) = false) as E
          by (apply orb_false_iff; split; apply Z.ltb_ge; lia);
        rewrite E; clear E
    end.
  lia.
Qed.

(** A rune read by [getu4] comes from an escape that the scanner
    accepts. *)
Lemma getu4_nonneg (s : bytes) :
  0 <= json.getu4 s ->
  exists h1 h2 h3 h4 rest,
    s = bslash :: "u"%char :: h1 :: h2 :: h3 :: h4 :: rest
    /\ json.isHex h1 && json.isHex h2 && json.isHex h3 && json.isHex h4 = true.
Proof.
  unfold json.getu4.
  destruct s as [| c0 [| c1 [| h1 [| h2 [| h3 [| h4 rest]]]]]]; try lia.
  destruct (Ascii.eqb c0 bslash) eqn:E0; [| simpl; lia].
  destruct (Ascii.eqb c1 "u") eqn:E1; [| simpl; lia].
  apply Ascii.eqb_eq in E0, E1. subst c0 c1. cbn [andb fold_left].
  intros H. exists h1, h2, h3, h4, rest. split; [reflexivity |].
  destruct (Z.ltb_spec (json.hex_digit h1) 0) as [B1 | B1];
    [rewrite orb_true_r in H; simpl in H; lia |].
  rewrite orb_false_r in H. change (0 <? 0) with false in H. cbv iota in H.
  destruct (Z.ltb_spec (json.hex_digit h2) 0) as [B2 | B2];
    [rewrite orb_true_r in H; simpl in H; lia |].
  rewrite orb_false_r in H.
  destruct (Z.ltb_spec (0 * 16 + json.hex_digit h1) 0) as [C1 | C1]; [lia |].
  destruct (Z.ltb_spec (json.hex_digit h3) 0) as [B3 | B3];
    [rewrite orb_true_r in H; simpl in H; lia |].
  rewrite orb_false_r in H.
  destruct (Z.ltb_spec ((0 * 16 + json.hex_digit h1) * 16 + json.hex_digit h2) 0)
    as [C2 | C2]; [lia |].
  destruct (Z.ltb_spec (json.hex_digit h4) 0) as [B4 | B4];
    [rewrite orb_true_r in H; simpl in H; lia |].
  rewrite !hex_digit_isHex by assumption. reflexivity.
Qed.

Lemma first_facts (p0 : Z) (sz : nat) (lo hi : Z) :
  utf8.first p0 = Some (sz, lo, hi) -> (2 <= sz <= 4)%nat /\ 128 <= lo.
Proof.
  unfold utf8.first. intros H. break_in H; injection H as <- <- <-; split; lia.
Qed.

(** A multi-byte sequence that [DecodeRune] accepts is made of bytes from
    128 up; in every case the size returned is at least one and at most the
    length of the input. *)
Lemma DecodeRune_high (c : ascii) (t : bytes) (r : Z) (k : nat) :
  utf8.DecodeRune (c :: t) = (r, k) ->
  (1 <= k <= List.length (c :: t))%nat
  /\ (128 <= b2z c -> forall i, (i < k)%nat -> 128 <= utf8.at_ (c :: t) i).
Proof.
  unfold utf8.DecodeRune.
  assert (forall i, (i < 1)%nat -> 128 <= b2z c -> 128 <= utf8.at_ (c :: t) i) as H1.
  { intros i Hi Hc. assert (i = 0%nat) as -> by lia. exact Hc. }
  destruct (b2z c <? utf8.RuneSelf); [intros H; injection H as <- <-; simpl; split; [lia | auto] |].
  destruct (utf8.first (b2z c)) as [[[sz lo] hi] |] eqn:Ef;
    [| intros H; injection H as <- <-; simpl; split; [lia | auto]].
  apply first_facts in Ef as [Hsz Hlo].
  destruct (Nat.ltb_spec (List.length (c :: t)) sz) as [Hlen | Hlen];
    [intros H; injection H as <- <-; simpl; split; [lia | auto] |].
  destruct (Z.ltb_spec (utf8.at_ (c :: t) 1) lo) as [Hb1 | Hb1]; cbn [orb];
    [intros H; injection H as <- <-; simpl; split; [lia | auto] |].
  destruct (hi <? utf8.at_ (c :: t) 1);
    [intros H; injection H as <- <-; simpl; split; [lia | auto] |].
  destruct (Nat.leb_spec sz 2) as [H2 | H2].
  { intros H. injection H as <- <-. split; [lia |].
    intros Hc i Hi. destruct i as [| [| i]]; [exact Hc | lia | lia]. }
  destruct (Z.ltb_spec (utf8.at_ (c :: t) 2) 128) as [Hb2 | Hb2]; cbn [orb];
    [intros H; injection H as <- <-; simpl; split; [lia | auto] |].
  destruct (191 <? utf8.at_ (c :: t) 2);
    [intros H; injection H as <- <-; simpl; split; [lia | auto] |].
  destruct (Nat.leb_spec sz 3) as [H3 | H3].
  { intros H. injection H as <- <-. split; [lia |].
    intros Hc i Hi. destruct i as [| [| [| i]]]; [exact Hc | lia | lia | lia]. }
  destruct (Z.ltb_spec (utf8.at_ (c :: t) 3) 128) as [Hb3 | Hb3]; cbn [orb];
    [intros H; injection H as <- <-; simpl; split; [lia | auto] |].
  destruct (191 <? utf8.at_ (c :: t) 3);
    [intros H; injection H as <- <-; simpl; split; [lia | auto] |].
  intros H. injection H as <- <-. split; [lia |].
  intros Hc i Hi. destruct i as [| [| [| [| i]]]]; [exact Hc | lia | lia | lia | lia].
Qed.

Lemma high_byte_plain (c : ascii) :
  128 <= b2z c ->
  Ascii.eqb c dquote = false /\ Ascii.eqb c bslash = false /\ (b2z c <? 32) = false.
Proof.
  intros H. repeat split.
  - destruct (Ascii.eqb c dquote) eqn:E; [| reflexivity].
    apply Ascii.eqb_eq in E. subst c. vm_compute in H. congruence.
  - destruct (Ascii.eqb c bslash) eqn:E; [| reflexivity].
    apply Ascii.eqb_eq in E. subst c. vm_compute in H. congruence.
  - apply Z.ltb_ge. lia.
Qed.

Lemma string_body_skip_high (k : nat) :
  forall raw, string_body raw = true -> (k <= List.length raw)%nat ->
    (forall i, (i < k)%nat -> 128 <= utf8.at_ raw i) ->
    string_body (skipn k raw) = true.
Proof.
  induction k as [| k IH]; intros raw Hb Hlen Hhigh; [exact Hb |].
  destruct raw as [| c raw]; [simpl in Hlen; lia |].
  simpl in Hlen. cbn [skipn]. apply IH; [| lia |].
  - destruct (high_byte_plain c (Hhigh 0%nat ltac:(lia))) as (E1 & E2 & E3).
    simpl in Hb. rewrite E1, E2, E3 in Hb. exact Hb.
  - intros i Hi. apply (Hhigh (S i)). lia.
Qed.

Lemma simple_escape_cases (e : ascii) :
  json.isSimpleEscape e = true ->
  e = "b"%char \/ e = "f"%char \/ e = "n"%char \/ e = "r"%char \/ e = "t"%char
  \/ e = bslash \/ e = "/"%char \/ e = dquote.
Proof.
  unfold json.isSimpleEscape. rewrite !orb_true_iff, !Ascii.eqb_eq. tauto.
Qed.

(** [unquoteBytes] accepts the inside of every string literal that the
    scanner accepts, and its fuel is enough. *)
Lemma unquote_loop_total (n : nat) :
  forall raw fuel, (List.length raw <= n)%nat -> (List.length raw <= fuel)%nat ->
    string_body raw = true -> json.unquote_loop fuel raw <> None.
Proof.
  induction n as [| n IH]; intros raw fuel Hn Hf Hb.
  - destruct raw; [destruct fuel; discriminate | simpl in Hn; lia].
  - destruct raw as [| c raw1]; [destruct fuel; discriminate |].
    destruct fuel as [| f]; [simpl in Hf; lia |].
    simpl in Hn, Hf. cbn [string_body] in Hb. cbn [json.unquote_loop].
    destruct (Ascii.eqb c dquote) eqn:Eq; [discriminate |].
    destruct (Ascii.eqb c bslash) eqn:Eb.
    + apply Ascii.eqb_eq in Eb. subst c.
      destruct raw1 as [| e raw2]; [discriminate |]. simpl in Hn, Hf.
      assert (json.unquote_loop f raw2 <> None -> forall pre,
                json.app_opt pre (json.unquote_loop f raw2) <> None) as Hnext
        by (intros H pre; apply app_opt_Some; exact H).
      destruct (json.isSimpleEscape e) eqn:Es.
      * assert (json.unquote_loop f raw2 <> None) as Hrec by (apply IH; [lia | lia | exact Hb]).
        destruct (simple_escape_cases e Es) as [-> | [-> | [-> | [-> | [-> | [-> | [-> | ->]]]]]]];
          apply (Hnext Hrec).
      * destruct (Ascii.eqb e "u") eqn:Eu; [| discriminate].
        apply Ascii.eqb_eq in Eu. subst e.
        destruct raw2 as [| h1 [| h2 [| h3 [| h4 raw6]]]]; try discriminate.
        simpl in Hn, Hf.
        apply andb_true_iff in Hb as [Hhex Hb6].
        pose proof (getu4_escape h1 h2 h3 h4 raw6 Hhex) as Hrr.
        change (Ascii.eqb "u" dquote || Ascii.eqb "u" bslash || Ascii.eqb "u" "/"
                || Ascii.eqb "u" "'") with false.
        change (Ascii.eqb "u" "b") with false. change (Ascii.eqb "u" "f") with false.
        change (Ascii.eqb "u" "n") with false. change (Ascii.eqb "u" "r") with false.
        change (Ascii.eqb "u" "t") with false. change (Ascii.eqb "u" "u") with true.
        cbv iota zeta.
        destruct (Z.ltb_spec (json.getu4 (bslash :: "u"%char :: h1 :: h2 :: h3 :: h4 :: raw6)) 0)
          as [Hneg | _]; [lia |].
        change (skipn 6 (bslash :: "u"%char :: h1 :: h2 :: h3 :: h4 :: raw6)) with raw6.
        assert (json.unquote_loop f raw6 <> None) as Hrec6
          by (apply IH; [lia | lia | exact Hb6]).
        destruct (utf16.IsSurrogate _); [| apply app_opt_Some; exact Hrec6].
        destruct (utf16.DecodeRune _ (json.getu4 raw6) =? utf8.RuneError) eqn:Edec; cbn [negb];
          [apply app_opt_Some; exact Hrec6 |].
        apply app_opt_Some.
        assert (0 <= json.getu4 raw6) as Hrr1.
        { unfold utf16.DecodeRune in Edec.
          destruct (Z.leb_spec 56320 (json.getu4 raw6)) as [Hlow | Hlow]; [lia |].
          rewrite andb_false_r in Edec. simpl in Edec.
          try rewrite Z.eqb_refl in Edec. discriminate. }
        destruct (getu4_nonneg raw6 Hrr1) as (g1 & g2 & g3 & g4 & raw12 & -> & Hhex').
        cbn [skipn]. simpl in Hn, Hf. apply IH; [lia | lia |].
        simpl in Hb6. rewrite Hhex' in Hb6. exact Hb6.
    + destruct (b2z c <? 32) eqn:Ec; [discriminate |]. cbn [orb].
      destruct (Z.ltb_spec (b2z c) utf8.RuneSelf) as [Hascii | Hhigh].
      * apply app_opt_Some. apply IH; [lia | lia | exact Hb].
      * destruct (utf8.DecodeRune (c :: raw1)) as [rr size] eqn:Ed.
        destruct (DecodeRune_high c raw1 rr size Ed) as [Hsize Hbytes].
        apply app_opt_Some.
        assert (string_body (c :: raw1) = true) as Hall
          by (cbn [string_body]; rewrite Eq, Eb, Ec; exact Hb).
        pose proof (length_skipn size (c :: raw1)) as Hlen.
        cbn [List.length] in Hsize, Hlen.
        apply IH; [lia | lia |].
        apply string_body_skip_high; [exact Hall | cbn [List.length]; lia |].
        apply Hbytes. unfold utf8.RuneSelf in Hhigh. lia.
Qed.

Lemma unquoteBytes_total (raw : bytes) :
  string_body raw = true -> json.unquoteBytes raw <> None.
Proof. intros H. apply (unquote_loop_total (List.length raw)); [lia | lia | exact H]. Qed.

(** The keys of every object that the scanner returns are insides of
    string literals. *)
Lemma scan_keys (fuel : nat) :
  (forall d s v r, json.scanValue fuel d s = json.Scanned (v, r) -> keys_ok v = true)
  /\ (forall d s vs r, json.scanArrayRest fuel d s = json.Scanned (vs, r) ->
        forallb keys_ok vs = true)
  /\ (forall d s ms r, json.scanObjectRest fuel d s = json.Scanned (ms, r) ->
        forallb (fun m => string_body (fst m) && keys_ok (snd m)) ms = true).
Proof.
  induction fuel as [| f (IHv & IHa & IHo)]; [repeat split; discriminate |].
  split; [| split]; intros d s x r H;
    cbn [json.scanValue json.scanArrayRest json.scanObjectRest] in H; unfold json.bind in H;
    break_in H;
    try (unfold json.scanLiteral in H; break_in H);
    injection H as <- <-;
    repeat match goal with
      | H : json.scanValue f _ _ = json.Scanned _ |- _ => apply IHv in H
      | H : json.scanArrayRest f _ _ = json.Scanned _ |- _ => apply IHa in H
      | H : json.scanObjectRest f _ _ = json.Scanned _ |- _ => apply IHo in H
      | H : json.scanKey _ = Some _ |- _ => apply scanKey_body in H
      end;
    cbn [keys_ok forallb fst snd];
    repeat match goal with
      | H : _ = true |- _ => rewrite H
      end;
    reflexivity.
Qed.

Lemma checkValid_keys (data : bytes) (v : json.value) :
  json.checkValid data = json.Scanned v -> keys_ok v = true.
Proof.
  unfold json.checkValid. intros H.
  destruct (json.scanValue (S (List.length data)) 0 data) as [[v' r] | |] eqn:E;
    try discriminate.
  destruct (json.skipSpace r); [| discriminate]. injection H as <-.
  destruct (scan_keys (S (List.length data))) as (Hv & _). apply (Hv _ _ _ _ E).
Qed.







(** The fuel of [foldName] is enough: more fuel changes nothing. *)
Lemma foldName_loop_fuel (f1 : nat) :
  forall f2 s, (List.length s <= f1)%nat -> (List.length s <= f2)%nat ->
    json.foldName_loop f1 s = json.foldName_loop f2 s.
Proof.
  induction f1 as [| f1 IH]; intros f2 s H1 H2.
  - destruct s; [destruct f2; reflexivity | simpl in H1; lia].
  - destruct s as [| c s1]; [destruct f2; reflexivity |].
    destruct f2 as [| f2]; [simpl in H2; lia |].
    simpl in H1, H2. cbn [json.foldName_loop].
    destruct (b2z c <? utf8.RuneSelf); [f_equal; apply IH; lia |].
    destruct (utf8.DecodeRune (c :: s1)) as [r n] eqn:Ed.
    destruct (DecodeRune_high c s1 r n Ed) as [Hn _].
    pose proof (length_skipn n (c :: s1)) as Hlen. cbn [List.length] in Hn, Hlen.
    f_equal. apply IH; lia.
Qed.

(** ** More on runs: the calls on the stream, the override, the log *)

Lemma calls_app (a b : list event) : calls (a ++ b) = calls a ++ calls b.
Proof. apply filter_app. Qed.

Lemma Process_switch_calls (req : ProcessingRequest) : calls (fst (Process_switch req)) = [].
Proof.
  unfold Process_switch.
  destruct (Request req) as [[h | h | b | rb | t | t] |]; try reflexivity.
  destruct (EndOfStream rb); simpl; [| reflexivity].
  destruct (Unmarshal (Body rb) zero_openAIResp) as [u [e |]]; reflexivity.
Qed.

Lemma Process_loop_calls (script : list (ProcessingRequest + error)) :
  forall send n,
    calls (fst (Process_loop script send n))
    = exchange send n (delivered script) ++ last_read (first_failure script).
Proof.
  induction script as [| [req | err] script IH]; intros send n.
  - reflexivity.
  - rewrite Process_loop_cons. cbn [fst delivered first_failure exchange].
    change (?a :: ?b :: ?c ++ ?d) with ([a; b] ++ c ++ d).
    rewrite !calls_app, Process_switch_calls, IH.
    unfold send_log. destruct (send n); reflexivity.
  - cbn [Process_loop delivered first_failure exchange last_read].
    destruct (is_EOF err); reflexivity.
Qed.

Lemma Process_calls (srv : ProcessServer) :
  calls (fst (Process srv))
  = exchange (send_result srv) 0 (delivered (recv_script srv))
    ++ last_read (first_failure (recv_script srv)).
Proof.
  unfold Process.
  pose proof (Process_loop_calls (recv_script srv) (send_result srv) 0) as H.
  destruct (Process_loop (recv_script srv) (send_result srv) 0) as [tr out].
  exact H.
Qed.

Lemma has_override_decision (req : ProcessingRequest) :
  ModeOverride (decision req)
  = if is_ResponseHeaders req then Some buffered_override else None.
Proof.
  unfold decision, Process_switch, is_ResponseHeaders.
  destruct (Request req) as [[h | h | b | rb | t | t] |]; try reflexivity.
  destruct (EndOfStream rb); simpl; [| reflexivity].
  destruct (Unmarshal (Body rb) zero_openAIResp) as [u [e |]]; reflexivity.
Qed.

Lemma filter_override_decisions (reqs : list ProcessingRequest) :
  List.length (filter has_override (map decision reqs))
  = List.length (filter is_ResponseHeaders reqs).
Proof.
  induction reqs as [| req reqs IH]; [reflexivity |].
  cbn [map filter]. unfold has_override at 1. rewrite has_override_decision.
  destruct (is_ResponseHeaders req); simpl; rewrite IH; reflexivity.
Qed.

(** Callbacks in protocol order hold one response-headers callback between
    a phase before [Buffering] and a phase from [Buffering] on. *)
Lemma spec_run_response_headers (reqs : list ProcessingRequest) :
  forall ph ph', spec_run ph reqs = Some ph' ->
    (List.length (filter is_ResponseHeaders reqs) + past_headers ph)%nat = past_headers ph'.
Proof.
  induction reqs as [| req reqs IH]; intros ph ph' H; simpl in H.
  - injection H as <-. reflexivity.
  - destruct (spec_next ph req) as [ph1 |] eqn:E; [| discriminate].
    apply IH in H. rewrite <- H. clear H IH.
    unfold spec_next in E. cbn [filter]. unfold is_ResponseHeaders at 1.
    destruct ph; destruct (Request req) as [[h | h | b | rb | t | t] |];
      try discriminate; injection E as <-;
      try (destruct (EndOfStream rb)); simpl; lia.
Qed.

Lemma Process_loop_send_logged (script : list (ProcessingRequest + error)) :
  forall send n k req e,
    nth_error (delivered script) k = Some req ->
    send (n + k)%nat = Some e ->
    In (EvLog (Printf "[Process] Error sending response: %v" [ArgError e]))
       (fst (Process_loop script send n)).
Proof.
  induction script as [| [r | err] script IH]; intros send n k req e Hk Hs.
  - destruct k; discriminate.
  - rewrite Process_loop_cons. cbn [fst].
    change (?a :: ?b :: ?c ++ ?d) with ([a; b] ++ c ++ d).
    apply in_or_app. right. apply in_or_app. right.
    destruct k as [| k].
    + rewrite Nat.add_0_r in Hs. unfold send_log. rewrite Hs. right. left. reflexivity.
    + simpl in Hk. right. right. apply (IH send (S n) k req e Hk).
      rewrite <- Hs. f_equal. lia.
  - destruct k; discriminate.
Qed.

Lemma is_EOF_iff (e : error) : is_EOF e = true <-> e = io_EOF.
Proof. destruct e; simpl; split; congruence. Qed.

(** ** The counts that decoding stores fit an [int] *)

Lemma ParseUint_loop_nonneg (s : bytes) :
  forall n m, 0 <= n -> strconv.ParseUint_loop s n = inl m -> 0 <= m.
Proof.
  induction s as [| c s IH]; intros n m Hn H; cbn [strconv.ParseUint_loop] in H.
  - injection H as <-. exact Hn.
  - cbv zeta in H. break_in H.
    apply IH in H; [exact H |]. apply Z.mod_pos_bound. reflexivity.
Qed.

Lemma ParseInt_range (s : bytes) (n : Z) : strconv.ParseInt s = inl n -> strconv.in_int n.
Proof.
  unfold strconv.ParseInt, strconv.in_int, strconv.minInt, strconv.maxInt.
  destruct s as [| c s']; [discriminate |].
  set (digits := if Ascii.eqb c "+" || Ascii.eqb c "-" then s' else c :: s').
  destruct (strconv.ParseUint digits) as [un | [|]] eqn:E; try discriminate.
  assert (0 <= un) as Hun.
  { unfold strconv.ParseUint in E. destruct digits; [discriminate |].
    apply ParseUint_loop_nonneg in E; [exact E | lia]. }
  unfold strconv.IntSize. change (2 ^ (64 - 1)) with (2 ^ 63).
  destruct (Ascii.eqb c "-"); cbn [negb andb].
  - destruct (Z.gtb_spec un (2 ^ 63)); [discriminate |]. intros Hn. injection Hn as <-. lia.
  - destruct (Z.geb_spec un (2 ^ 63)); [discriminate |]. intros Hn. injection Hn as <-. lia.
Qed.

Lemma value_int_range (d : json.decodeState) (v : json.value) (cur : Z) :
  strconv.in_int cur -> strconv.in_int (snd (json.value_int d v cur)).
Proof.
  intros Hcur. destruct v as [| | | lit | raw | vs | ms]; simpl; try exact Hcur.
  destruct (strconv.ParseInt lit) as [n | e] eqn:E; simpl; [| exact Hcur].
  apply (ParseInt_range lit n E).
Qed.

(** An invariant of the target that every field decoder keeps is kept by
    the loop over the members of an object. *)
Lemma object_loop_invariant {T : Type} (Inv : T -> Prop) (fields : list string)
    (field : json.decodeState -> nat -> json.value -> T -> json.decodeState * T) :
  (forall d i v cur, Inv cur -> Inv (snd (field d i v cur))) ->
  forall ms d cur, Inv cur -> Inv (snd (json.object_loop fields field d ms cur)).
Proof.
  intros Hfield. induction ms as [| [k v] ms IH]; intros d cur Hcur; simpl; [exact Hcur |].
  destruct (json.unquoteBytes k) as [key' |]; [| exact Hcur].
  destruct (json.lookupField fields key') as [i |].
  - specialize (Hfield d i v cur Hcur). destruct (field d i v cur) as [d' cur'].
    apply IH. exact Hfield.
  - apply IH. exact Hcur.
Qed.

Lemma value_struct_invariant {T : Type} (Inv : T -> Prop)
    (members : json.decodeState -> list (bytes * json.value) -> T -> json.decodeState * T) :
  (forall d ms cur, Inv cur -> Inv (snd (members d ms cur))) ->
  forall d v cur, Inv cur -> Inv (snd (json.value_struct members d v cur)).
Proof.
  intros Hm d v cur Hcur. destruct v; simpl; try exact Hcur. apply Hm. exact Hcur.
Qed.

Lemma decode_Usage_range (d : json.decodeState) (v : json.value) (u : UsageT) :
  Usage_in_int u -> Usage_in_int (snd (decode_Usage d v u)).
Proof.
  unfold decode_Usage. apply value_struct_invariant. clear.
  intros d ms cur. apply object_loop_invariant. clear.
  intros d i v u (HP & HT & HC). unfold Usage_field.
  destruct i as [| [| [| i]]].
  - pose proof (value_int_range d v (PromptTokens u) HP) as H.
    destruct (json.value_int d v (PromptTokens u)) as [d' n']. simpl in H.
    unfold Usage_in_int. simpl. tauto.
  - pose proof (value_int_range d v (TotalTokens u) HT) as H.
    destruct (json.value_int d v (TotalTokens u)) as [d' n']. simpl in H.
    unfold Usage_in_int. simpl. tauto.
  - pose proof (value_int_range d v (CompletionTokens u) HC) as H.
    destruct (json.value_int d v (CompletionTokens u)) as [d' n']. simpl in H.
    unfold Usage_in_int. simpl. tauto.
  - unfold Usage_in_int. simpl. tauto.
Qed.

Lemma Unmarshal_range (body : bytes) :
  Usage_in_int (Usage (fst (Unmarshal body zero_openAIResp))).
Proof.
  assert (Usage_in_int (Usage zero_openAIResp)) as Hzero.
  { unfold Usage_in_int, strconv.in_int, strconv.minInt, strconv.maxInt. simpl. lia. }
  unfold Unmarshal. destruct (json.checkValid body) as [j | |]; try exact Hzero.
  assert (Usage_in_int
            (Usage (snd (decode_openAIResp {| json.savedError := None |} j zero_openAIResp))))
    as H.
  { unfold decode_openAIResp.
    apply (value_struct_invariant (fun r => Usage_in_int (Usage r))); [| exact Hzero].
    clear. intros d ms cur.
    apply (object_loop_invariant (fun r => Usage_in_int (Usage r))). clear.
    intros d i v r Hr. unfold openAIResp_field. destruct i as [| i]; [| exact Hr].
    pose proof (decode_Usage_range d v (Usage r) Hr) as H.
    destruct (decode_Usage d v (Usage r)). exact H. }
  destruct (decode_openAIResp {| json.savedError := None |} j zero_openAIResp). exact H.
Qed.

(** ** The model on concrete texts *)

Example Itoa_min_int : strconv.Itoa strconv.minInt = "-9223372036854775808"%string.
Proof. reflexivity. Qed.

Example ParseInt_max_int :
  strconv.ParseInt (key "9223372036854775807") = inl strconv.maxInt.
Proof. reflexivity. Qed.

Example ParseInt_beyond_int :
  strconv.ParseInt (key "9223372036854775808") = inr strconv.ErrRange.
Proof. reflexivity. Qed.

Example ParseInt_exponent : strconv.ParseInt (key "1e2") = inr strconv.ErrSyntax.
Proof. reflexivity. Qed.

(** The body of the README gives the header values of the README. *)
Example README_headers :
  set_headers_of (decision (ResponseBodyCb (render README_body) true))
  = usage_headers "5" "15" "10".
Proof. vm_compute. reflexivity. Qed.

(** White space between the tokens is accepted. *)
Example spaced_text :
  set_headers_of
    (decision
       (ResponseBodyCb
          (key " { " ++ quote (key "usage") ++ key " : {" ++ quote (key "total_tokens")
               ++ key ": 7 } } ")
          true))
  = usage_headers "0" "7" "0".
Proof. vm_compute. reflexivity. Qed.

(** Keys are matched without regard to case, and the long s folds to S. *)
Example folded_keys :
  json.lookupField openAIResp_fields (key "USAGE") = Some 0%nat
  /\ json.lookupField openAIResp_fields
       ("u"%char :: utf8.EncodeRune 0x17F ++ key "age") = Some 0%nat
  /\ json.unquoteBytes (bslash :: key "u0075sage") = Some (key "usage")
  /\ json.lookupField openAIResp_fields (key "usages") = None.
Proof. vm_compute. repeat split. Qed.

(** A count written with a fraction or an exponent, a string, or a
    [usage] that is not an object is a type error: no header. *)
Example type_errors :
  map (fun v => set_headers_of
                  (decision (ResponseBodyCb (render (json.VObject [(key "usage", v)])) true)))
      [ json.VObject [(key "prompt_tokens", json.VNumber (key "5.0"))];
        json.VObject [(key "prompt_tokens", json.VNumber (key "1e2"))];
        json.VObject [(key "prompt_tokens", json.VString (key "5"))];
        json.VNumber (key "5");
        json.VArray [] ]
  = [ []; []; []; []; [] ].
Proof. vm_compute. reflexivity. Qed.

(** [null] is ignored wherever it stands. *)
Example null_ignored :
  map (fun v => set_headers_of (decision (ResponseBodyCb (render v) true)))
      [ json.VNull;
        json.VObject [(key "usage", json.VNull)];
        json.VObject [(key "usage", json.VObject [(key "total_tokens", json.VNull)])] ]
  = [ usage_headers "0" "0" "0"; usage_headers "0" "0" "0"; usage_headers "0" "0" "0" ].
Proof. vm_compute. reflexivity. Qed.

(** Texts that are not JSON. *)
Example malformed_texts :
  map json.checkValid
      [ []; key "{"; key "[1,]"; key "01"; key "1."; key "tru"; key "{} x";
        key "{" ++ quote (key "a") ++ key "}";
        key "{" ++ quote (key "a") ++ key ":1,}";
        quote (bslash :: key "x") ]
  = repeat json.Invalid 10.
Proof. vm_compute. reflexivity. Qed.

(** The scanner allows ten thousand containers inside one another, and
    not one more. *)
Example nesting_limit :
  (forall v, literals_ok v = true -> depth_of v <= 10000 ->
     json.checkValid (render v) = json.Scanned v)
  /\ (forall f s, json.scanValue (S f) 10000 ("["%char :: s) = json.Invalid)
  /\ (forall f s, json.scanValue (S f) 10000 ("{"%char :: s) = json.Invalid).
Proof. split; [exact checkValid_render | split; reflexivity]. Qed.

(** Scenario A of the specification. *)
Example scenario_A :
  sent (fst (Process {| recv_script := map inl (transaction (render (usage_document [] [] 5 15 10)));
                        send_result := fun _ => None |}))
  = [ {| Response := Some (ProcessingResponse_RequestHeaders
                             {| HeadersResponse_Response := None |});
         ModeOverride := None |};
      {| Response := Some (ProcessingResponse_RequestBody
                             {| BodyResponse_Response := None |});
         ModeOverride := None |};
      {| Response := Some (ProcessingResponse_ResponseHeaders
                             {| HeadersResponse_Response := None |});
         ModeOverride := Some buffered_override |};
      {| Response :=
           Some (ProcessingResponse_ResponseBody
                   {| BodyResponse_Response :=
                        Some {| HeaderMutation_ :=
                                  Some {| SetHeaders := usage_headers "5" "15" "10";
                                          RemoveHeaders := [] |} |} |});
         ModeOverride := None |} ].
Proof. vm_compute. reflexivity. Qed.

(* ================================================================== *)
(** * The properties of the specification *)

(** C1, as amended.  For every response-body callback with end-of-stream
    set whose payload is the compact JSON text of an object holding
    [{"usage":{"prompt_tokens":P,"total_tokens":T,"completion_tokens":C}}]
    with P, T and C between 0 and the largest [int] (2^63 - 1), possibly
    among other top-level members whose keys select no field of the target
    struct under the decoder's case-insensitive matching, the decision
    carries a header mutation that sets exactly three headers, in the order
    prompt, total, completion, with the decimal strings of P, T and C as
    values. *)
Theorem C1_usage_headers (before after : list (bytes * json.value)) (P T C : Z) :
  0 <= P <= strconv.maxInt ->
  0 <= T <= strconv.maxInt ->
  0 <= C <= strconv.maxInt ->
  forallb unrelated before = true ->
  forallb unrelated after = true ->
  mutation_of (decision (ResponseBodyCb (render (usage_document before after P T C)) true))
  = Some {| SetHeaders :=
              usage_headers (strconv.Itoa P) (strconv.Itoa T) (strconv.Itoa C);
            RemoveHeaders := [] |}.
Proof.
  intros HP HT HC Hb Ha.
  rewrite decision_complete_body, Unmarshal_usage_document by assumption.
  reflexivity.
Qed.

(** Witness of C1: the body of the README, reduced to an [id] member, the
    usage object and a [system_fingerprint] member. *)
Lemma C1_usage_headers_witness :
  mutation_of
    (decision
       (ResponseBodyCb
          (render (usage_document [(key "id", json.VString (key "12972888"))]
                                  [(key "system_fingerprint", json.VNull)] 5 15 10))
          true))
  = Some {| SetHeaders := usage_headers "5" "15" "10"; RemoveHeaders := [] |}.
Proof.
  apply (C1_usage_headers [(key "id", json.VString (key "12972888"))]
                          [(key "system_fingerprint", json.VNull)] 5 15 10);
    solve [ unfold strconv.maxInt; lia | reflexivity ].
Defined.

(** Counterexample to C1 as stated: a prompt-token count of 2^63 is a
    non-negative integer, but it does not fit an [int]; [json.Unmarshal]
    reports a type error and the decision carries no header at all. *)
Lemma C1_counterexample_count_beyond_int :
  0 <= 2 ^ 63
  /\ snd (Unmarshal (render (usage_document [] [] (2 ^ 63) 15 10)) zero_openAIResp)
     = Some (json.UnmarshalTypeError "number 9223372036854775808" "int")
  /\ set_headers_of
       (decision (ResponseBodyCb (render (usage_document [] [] (2 ^ 63) 15 10)) true))
     = []
  /\ set_headers_of
       (decision (ResponseBodyCb (render (usage_document [] [] (2 ^ 63) 15 10)) true))
     <> usage_headers (strconv.Itoa (2 ^ 63)) (strconv.Itoa 15) (strconv.Itoa 10).
Proof.
  split; [lia |]. split; [vm_compute; reflexivity |].
  assert (set_headers_of
            (decision (ResponseBodyCb (render (usage_document [] [] (2 ^ 63) 15 10)) true))
          = []) as E by (vm_compute; reflexivity).
  split; [exact E |]. rewrite E. discriminate.
Qed.

(** C2, as amended.  For a response-body callback with end-of-stream set:
    when the payload is malformed JSON, or more generally whenever
    [json.Unmarshal] returns an error, the decision is the empty body
    response and sets no header; when the payload is the compact text of a
    JSON object none of whose keys selects the [usage] field, decoding
    succeeds with all counts zero and the decision sets the three headers to
    [0]; in every case the session goes on: each callback that the stream
    delivers is answered, and the run ends only with a failing read. *)
Theorem C2_no_usage_extracted (body : bytes) (ms : list (bytes * json.value))
    (srv : ProcessServer) :
  (json.checkValid body = json.Invalid ->
     decision (ResponseBodyCb body true) = emptyBodyResponse
     /\ set_headers_of (decision (ResponseBodyCb body true)) = [])
  /\ (snd (Unmarshal body zero_openAIResp) <> None ->
        decision (ResponseBodyCb body true) = emptyBodyResponse)
  /\ (forallb unrelated ms = true ->
        set_headers_of (decision (ResponseBodyCb (render (json.VObject ms)) true))
        = usage_headers "0" "0" "0")
  /\ sent (fst (Process srv)) = map decision (delivered (recv_script srv))
  /\ snd (Process srv) = outcome_of (first_failure (recv_script srv)).
Proof.
  split; [| split; [| split; [| split]]].
  - intros H. rewrite decision_complete_body, (Unmarshal_invalid body _ H).
    split; reflexivity.
  - intros H. rewrite decision_complete_body.
    destruct (Unmarshal body zero_openAIResp) as [r [e |]]; [reflexivity |].
    simpl in H. congruence.
  - intros H. rewrite decision_complete_body, (Unmarshal_no_usage ms H). reflexivity.
  - apply Process_run.
  - apply Process_run.
Qed.

(** Witness of C2: a body cut off in the middle, an object without usage,
    and a stream that delivers a further callback after the malformed
    body. *)
Lemma C2_no_usage_extracted_witness :
  let body := firstn 20 (render (usage_document [] [] 5 15 10)) in
  let ms := [(key "id", json.VString (key "x"))] in
  let srv := {| recv_script :=
                  [ inl (ResponseBodyCb body true);
                    inl (RequestHeadersCb {| Headers := []; HttpHeaders_EndOfStream := false |});
                    inr io_EOF ];
                send_result := fun _ => None |} in
  json.checkValid body = json.Invalid
  /\ decision (ResponseBodyCb body true) = emptyBodyResponse
  /\ forallb unrelated ms = true
  /\ set_headers_of (decision (ResponseBodyCb (render (json.VObject ms)) true))
     = usage_headers "0" "0" "0"
  /\ List.length (sent (fst (Process srv))) = 2%nat
  /\ snd (Process srv) = Returned None.
Proof.
  intros body ms srv.
  destruct (C2_no_usage_extracted body ms srv) as (Hbad & _ & Hzero & Hsent & Hout).
  assert (json.checkValid body = json.Invalid) as Hb by (vm_compute; reflexivity).
  assert (forallb unrelated ms = true) as Hm by (vm_compute; reflexivity).
  split; [exact Hb |]. split; [exact (proj1 (Hbad Hb)) |].
  split; [exact Hm |]. split; [exact (Hzero Hm) |].
  split; [rewrite Hsent; reflexivity | rewrite Hout; reflexivity].
Defined.

(** Counterexample to C2 as stated: [{"id":"x"}] is valid JSON without a
    [usage] object, and the decision for it carries three headers. *)
Lemma C2_counterexample_object_without_usage :
  let body := render (json.VObject [(key "id", json.VString (key "x"))]) in
  json.checkValid body = json.Scanned (json.VObject [(key "id", json.VString (key "x"))])
  /\ set_headers_of (decision (ResponseBodyCb body true)) = usage_headers "0" "0" "0"
  /\ set_headers_of (decision (ResponseBodyCb body true)) <> [].
Proof.
  intros body.
  assert (set_headers_of (decision (ResponseBodyCb body true)) = usage_headers "0" "0" "0")
    as E by (vm_compute; reflexivity).
  split; [vm_compute; reflexivity |]. split; [exact E |]. rewrite E. discriminate.
Qed.

(** C3, as amended.  When the response body is delivered across several
    response-body callbacks, each callback without the end-of-stream flag is
    answered by the empty body response and its bytes are dropped: the
    handler has no accumulator.  Usage extraction runs once, on the payload
    of the callback that carries end-of-stream, and on that payload alone
    (the handler relies on the buffered mode it requested to receive the
    whole body in that callback). *)
Theorem C3_extraction_on_final_chunk (chunks : list bytes) (final : bytes)
    (send : nat -> option error) :
  let srv := {| recv_script := map inl (chunked chunks final); send_result := send |} in
  sent (fst (Process srv))
  = repeat emptyBodyResponse (List.length chunks) ++ [decision (ResponseBodyCb final true)]
  /\ unmarshal_calls (fst (Process srv)) = [final].
Proof.
  intros srv. destruct (Process_run srv) as (Hs & _ & Hu & _).
  rewrite Hs, Hu. unfold srv. cbn [recv_script]. rewrite delivered_only.
  unfold chunked. clear. split.
  - rewrite map_app, map_map. cbn [map]. f_equal.
    induction chunks as [| c chunks IH]; [reflexivity |].
    cbn [map List.length repeat]. rewrite IH. reflexivity.
  - rewrite flat_map_app. cbn [flat_map eos_body ResponseBodyCb Request EndOfStream Body app].
    induction chunks as [| c chunks IH]; [reflexivity |]. exact IH.
Qed.

(** Counterexample to C3 as stated: the usage object of scenario A split
    after 30 bytes.  The only input of [json.Unmarshal] is the second chunk,
    not the concatenation, and the final decision is the empty one, whereas
    the concatenation would have given the three headers. *)
Lemma C3_counterexample_split_body :
  let doc := render (usage_document [] [] 5 15 10) in
  let c1 := firstn 30 doc in
  let c2 := skipn 30 doc in
  let srv := {| recv_script := map inl (chunked [c1] c2); send_result := fun _ => None |} in
  spec_accumulated [c1; c2] = doc
  /\ unmarshal_calls (fst (Process srv)) = [c2]
  /\ unmarshal_calls (fst (Process srv)) <> [spec_accumulated [c1; c2]]
  /\ sent (fst (Process srv)) = [emptyBodyResponse; emptyBodyResponse]
  /\ set_headers_of (decision (ResponseBodyCb (spec_accumulated [c1; c2]) true))
     = usage_headers "5" "15" "10".
Proof.
  intros doc c1 c2 srv.
  assert (unmarshal_calls (fst (Process srv)) = [c2]) as E by (vm_compute; reflexivity).
  split; [vm_compute; reflexivity |]. split; [exact E |].
  split; [rewrite E; vm_compute; discriminate |].
  split; vm_compute; reflexivity.
Qed.

(** C4, as amended.  For every sequence of callbacks received on one
    stream, the session calls [Send] exactly once per callback received, with
    the decision for that callback, in the order of the callbacks and before
    the next callback is read, for the full lifetime of the session.  A
    callback of an unrecognized type receives the empty, neutral decision.
    The handler tracks no phase: a callback of a recognized type is answered
    according to its own type wherever it arrives. *)
Theorem C4_one_decision_per_callback (srv : ProcessServer) (req : ProcessingRequest) :
  sent (fst (Process srv)) = map decision (received (fst (Process srv)))
  /\ received (fst (Process srv)) = delivered (recv_script srv)
  /\ List.length (sent (fst (Process srv))) = List.length (received (fst (Process srv)))
  /\ calls (fst (Process srv))
     = exchange (send_result srv) 0 (delivered (recv_script srv))
       ++ last_read (first_failure (recv_script srv))
  /\ (is_unrecognized req = true ->
        decision req = {| Response := None; ModeOverride := None |}
        /\ neutral (decision req) = true).
Proof.
  destruct (Process_run srv) as (Hs & Hr & _ & _).
  split; [rewrite Hs, Hr; reflexivity |]. split; [exact Hr |].
  split; [rewrite Hs, Hr; apply length_map |].
  split; [apply Process_calls |].
  unfold is_unrecognized, decision, Process_switch.
  destruct (Request req) as [[h | h | b | rb | t | t] |]; try discriminate;
    intros _; split; reflexivity.
Qed.

(** Witness of C4: a stream that delivers response trailers out of the
    blue, then closes. *)
Lemma C4_one_decision_per_callback_witness :
  let trailers := {| Request := Some (ProcessingRequest_ResponseTrailers
                                        {| Trailers := [] |}) |} in
  let srv := {| recv_script := [inl trailers; inr io_EOF];
                send_result := fun _ => None |} in
  is_unrecognized trailers = true
  /\ sent (fst (Process srv)) = [{| Response := None; ModeOverride := None |}]
  /\ neutral (decision trailers) = true.
Proof.
  intros trailers srv.
  destruct (C4_one_decision_per_callback srv trailers) as (Hs & Hr & _ & _ & Hu).
  split; [reflexivity |].
  split; [rewrite Hs, Hr; reflexivity | exact (proj2 (Hu eq_refl))].
Defined.

(** Counterexample to C4 as stated: a response-headers callback that
    arrives first, where the state machine of the specification expects the
    request headers, is not answered by a neutral decision: its decision
    carries the mode override.  Likewise a complete response body that
    arrives first is parsed and answered with a header mutation. *)
Lemma C4_counterexample_out_of_phase :
  let req := ResponseHeadersCb {| Headers := []; HttpHeaders_EndOfStream := false |} in
  let body := ResponseBodyCb (render (usage_document [] [] 5 15 10)) true in
  let srv := {| recv_script := [inl req]; send_result := fun _ => None |} in
  out_of_phase [] req = true
  /\ sent (fst (Process srv)) = [decision req]
  /\ neutral (decision req) = false
  /\ out_of_phase [] body = true
  /\ neutral (decision body) = false.
Proof. intros req body srv. repeat split; vm_compute; reflexivity. Qed.

(** C5.  For every transaction whose callbacks arrive in protocol order,
    the decisions sent are those of the callbacks, exactly one of them
    carries a processing-mode override, a decision carries the override if
    and only if it answers the response-headers callback, and the override
    asks for the response body to be BUFFERED and for response headers to be
    sent (SEND). *)
Theorem C5_override_once_on_response_headers (reqs : list ProcessingRequest)
    (send : nat -> option error) :
  in_protocol_order reqs = true ->
  let ds := sent (fst (Process {| recv_script := map inl reqs; send_result := send |})) in
  ds = map decision reqs
  /\ List.length (filter has_override ds) = 1%nat
  /\ List.length (filter is_ResponseHeaders reqs) = 1%nat
  /\ (forall req, In req reqs ->
        ModeOverride (decision req)
        = if is_ResponseHeaders req then Some buffered_override else None)
  /\ ResponseBodyMode buffered_override = BUFFERED
  /\ ResponseHeaderMode buffered_override = SEND.
Proof.
  intros Hord ds.
  assert (ds = map decision reqs) as Hds.
  { unfold ds. destruct (Process_run {| recv_script := map inl reqs; send_result := send |})
      as (Hs & _). rewrite Hs. cbn [recv_script]. rewrite delivered_only. reflexivity. }
  assert (List.length (filter is_ResponseHeaders reqs) = 1%nat) as Hone.
  { unfold in_protocol_order in Hord.
    destruct (spec_run Start reqs) as [ph |] eqn:E; [| discriminate].
    destruct ph; try discriminate.
    apply spec_run_response_headers in E. simpl in E. lia. }
  split; [exact Hds |]. split; [rewrite Hds, filter_override_decisions; exact Hone |].
  split; [exact Hone |]. split; [intros req _; apply has_override_decision |].
  split; reflexivity.
Qed.

(** Witness of C5: scenario A of the specification, with the body in two
    chunks. *)
Lemma C5_override_once_on_response_headers_witness :
  let h := {| Headers := []; HttpHeaders_EndOfStream := false |} in
  let reqs := [ RequestHeadersCb h;
                RequestBodyCb {| Body := []; EndOfStream := true |};
                ResponseHeadersCb h;
                ResponseBodyCb (key "{") false;
                ResponseBodyCb (key "}") true ] in
  in_protocol_order reqs = true
  /\ List.length
       (filter has_override
          (sent (fst (Process {| recv_script := map inl reqs;
                                 send_result := fun _ => None |})))) = 1%nat.
Proof.
  intros h reqs. split; [reflexivity |].
  exact (proj1 (proj2 (C5_override_once_on_response_headers reqs (fun _ => None) eq_refl))).
Defined.

(** C6.  For every response-body callback without the end-of-stream flag,
    whatever its bytes, the decision is the empty body response, which
    carries no header mutation, and [json.Unmarshal] is not called; over a
    whole run, [json.Unmarshal] is called exactly on the payloads of the
    response-body callbacks that carry end-of-stream. *)
Theorem C6_partial_body_untouched (body : bytes) (srv : ProcessServer) :
  decision (ResponseBodyCb body false) = emptyBodyResponse
  /\ mutation_of (decision (ResponseBodyCb body false)) = None
  /\ set_headers_of (decision (ResponseBodyCb body false)) = []
  /\ unmarshal_calls (fst (Process_switch (ResponseBodyCb body false))) = []
  /\ eos_body (ResponseBodyCb body false) = []
  /\ unmarshal_calls (fst (Process srv)) = flat_map eos_body (delivered (recv_script srv)).
Proof.
  repeat split; try reflexivity. apply Process_run.
Qed.

(** C7.  The session returns nil exactly when the first failing read of
    the stream yields [io.EOF]; for any other failure of a read it returns
    the error built by [status.Errorf] with code Unknown around that
    failure.  A failing [Send] is not fatal: it is logged, the next call on
    the stream is the next [Recv], and the callbacks read, the decisions sent
    and the outcome are the same whatever the results of [Send]. *)
Theorem C7_termination_and_send_failures (srv : ProcessServer)
    (send' : nat -> option error) :
  (snd (Process srv) = Returned None <-> first_failure (recv_script srv) = Some io_EOF)
  /\ (forall e, first_failure (recv_script srv) = Some e -> e <> io_EOF ->
        snd (Process srv)
        = Returned (Some (status_Errorf Unknown "cannot receive stream request: %v" e)))
  /\ (first_failure (recv_script srv) = None -> snd (Process srv) = Blocked)
  /\ (let srv' := {| recv_script := recv_script srv; send_result := send' |} in
      received (fst (Process srv')) = received (fst (Process srv))
      /\ sent (fst (Process srv')) = sent (fst (Process srv))
      /\ snd (Process srv') = snd (Process srv))
  /\ (forall k req e,
        nth_error (delivered (recv_script srv)) k = Some req ->
        send_result srv k = Some e ->
        In (EvLog (Printf "[Process] Error sending response: %v" [ArgError e]))
           (fst (Process srv))
        /\ sent (fst (Process srv)) = map decision (delivered (recv_script srv)))
  /\ calls (fst (Process srv))
     = exchange (send_result srv) 0 (delivered (recv_script srv))
       ++ last_read (first_failure (recv_script srv)).
Proof.
  destruct (Process_run srv) as (Hs & Hr & _ & Ho).
  split; [| split; [| split; [| split; [| split; [| apply Process_calls]]]]].
  - rewrite Ho. unfold outcome_of.
    destruct (first_failure (recv_script srv)) as [e |]; [| split; discriminate].
    destruct (is_EOF e) eqn:E.
    + apply is_EOF_iff in E. subst e. split; reflexivity.
    + split; [discriminate |]. intros H. injection H as ->. discriminate.
  - intros e He Hne. rewrite Ho, He. unfold outcome_of.
    destruct (is_EOF e) eqn:E; [apply is_EOF_iff in E; contradiction | reflexivity].
  - intros H. rewrite Ho, H. reflexivity.
  - intros srv'. destruct (Process_run srv') as (Hs' & Hr' & _ & Ho').
    rewrite Hs', Hr', Ho', Hs, Hr, Ho. repeat split; reflexivity.
  - intros k req e Hk He. split; [| exact Hs].
    unfold Process.
    pose proof (Process_loop_send_logged (recv_script srv) (send_result srv) 0 k req e Hk He)
      as H.
    destruct (Process_loop (recv_script srv) (send_result srv) 0) as [tr out].
    right. exact H.
Qed.

(** Witness of C7: the first [Send] fails, a second callback is still read
    and answered, then a transport error ends the session. *)
Lemma C7_termination_and_send_failures_witness :
  let h := {| Headers := []; HttpHeaders_EndOfStream := false |} in
  let srv := {| recv_script := [ inl (RequestHeadersCb h); inl (ResponseHeadersCb h);
                                 inr (transport_error "connection reset") ];
                send_result := fun n => match n with
                                        | O => Some (transport_error "broken pipe")
                                        | _ => None
                                        end |} in
  snd (Process srv)
  = Returned (Some (status_Errorf Unknown "cannot receive stream request: %v"
                                  (transport_error "connection reset")))
  /\ In (EvLog (Printf "[Process] Error sending response: %v"
                       [ArgError (transport_error "broken pipe")]))
        (fst (Process srv))
  /\ List.length (sent (fst (Process srv))) = 2%nat.
Proof.
  intros h srv.
  destruct (C7_termination_and_send_failures srv (fun _ => None))
    as (_ & Herr & _ & _ & Hlog & _).
  split; [apply Herr; [reflexivity | discriminate] |].
  destruct (Hlog 0%nat (RequestHeadersCb h) (transport_error "broken pipe") eq_refl eq_refl)
    as [Hin Hsent].
  split; [exact Hin | rewrite Hsent; reflexivity].
Defined.

(** C8, as amended.  For every usage record that extraction reports as
    successfully parsed, the mutation sets the three headers in the fixed
    order prompt, total, completion, each value being the decimal string
    that [strconv.Itoa] gives for the parsed count, a signed integer within
    the range of [int]; the value is a string of decimal digits whenever the
    parsed count is not negative. *)
Theorem C8_headers_from_parsed_usage (body : bytes) (r : openAIRespT) :
  Unmarshal body zero_openAIResp = (r, None) ->
  set_headers_of (decision (ResponseBodyCb body true))
  = usage_headers (strconv.Itoa (PromptTokens (Usage r)))
                  (strconv.Itoa (TotalTokens (Usage r)))
                  (strconv.Itoa (CompletionTokens (Usage r)))
  /\ Usage_in_int (Usage r)
  /\ (0 <= PromptTokens (Usage r) ->
        all_digits (strconv.Itoa (PromptTokens (Usage r))) = true)
  /\ (0 <= TotalTokens (Usage r) ->
        all_digits (strconv.Itoa (TotalTokens (Usage r))) = true)
  /\ (0 <= CompletionTokens (Usage r) ->
        all_digits (strconv.Itoa (CompletionTokens (Usage r))) = true).
Proof.
  intros H. split; [rewrite decision_complete_body, H; reflexivity |].
  split; [pose proof (Unmarshal_range body) as Hr; rewrite H in Hr; exact Hr |].
  repeat split; apply all_digits_Itoa.
Qed.

(** Witness of C8: the usage object of scenario A. *)
Lemma C8_headers_from_parsed_usage_witness :
  set_headers_of
    (decision (ResponseBodyCb (render (usage_document [] [] 5 15 10)) true))
  = usage_headers "5" "15" "10".
Proof.
  exact (proj1 (C8_headers_from_parsed_usage
                  (render (usage_document [] [] 5 15 10))
                  {| Usage := {| PromptTokens := 5; TotalTokens := 15;
                                 CompletionTokens := 10 |} |}
                  eq_refl)).
Defined.

(** Counterexample to C8 as stated: a negative count is an integer that
    extraction parses successfully, and the header value it gives, [-5], is
    not the decimal string of any non-negative integer. *)
Lemma C8_counterexample_negative_count :
  let body := render (usage_document [] [] (-5) 15 10) in
  Unmarshal body zero_openAIResp
  = ({| Usage := {| PromptTokens := -5; TotalTokens := 15; CompletionTokens := 10 |} |},
     None)
  /\ set_headers_of (decision (ResponseBodyCb body true)) = usage_headers "-5" "15" "10"
  /\ all_digits "-5" = false
  /\ (forall n, 0 <= n -> strconv.Itoa n <> "-5"%string).
Proof.
  intros body. split; [vm_compute; reflexivity |].
  split; [vm_compute; reflexivity |]. split; [reflexivity |].
  intros n Hn E. pose proof (all_digits_Itoa n Hn) as H. rewrite E in H. discriminate.
Qed.

(** C9.  The decision sent for a callback is a function of that callback
    alone: whenever two streams deliver the same callback, at whatever
    positions and after whatever other callbacks, and whatever the results
    of [Send], the decisions sent at those positions are the same, namely
    the decision for that callback. *)
Theorem C9_decision_depends_on_callback_only (srv1 srv2 : ProcessServer) (i j : nat)
    (req : ProcessingRequest) :
  nth_error (delivered (recv_script srv1)) i = Some req ->
  nth_error (delivered (recv_script srv2)) j = Some req ->
  nth_error (sent (fst (Process srv1))) i = Some (decision req)
  /\ nth_error (sent (fst (Process srv2))) j = Some (decision req)
  /\ nth_error (sent (fst (Process srv1))) i = nth_error (sent (fst (Process srv2))) j.
Proof.
  intros H1 H2.
  destruct (Process_run srv1) as (Hs1 & _). destruct (Process_run srv2) as (Hs2 & _).
  rewrite Hs1, Hs2.
  rewrite (map_nth_error decision i _ H1), (map_nth_error decision j _ H2).
  repeat split; reflexivity.
Qed.

(** Witness of C9: the same response-headers callback, first on one
    stream, third on another whose first [Send] fails. *)
Lemma C9_decision_depends_on_callback_only_witness :
  let h := {| Headers := []; HttpHeaders_EndOfStream := false |} in
  let srv1 := {| recv_script := [inl (ResponseHeadersCb h)];
                 send_result := fun _ => None |} in
  let srv2 := {| recv_script := [ inl (RequestHeadersCb h);
                                  inl (ResponseBodyCb (key "{}") true);
                                  inl (ResponseHeadersCb h); inr io_EOF ];
                 send_result := fun _ => Some (transport_error "broken pipe") |} in
  nth_error (sent (fst (Process srv1))) 0 = nth_error (sent (fst (Process srv2))) 2.
Proof.
  intros h srv1 srv2.
  exact (proj2 (proj2 (C9_decision_depends_on_callback_only
                         srv1 srv2 0 2 (ResponseHeadersCb h) eq_refl eq_refl))).
Defined.

(** C10.  Whenever a decision carries a header mutation, the mutation
    sets exactly three headers, named [x-openai-prompt-tokens],
    [x-openai-total-tokens] and [x-openai-completion-tokens] in that order.
    They are carried in the list of headers to set ([SetHeaders], which the
    protocol applies by adding or replacing), no option asks for the value to
    be appended ([Append] is left unset), and no header is removed. *)
Theorem C10_header_names_and_set_semantics (req : ProcessingRequest) (m : HeaderMutation) :
  mutation_of (decision req) = Some m ->
  map header_name (SetHeaders m)
  = [ Some "x-openai-prompt-tokens"%string;
      Some "x-openai-total-tokens"%string;
      Some "x-openai-completion-tokens"%string ]
  /\ Forall (fun h => Append h = None) (SetHeaders m)
  /\ RemoveHeaders m = [].
Proof.
  unfold decision, Process_switch.
  destruct (Request req) as [[h | h | b | rb | t | t] |]; try discriminate.
  destruct (EndOfStream rb); simpl; [| discriminate].
  destruct (Unmarshal (Body rb) zero_openAIResp) as [u [e |]]; simpl; [discriminate |].
  intros H. injection H as <-. simpl.
  split; [reflexivity |]. split; [| reflexivity].
  repeat constructor.
Qed.

(** Witness of C10: the mutation of scenario A. *)
Lemma C10_header_names_and_set_semantics_witness :
  map header_name (usage_headers "5" "15" "10")
  = [ Some "x-openai-prompt-tokens"%string;
      Some "x-openai-total-tokens"%string;
      Some "x-openai-completion-tokens"%string ].
Proof.
  exact (proj1 (C10_header_names_and_set_semantics
                  (ResponseBodyCb (render (usage_document [] [] 5 15 10)) true)
                  {| SetHeaders := usage_headers "5" "15" "10"; RemoveHeaders := [] |}
                  eq_refl)).
Defined.

(* ================================================================== *)
(** * Further properties of the code *)

(** ** The two copies of the program *)

Lemma effects_app (a b : list event) : effects (a ++ b) = effects a ++ effects b.
Proof. apply filter_app. Qed.

Lemma log_lines_app (a b : list event) : log_lines (a ++ b) = log_lines a ++ log_lines b.
Proof.
  induction a as [| e a IH]; [reflexivity |].
  destruct e; simpl; rewrite IH; reflexivity.
Qed.

Lemma Unlogged_switch_decision (req : ProcessingRequest) :
  snd (Unlogged.Process_switch req) = decision req.
Proof.
  unfold decision, Unlogged.Process_switch, Process_switch.
  destruct (Request req) as [[h | h | b | rb | t | t] |]; try reflexivity.
  destruct (EndOfStream rb); simpl; [| reflexivity].
  destruct (Unmarshal (Body rb) zero_openAIResp) as [u [e |]]; reflexivity.
Qed.

Lemma switch_effects (req : ProcessingRequest) :
  effects (fst (Process_switch req)) = map EvUnmarshal (eos_body req)
  /\ effects (fst (Unlogged.Process_switch req)) = map EvUnmarshal (eos_body req).
Proof.
  unfold Unlogged.Process_switch, Process_switch, eos_body.
  destruct (Request req) as [[h | h | b | rb | t | t] |]; try (split; reflexivity).
  destruct (EndOfStream rb); simpl; [| split; reflexivity].
  destruct (Unmarshal (Body rb) zero_openAIResp) as [u [e |]]; split; reflexivity.
Qed.

Lemma Unlogged_switch_pair (req : ProcessingRequest) :
  Unlogged.Process_switch req = (fst (Unlogged.Process_switch req), decision req).
Proof.
  rewrite <- Unlogged_switch_decision. destruct (Unlogged.Process_switch req); reflexivity.
Qed.

Lemma Unlogged_loop_cons (req : ProcessingRequest) (rest : list (ProcessingRequest + error))
    (send : nat -> option error) (n : nat) :
  Unlogged.Process_loop (inl req :: rest) send n =
  ([ EvRecv (inl req) ]
   ++ fst (Unlogged.Process_switch req)
   ++ [ EvSend (decision req) (send n) ]
   ++ match send n with
      | Some e => [ EvLog (Printf "send error: %v" [ArgError e]) ]
      | None => []
      end
   ++ fst (Unlogged.Process_loop rest send (S n)),
   snd (Unlogged.Process_loop rest send (S n))).
Proof.
  cbn [Unlogged.Process_loop]. rewrite (Unlogged_switch_pair req).
  destruct (Unlogged.Process_loop rest send (S n)) as [tr out]. reflexivity.
Qed.

Lemma both_loops_same_effects (script : list (ProcessingRequest + error)) :
  forall send n,
    effects (fst (Unlogged.Process_loop script send n))
    = effects (fst (Process_loop script send n))
    /\ snd (Unlogged.Process_loop script send n) = snd (Process_loop script send n).
Proof.
  induction script as [| [req | err] script IH]; intros send n.
  - split; reflexivity.
  - rewrite Unlogged_loop_cons, Process_loop_cons. cbn [fst snd].
    destruct (IH send (S n)) as [IHe IHo].
    destruct (switch_effects req) as [E1 E2].
    split; [| exact IHo].
    change (?a :: ?b :: ?c ++ ?d) with ([a; b] ++ c ++ d).
    rewrite !effects_app, E1, E2, IHe.
    unfold send_log. destruct (send n); reflexivity.
  - cbn [Unlogged.Process_loop Process_loop]. destruct (is_EOF err); split; reflexivity.
Qed.

(** X1.  The copy of the program without debug logging and main.go behave
    alike on every stream: they make the same calls of [Recv], of
    [json.Unmarshal] and of [Send], with the same arguments and results and
    in the same order, and they return the same outcome.  They differ in
    their log lines only. *)
Theorem both_copies_same_effects (srv : ProcessServer) :
  effects (fst (Unlogged.Process srv)) = effects (fst (Process srv))
  /\ sent (fst (Unlogged.Process srv)) = sent (fst (Process srv))
  /\ snd (Unlogged.Process srv) = snd (Process srv).
Proof.
  destruct (both_loops_same_effects (recv_script srv) (send_result srv) 0) as [He Ho].
  assert (forall tr, sent (effects tr) = sent tr) as Hsent.
  { induction tr as [| e tr IH]; [reflexivity |]. destruct e; simpl; rewrite ?IH; reflexivity. }
  unfold Unlogged.Process, Process in *.
  destruct (Process_loop (recv_script srv) (send_result srv) 0) as [tr out].
  cbn [fst snd] in *. change (effects (?e :: tr)) with (effects tr).
  split; [exact He |]. split; [| exact Ho].
  rewrite <- (Hsent (fst (Unlogged.Process_loop _ _ _))), He, Hsent. reflexivity.
Qed.

Lemma send_failures_S (send : nat -> option error) (n len : nat) :
  send_failures send n (S len)
  = ((if send_fails send n then 1 else 0) + send_failures send (S n) len)%nat.
Proof.
  unfold send_failures. cbn [seq filter]. destruct (send_fails send n); reflexivity.
Qed.

Lemma parse_failures_cons (req : ProcessingRequest) (reqs : list ProcessingRequest) :
  parse_failures (req :: reqs)
  = (List.length (filter unmarshal_fails (eos_body req)) + parse_failures reqs)%nat.
Proof.
  unfold parse_failures. cbn [flat_map]. rewrite filter_app, length_app. reflexivity.
Qed.

Lemma Unlogged_switch_logs (req : ProcessingRequest) :
  List.length (log_lines (fst (Unlogged.Process_switch req)))
  = List.length (filter unmarshal_fails (eos_body req)).
Proof.
  unfold Unlogged.Process_switch, eos_body, unmarshal_fails.
  destruct (Request req) as [[h | h | b | rb | t | t] |]; try reflexivity.
  destruct (EndOfStream rb); simpl; [| reflexivity].
  destruct (Unmarshal (Body rb) zero_openAIResp) as [u [e |]]; reflexivity.
Qed.

Lemma Unlogged_loop_logs (script : list (ProcessingRequest + error)) :
  forall send n,
    List.length (log_lines (fst (Unlogged.Process_loop script send n)))
    = (parse_failures (delivered script)
       + send_failures send n (List.length (delivered script)))%nat.
Proof.
  induction script as [| [req | err] script IH]; intros send n.
  - reflexivity.
  - rewrite Unlogged_loop_cons. cbn [fst delivered List.length].
    rewrite parse_failures_cons, send_failures_S.
    rewrite !log_lines_app, !length_app, Unlogged_switch_logs, IH.
    unfold send_fails. destruct (send n); simpl; lia.
  - cbn [Unlogged.Process_loop]. destruct (is_EOF err); reflexivity.
Qed.

(** X2.  The copy without debug logging writes one log line for each
    complete response body that [json.Unmarshal] rejects and one for each
    call of [Send] that fails, and nothing else: a run in which every body
    parses and every [Send] succeeds leaves the log empty. *)
Theorem unlogged_logs_failures_only (srv : ProcessServer) :
  List.length (log_lines (fst (Unlogged.Process srv)))
  = (parse_failures (delivered (recv_script srv))
     + send_failures (send_result srv) 0 (List.length (delivered (recv_script srv))))%nat
  /\ (parse_failures (delivered (recv_script srv)) = 0%nat ->
      (forall k, send_result srv k = None) ->
      log_lines (fst (Unlogged.Process srv)) = []).
Proof.
  pose proof (Unlogged_loop_logs (recv_script srv) (send_result srv) 0) as H.
  split; [exact H |]. intros Hp Hs.
  assert (forall n len, send_failures (send_result srv) n len = 0%nat) as Hz.
  { intros n len. revert n. induction len as [| len IH]; intros n; [reflexivity |].
    rewrite send_failures_S, IH. unfold send_fails. rewrite Hs. reflexivity. }
  unfold Unlogged.Process in *. rewrite Hp, Hz in H.
  destruct (log_lines (fst (Unlogged.Process_loop (recv_script srv) (send_result srv) 0)));
    [reflexivity | discriminate].
Qed.

(** Witness of X2: scenario A on the copy without debug logging. *)
Lemma unlogged_logs_failures_only_witness :
  log_lines
    (fst (Unlogged.Process
            {| recv_script :=
                 map inl (transaction (render (usage_document [] [] 5 15 10))) ++ [inr io_EOF];
               send_result := fun _ => None |}))
  = [].
Proof.
  apply (proj2 (unlogged_logs_failures_only
                  {| recv_script :=
                       map inl (transaction (render (usage_document [] [] 5 15 10)))
                       ++ [inr io_EOF];
                     send_result := fun _ => None |}));
    [vm_compute; reflexivity | intros k; reflexivity].
Defined.

(** ** The log of main.go around [Send] *)

Lemma sends_reported_app (a b : list event) :
  sent a = [] -> sends_reported b -> sends_reported (a ++ b).
Proof.
  induction a as [| e a IH]; intros Ha Hb; [exact Hb |].
  destruct e; simpl in *; try discriminate; apply IH; assumption.
Qed.

Lemma Process_loop_sends_reported (script : list (ProcessingRequest + error)) :
  forall send n, sends_reported (fst (Process_loop script send n)).
Proof.
  induction script as [| [req | err] script IH]; intros send n.
  - exact I.
  - rewrite Process_loop_cons. cbn [fst].
    change (?a :: ?b :: ?c ++ ?d) with ([a; b] ++ c ++ d).
    apply sends_reported_app; [reflexivity |].
    apply sends_reported_app; [apply Process_switch_events |].
    cbn [app sends_reported hd_error]. split.
    + unfold send_log, send_report. destruct (send n); reflexivity.
    + unfold send_log. destruct (send n); apply IH.
  - cbn [Process_loop]. destruct (is_EOF err); exact I.
Qed.

(** X3.  In main.go every call of [Send] is directly followed by the log
    line that reports its result truthfully: the error that [Send]
    returned, or else the response that was sent. *)
Theorem sends_are_reported (srv : ProcessServer) : sends_reported (fst (Process srv)).
Proof.
  unfold Process.
  pose proof (Process_loop_sends_reported (recv_script srv) (send_result srv) 0) as H.
  destruct (Process_loop (recv_script srv) (send_result srv) 0) as [tr out]. exact H.
Qed.

(** ** Runs compose *)

(** X4.  The loop carries nothing from one callback to the next: the run
    on callbacks [reqs] followed by any continuation [rest] of the stream
    is the run on [reqs] alone, followed by the run on [rest] started
    after as many calls of [Send] as [reqs] has callbacks; and it ends as
    the run on [rest] ends. *)
Theorem runs_compose (reqs : list ProcessingRequest)
    (rest : list (ProcessingRequest + error)) (send : nat -> option error) (n : nat) :
  fst (Process_loop (map inl reqs ++ rest) send n)
  = fst (Process_loop (map inl reqs) send n)
    ++ fst (Process_loop rest send (n + List.length reqs))
  /\ snd (Process_loop (map inl reqs ++ rest) send n)
     = snd (Process_loop rest send (n + List.length reqs)).
Proof.
  revert n. induction reqs as [| req reqs IH]; intros n.
  - cbn [map app List.length Process_loop fst]. rewrite Nat.add_0_r.
    split; reflexivity.
  - cbn [map app List.length]. rewrite !Process_loop_cons. cbn [fst snd].
    destruct (IH (S n)) as [IHt IHo]. rewrite IHt, IHo.
    replace (S n + List.length reqs)%nat with (n + S (List.length reqs))%nat by lia.
    split; [| reflexivity].
    cbn [app]. f_equal. f_equal. rewrite <- !app_assoc. reflexivity.
Qed.

(** X5.  After the first failing read the stream is never touched again:
    whatever the stream would deliver after that read makes no difference
    to the run, in either copy of the program. *)
Theorem nothing_after_failed_read (script : list (ProcessingRequest + error))
    (send : nat -> option error) (n : nat) :
  Process_loop script send n = Process_loop (until_failure script) send n
  /\ Unlogged.Process_loop script send n
     = Unlogged.Process_loop (until_failure script) send n.
Proof.
  revert n. induction script as [| [req | err] script IH]; intros n.
  - split; reflexivity.
  - cbn [until_failure]. rewrite !Process_loop_cons, !Unlogged_loop_cons.
    destruct (IH (S n)) as [-> ->]. split; reflexivity.
  - split; reflexivity.
Qed.

(** ** The decision and its callback *)

(** X6.  The decision uses the alternative of the oneof that its callback
    uses: request headers are answered by a request-headers response,
    response headers by a response-headers response, and so on; a callback
    of any other kind (trailers, or none set) is answered by a response
    with no alternative set. *)
Theorem decision_kind (req : ProcessingRequest) :
  response_kind (decision req) = request_kind req.
Proof.
  unfold decision, Process_switch, response_kind, request_kind.
  destruct (Request req) as [[h | h | b | rb | t | t] |]; try reflexivity.
  destruct (EndOfStream rb); simpl; [| reflexivity].
  destruct (Unmarshal (Body rb) zero_openAIResp) as [u [e |]]; reflexivity.
Qed.

(** X7.  A decision carries a header mutation exactly when its callback
    is a response body with end-of-stream set whose bytes
    [json.Unmarshal] accepts.  Every other decision changes nothing. *)
Theorem mutation_iff_parsed_complete_body (req : ProcessingRequest) :
  mutation_of (decision req) <> None
  <-> exists body, complete_body req = Some body
                   /\ snd (Unmarshal body zero_openAIResp) = None.
Proof.
  unfold decision, Process_switch, mutation_of, complete_body.
  destruct (Request req) as [[h | h | b | rb | t | t] |]; cbn [snd Response];
    try (split; [intros H; exfalso; apply H; reflexivity
                | intros (body & Hb & _); discriminate]).
  destruct (EndOfStream rb); cbn [negb].
  - destruct (Unmarshal (Body rb) zero_openAIResp) as [u [e |]] eqn:E; cbn [snd Response].
    + split; [intros H; exfalso; apply H; reflexivity |].
      intros (body & [= <-] & Hu). rewrite E in Hu. discriminate.
    + split; [| intros _; discriminate].
      intros _. exists (Body rb). rewrite E. split; reflexivity.
  - split; [intros H; exfalso; apply H; reflexivity
           | intros (body & Hb & _); discriminate].
Qed.

(** ** When decoding reports a type error *)

Lemma find_index_bound {A : Type} (p : A -> bool) (l : list A) (i : nat) :
  json.find_index p l = Some i -> (i < List.length l)%nat.
Proof.
  revert i. induction l as [| a l IH]; intros i H; simpl in H; [discriminate |].
  destruct (p a).
  - injection H as <-. simpl. lia.
  - destruct (json.find_index p l) as [j |]; [| discriminate].
    injection H as <-. specialize (IH j eq_refl). simpl. lia.
Qed.

Lemma lookupField_bound (fields : list string) (name : bytes) (i : nat) :
  json.lookupField fields name = Some i -> (i < List.length fields)%nat.
Proof.
  unfold json.lookupField. intros H.
  destruct (json.find_index _ fields) as [j |] eqn:E.
  - injection H as <-. apply (find_index_bound _ _ _ E).
  - apply (find_index_bound _ _ _ H).
Qed.

Lemma saveError_saved (d : json.decodeState) (e : json.Error) :
  json.savedError (json.saveError d e) <> None.
Proof.
  unfold json.saveError. destruct (json.savedError d) eqn:E; simpl; congruence.
Qed.

Lemma value_int_accepts (d : json.decodeState) (v : json.value) (cur : Z) :
  json.savedError (fst (json.value_int d v cur)) = None
  <-> json.savedError d = None /\ count_accepted v = true.
Proof.
  destruct v as [| | | lit | raw | vs | ms]; cbn [json.value_int count_accepted fst];
    try (split; [intros H; exfalso; exact (saveError_saved _ _ H)
                | intros [_ H]; discriminate]).
  - tauto.
  - destruct (strconv.ParseInt lit) as [n | e]; cbn [fst]; [tauto |].
    split; [intros H; exfalso; exact (saveError_saved _ _ H) | intros [_ H]; discriminate].
Qed.

Section Accepting.

Context {T : Type} (fields : list string)
        (field : json.decodeState -> nat -> json.value -> T -> json.decodeState * T)
        (ok : json.value -> bool).

Hypothesis field_accepts :
  forall d i v cur, (i < List.length fields)%nat -> keys_ok v = true ->
    (json.savedError (fst (field d i v cur)) = None
     <-> json.savedError d = None /\ ok v = true).

Lemma object_loop_accepts (ms : list (bytes * json.value)) :
  forall d cur,
    forallb (fun m => string_body (fst m) && keys_ok (snd m)) ms = true ->
    (json.savedError (fst (json.object_loop fields field d ms cur)) = None
     <-> json.savedError d = None /\ forallb (member_accepted fields ok) ms = true).
Proof.
  induction ms as [| [k v] ms IH]; intros d cur Hk; [simpl; tauto |].
  cbn [forallb fst snd] in Hk. apply andb_true_iff in Hk as [Hkv Hms].
  apply andb_true_iff in Hkv as [Hkey Hv].
  cbn [json.object_loop forallb]. unfold member_accepted at 1, selected. cbn [fst snd].
  pose proof (unquoteBytes_total k Hkey) as Hu.
  destruct (json.unquoteBytes k) as [name |]; [clear Hu | congruence].
  destruct (json.lookupField fields name) as [i |] eqn:El.
  - pose proof (field_accepts d i v cur (lookupField_bound _ _ _ El) Hv) as Hf.
    destruct (field d i v cur) as [d' cur']. cbn [fst] in Hf.
    rewrite (IH d' cur' Hms), Hf, andb_true_iff. tauto.
  - rewrite (IH d cur Hms). cbn [andb]. tauto.
Qed.

Lemma value_struct_accepts (d : json.decodeState) (v : json.value) (cur : T) :
  keys_ok v = true ->
  (json.savedError (fst (json.value_struct (json.object_loop fields field) d v cur)) = None
   <-> json.savedError d = None /\ struct_accepted fields ok v = true).
Proof.
  intros Hk.
  destruct v as [| | | lit | raw | vs | ms]; cbn [json.value_struct struct_accepted fst];
    try (split; [intros H; exfalso; exact (saveError_saved _ _ H)
                | intros [_ H]; discriminate]).
  - tauto.
  - apply object_loop_accepts. exact Hk.
Qed.

End Accepting.

Lemma Usage_field_accepts (d : json.decodeState) (i : nat) (v : json.value) (u : UsageT) :
  (i < List.length Usage_fields)%nat ->
  (json.savedError (fst (Usage_field d i v u)) = None
   <-> json.savedError d = None /\ count_accepted v = true).
Proof.
  intros Hi. unfold Usage_field.
  destruct i as [| [| [| i]]]; [| | | simpl in Hi; lia].
  - pose proof (value_int_accepts d v (PromptTokens u)) as H.
    destruct (json.value_int d v (PromptTokens u)). exact H.
  - pose proof (value_int_accepts d v (TotalTokens u)) as H.
    destruct (json.value_int d v (TotalTokens u)). exact H.
  - pose proof (value_int_accepts d v (CompletionTokens u)) as H.
    destruct (json.value_int d v (CompletionTokens u)). exact H.
Qed.

Lemma decode_Usage_accepts (d : json.decodeState) (v : json.value) (u : UsageT) :
  keys_ok v = true ->
  (json.savedError (fst (decode_Usage d v u)) = None
   <-> json.savedError d = None /\ usage_accepted v = true).
Proof.
  intros Hk. unfold decode_Usage, usage_accepted.
  apply value_struct_accepts; [| exact Hk].
  intros d0 i v0 cur Hi _. apply Usage_field_accepts. exact Hi.
Qed.

Lemma decode_openAIResp_accepts (d : json.decodeState) (v : json.value) (r : openAIRespT) :
  keys_ok v = true ->
  (json.savedError (fst (decode_openAIResp d v r)) = None
   <-> json.savedError d = None /\ body_accepted v = true).
Proof.
  intros Hk. unfold decode_openAIResp, body_accepted.
  apply value_struct_accepts; [| exact Hk].
  intros d0 i v0 cur Hi Hk0. unfold openAIResp_field.
  destruct i as [| i]; [| simpl in Hi; lia].
  pose proof (decode_Usage_accepts d0 v0 (Usage cur) Hk0) as H.
  destruct (decode_Usage d0 v0 (Usage cur)). exact H.
Qed.

Lemma Unmarshal_accepts (body : bytes) (v : openAIRespT) :
  snd (Unmarshal body v) = None
  <-> exists j, json.checkValid body = json.Scanned j /\ body_accepted j = true.
Proof.
  unfold Unmarshal.
  destruct (json.checkValid body) as [j | |] eqn:E;
    try (split; [discriminate | intros (j & Hj & _); discriminate]).
  pose proof (decode_openAIResp_accepts {| json.savedError := None |} j v
                (checkValid_keys body j E)) as H.
  destruct (decode_openAIResp {| json.savedError := None |} j v) as [d v'].
  cbn [fst snd] in *. rewrite H. split.
  - intros [_ Hb]. exists j. split; [reflexivity | exact Hb].
  - intros (j' & [= <-] & Hb). split; [reflexivity | exact Hb].
Qed.

(** X8.  Headers are set for a complete response body exactly when the
    body is valid JSON whose top level is [null], or an object in which
    every value under a key that selects [usage] is [null] or an object in
    which every value under a key that selects a count is [null] or a
    number literal that [strconv.ParseInt] accepts.  One value of another
    kind anywhere among them, and no header is set. *)
Theorem headers_iff_body_accepted (body : bytes) :
  mutation_of (decision (ResponseBodyCb body true)) <> None
  <-> exists j, json.checkValid body = json.Scanned j /\ body_accepted j = true.
Proof.
  rewrite <- (Unmarshal_accepts body zero_openAIResp), decision_complete_body.
  destruct (Unmarshal body zero_openAIResp) as [r [e |]]; cbn [snd]; split;
    intros H; try discriminate; try reflexivity.
  exfalso. apply H. reflexivity.
Qed.

(** ** The counts that decoding stores *)

Lemma last_cons_default {A : Type} (l : list A) :
  forall x d, last (x :: l) d = last l x.
Proof.
  induction l as [| y l IH]; intros x d; [reflexivity |].
  change (last (x :: y :: l) d) with (last (y :: l) d).
  rewrite (IH y d), (IH y x). reflexivity.
Qed.

Lemma last_app_default {A : Type} (a b : list A) :
  forall d, last (a ++ b) d = last b (last a d).
Proof.
  induction a as [| x a IH]; intros d; [reflexivity |].
  change ((x :: a) ++ b) with (x :: a ++ b).
  rewrite !last_cons_default. apply IH.
Qed.

Lemma value_int_last (d : json.decodeState) (v : json.value) (cur : Z) :
  snd (json.value_int d v cur) = last (int_of v) cur.
Proof.
  destruct v as [| | | lit | raw | vs | ms]; try reflexivity.
  cbn [json.value_int int_of]. destruct (strconv.ParseInt lit); reflexivity.
Qed.

Lemma Usage_field_get (d : json.decodeState) (j : nat) (v : json.value) (u : UsageT)
    (i : nat) :
  (i < 3)%nat ->
  Usage_get i (snd (Usage_field d j v u))
  = if Nat.eqb i j then last (int_of v) (Usage_get i u) else Usage_get i u.
Proof.
  intros Hi. unfold Usage_field.
  destruct j as [| [| [| j]]].
  - pose proof (value_int_last d v (PromptTokens u)) as H.
    destruct (json.value_int d v (PromptTokens u)) as [d' n]. cbn [snd] in *. subst n.
    destruct i as [| [| [| i]]]; [reflexivity | reflexivity | reflexivity | lia].
  - pose proof (value_int_last d v (TotalTokens u)) as H.
    destruct (json.value_int d v (TotalTokens u)) as [d' n]. cbn [snd] in *. subst n.
    destruct i as [| [| [| i]]]; [reflexivity | reflexivity | reflexivity | lia].
  - pose proof (value_int_last d v (CompletionTokens u)) as H.
    destruct (json.value_int d v (CompletionTokens u)) as [d' n]. cbn [snd] in *. subst n.
    destruct i as [| [| [| i]]]; [reflexivity | reflexivity | reflexivity | lia].
  - destruct i as [| [| [| i]]]; [reflexivity | reflexivity | reflexivity | lia].
Qed.

(** The loop over the members of an object, when field [j] of the target
    is updated from a value [v] by [upd v]: the target after the loop is
    the target after the updates from the values under the keys that
    select the field, in order. *)
Section Storing.

Context {T : Type} (fields : list string)
        (field : json.decodeState -> nat -> json.value -> T -> json.decodeState * T)
        (get : T -> Z) (j : nat) (ints : json.value -> list Z).

Hypothesis field_get :
  forall d i v cur, keys_ok v = true ->
    get (snd (field d i v cur)) = if Nat.eqb j i then last (ints v) (get cur) else get cur.

Lemma object_loop_get (ms : list (bytes * json.value)) :
  forall d cur,
    forallb (fun m => string_body (fst m) && keys_ok (snd m)) ms = true ->
    get (snd (json.object_loop fields field d ms cur))
    = last (flat_map ints (values_at fields j (json.VObject ms))) (get cur).
Proof.
  induction ms as [| [k v] ms IH]; intros d cur Hk; [reflexivity |].
  cbn [forallb fst snd] in Hk. apply andb_true_iff in Hk as [Hkv Hms].
  apply andb_true_iff in Hkv as [Hkey Hv].
  cbn [json.object_loop values_at filter]. unfold selects at 1, selected. cbn [fst snd].
  pose proof (unquoteBytes_total k Hkey) as Hu.
  destruct (json.unquoteBytes k) as [name |]; [clear Hu | congruence].
  destruct (json.lookupField fields name) as [i |] eqn:El.
  - pose proof (field_get d i v cur Hv) as Hf.
    destruct (field d i v cur) as [d' cur']. cbn [snd] in Hf.
    rewrite (IH d' cur' Hms), Hf. cbn [values_at].
    destruct (Nat.eqb j i); [| reflexivity].
    cbn [map flat_map]. rewrite last_app_default. reflexivity.
  - apply (IH d cur Hms).
Qed.

Lemma value_struct_get (d : json.decodeState) (v : json.value) (cur : T) :
  keys_ok v = true ->
  get (snd (json.value_struct (json.object_loop fields field) d v cur))
  = last (flat_map ints (values_at fields j v)) (get cur).
Proof.
  intros Hk. destruct v as [| | | lit | raw | vs | ms]; try reflexivity.
  apply object_loop_get. exact Hk.
Qed.

End Storing.

Lemma decode_Usage_get (d : json.decodeState) (v : json.value) (u : UsageT) (i : nat) :
  (i < 3)%nat -> keys_ok v = true ->
  Usage_get i (snd (decode_Usage d v u))
  = last (flat_map int_of (values_at Usage_fields i v)) (Usage_get i u).
Proof.
  intros Hi Hk. unfold decode_Usage.
  apply (value_struct_get Usage_fields Usage_field (Usage_get i) i int_of); [| exact Hk].
  intros d0 j v0 cur _. apply Usage_field_get. exact Hi.
Qed.

Lemma flat_map_flat_map {A B C : Type} (f : B -> list C) (g : A -> list B) (l : list A) :
  flat_map f (flat_map g l) = flat_map (fun x => flat_map f (g x)) l.
Proof.
  induction l as [| x l IH]; [reflexivity |].
  cbn [flat_map]. rewrite flat_map_app, IH. reflexivity.
Qed.

Lemma decode_openAIResp_get (d : json.decodeState) (v : json.value) (r : openAIRespT)
    (i : nat) :
  (i < 3)%nat -> keys_ok v = true ->
  Usage_get i (Usage (snd (decode_openAIResp d v r)))
  = last (count_values i v) (Usage_get i (Usage r)).
Proof.
  intros Hi Hk. unfold decode_openAIResp, count_values. rewrite flat_map_flat_map.
  apply (value_struct_get openAIResp_fields openAIResp_field
           (fun r => Usage_get i (Usage r)) 0%nat
           (fun u => flat_map int_of (values_at Usage_fields i u))); [| exact Hk].
  intros d0 j v0 cur Hk0. unfold openAIResp_field.
  destruct j as [| j]; [| reflexivity].
  pose proof (decode_Usage_get d0 v0 (Usage cur) i Hi Hk0) as H.
  destruct (decode_Usage d0 v0 (Usage cur)) as [d' u]. exact H.
Qed.

Lemma Usage_by_get (u : UsageT) :
  u = {| PromptTokens := Usage_get 0 u; TotalTokens := Usage_get 1 u;
         CompletionTokens := Usage_get 2 u |}.
Proof. destruct u; reflexivity. Qed.

Lemma Unmarshal_counts (body : bytes) (j : json.value) :
  json.checkValid body = json.Scanned j ->
  fst (Unmarshal body zero_openAIResp)
  = {| Usage := {| PromptTokens := last (count_values 0 j) 0;
                   TotalTokens := last (count_values 1 j) 0;
                   CompletionTokens := last (count_values 2 j) 0 |} |}.
Proof.
  intros E. unfold Unmarshal. rewrite E.
  pose proof (checkValid_keys body j E) as Hk.
  pose proof (decode_openAIResp_get {| json.savedError := None |} j zero_openAIResp 0
                ltac:(lia) Hk) as H0.
  pose proof (decode_openAIResp_get {| json.savedError := None |} j zero_openAIResp 1
                ltac:(lia) Hk) as H1.
  pose proof (decode_openAIResp_get {| json.savedError := None |} j zero_openAIResp 2
                ltac:(lia) Hk) as H2.
  destruct (decode_openAIResp {| json.savedError := None |} j zero_openAIResp) as [d [u]].
  cbn [fst snd Usage] in *. rewrite (Usage_by_get u), H0, H1, H2. reflexivity.
Qed.

(** X9.  For a complete response body that is valid JSON, each header
    carries the last integer that the body gives for its count: the last
    number literal accepted by [strconv.ParseInt] under a key that selects
    the count, in the objects under the keys that select [usage], in the
    order of the text; and [0] when the body gives none.  Members may come
    in any order, be repeated, hold [null] or be missing. *)
Theorem headers_carry_last_values (body : bytes) (j : json.value) :
  json.checkValid body = json.Scanned j ->
  body_accepted j = true ->
  set_headers_of (decision (ResponseBodyCb body true))
  = usage_headers (strconv.Itoa (last (count_values 0 j) 0))
                  (strconv.Itoa (last (count_values 1 j) 0))
                  (strconv.Itoa (last (count_values 2 j) 0)).
Proof.
  intros E Hb. rewrite decision_complete_body.
  pose proof (Unmarshal_counts body j E) as Hc.
  pose proof (proj2 (Unmarshal_accepts body zero_openAIResp)
                (ex_intro _ j (conj E Hb))) as He.
  destruct (Unmarshal body zero_openAIResp) as [r e]. cbn [fst snd] in *.
  subst r e. reflexivity.
Qed.

(** Witness of X9: the counts out of order, one of them given twice, one
    [null], one negative and under a key in capitals. *)
Lemma headers_carry_last_values_witness :
  set_headers_of
    (decision
       (ResponseBodyCb
          (render
             (json.VObject
                [ (key "usage",
                   json.VObject [ (key "total_tokens", number 7);
                                  (key "prompt_tokens", json.VNull);
                                  (key "COMPLETION_TOKENS", number (-3));
                                  (key "total_tokens", number 9) ]) ]))
          true))
  = usage_headers "0" "9" "-3".
Proof.
  apply (headers_carry_last_values
           (render
              (json.VObject
                 [ (key "usage",
                    json.VObject [ (key "total_tokens", number 7);
                                   (key "prompt_tokens", json.VNull);
                                   (key "COMPLETION_TOKENS", number (-3));
                                   (key "total_tokens", number 9) ]) ]))
           (json.VObject
              [ (key "usage",
                 json.VObject [ (key "total_tokens", number 7);
                                (key "prompt_tokens", json.VNull);
                                (key "COMPLETION_TOKENS", number (-3));
                                (key "total_tokens", number 9) ]) ]));
    vm_compute; reflexivity.
Defined.

(** ** Keys are matched without regard to case *)

Lemma foldName_loop_ascii (k : bytes) :
  forall fuel, (List.length k <= fuel)%nat -> forallb is_ascii k = true ->
    json.foldName_loop fuel k = map to_upper k.
Proof.
  induction k as [| c k IH]; intros fuel Hf Ha; [destruct fuel; reflexivity |].
  cbn [forallb] in Ha. apply andb_true_iff in Ha as [Hc Hk].
  destruct fuel as [| fuel]; [simpl in Hf; lia |].
  cbn [json.foldName_loop map]. unfold is_ascii in Hc. rewrite Hc.
  unfold to_upper at 1. f_equal. apply IH; [simpl in Hf; lia | exact Hk].
Qed.

Lemma foldName_ascii (k : bytes) :
  forallb is_ascii k = true -> json.foldName k = map to_upper k.
Proof. intros H. apply foldName_loop_ascii; [lia | exact H]. Qed.

Lemma find_index_In {A : Type} (p : A -> bool) (l : list A) (i : nat) :
  json.find_index p l = Some i -> exists a, In a l /\ p a = true.
Proof.
  revert i. induction l as [| a l IH]; intros i H; simpl in H; [discriminate |].
  destruct (p a) eqn:E.
  - exists a. split; [left; reflexivity | exact E].
  - destruct (json.find_index p l) as [j |]; [| discriminate].
    destruct (IH j eq_refl) as (b & Hb & Hp). exists b. split; [right; exact Hb | exact Hp].
Qed.

(** With fields whose folded names differ, the exact match changes
    nothing: the field is the one whose folded name is the folded key. *)
Lemma lookupField_folded (fields : list string) (name : bytes) :
  distinct_folded fields ->
  json.lookupField fields name
  = json.find_index
      (fun n => bytes_eqb (json.foldName (json.lit_bytes n)) (json.foldName name)) fields.
Proof.
  unfold distinct_folded, json.lookupField.
  induction fields as [| a l IH]; intros Hd; [reflexivity |].
  cbn [map] in Hd. apply NoDup_cons_iff in Hd as [Ha Hl].
  specialize (IH Hl). cbn [json.find_index].
  destruct (bytes_eqb (json.lit_bytes a) name) eqn:E1.
  - apply bytes_eqb_eq in E1. rewrite E1, bytes_eqb_refl. reflexivity.
  - destruct (json.find_index (fun n => bytes_eqb (json.lit_bytes n) name) l) as [i |] eqn:E2.
    + cbn [option_map].
      destruct (bytes_eqb (json.foldName (json.lit_bytes a)) (json.foldName name)) eqn:E3.
      * exfalso. apply Ha. apply bytes_eqb_eq in E3. rewrite E3.
        destruct (find_index_In _ _ _ E2) as (b & Hb & Hp). apply bytes_eqb_eq in Hp.
        rewrite <- Hp. apply (in_map (fun n => json.foldName (json.lit_bytes n)) l b Hb).
      * destruct IH. reflexivity.
    + cbn [option_map]. destruct IH. reflexivity.
Qed.

Lemma Usage_fields_distinct : distinct_folded Usage_fields.
Proof.
  unfold distinct_folded. repeat constructor; vm_compute; intuition discriminate.
Qed.

Lemma openAIResp_fields_distinct : distinct_folded openAIResp_fields.
Proof.
  unfold distinct_folded. repeat constructor; vm_compute; intuition discriminate.
Qed.

(** X10.  The names of the members are matched without regard to the
    case of ASCII letters: two names made of ASCII characters that agree
    once put in upper case select the same field of the usage record, and
    the same field of the response. *)
Theorem keys_match_ignoring_case (k k' : bytes) :
  forallb is_ascii k = true ->
  forallb is_ascii k' = true ->
  map to_upper k = map to_upper k' ->
  json.lookupField Usage_fields k = json.lookupField Usage_fields k'
  /\ json.lookupField openAIResp_fields k = json.lookupField openAIResp_fields k'.
Proof.
  intros Hk Hk' E.
  rewrite !(lookupField_folded Usage_fields) by exact Usage_fields_distinct.
  rewrite !(lookupField_folded openAIResp_fields) by exact openAIResp_fields_distinct.
  rewrite (foldName_ascii k Hk), (foldName_ascii k' Hk'), E. split; reflexivity.
Qed.

(** Witness of X10: [Prompt_Tokens] selects what [prompt_tokens]
    selects. *)
Lemma keys_match_ignoring_case_witness :
  json.lookupField Usage_fields (key "Prompt_Tokens") = Some 0%nat.
Proof.
  rewrite (proj1 (keys_match_ignoring_case (key "Prompt_Tokens") (key "prompt_tokens")
                    eq_refl eq_refl eq_refl)).
  reflexivity.
Defined.

(** ** Reading the header values back *)

Lemma ParseUint_loop_digits64 (l : bytes) :
  forall acc, forallb is_digit l = true -> 0 <= acc -> decval acc l <= strconv.maxUint64 ->
    strconv.ParseUint_loop l acc = inl (decval acc l).
Proof.
  induction l as [| c l IH]; intros acc Hd Hacc Hmax; simpl; [reflexivity |].
  simpl in Hd. apply andb_true_iff in Hd as [Hc Hl]. rewrite Hc.
  apply is_digit_range in Hc.
  simpl in Hmax.
  pose proof (decval_mono l (acc * 10 + (b2z c - 48)) Hl ltac:(lia)) as Hm.
  unfold strconv.maxUint64 in *.
  change (2 ^ 64) with 18446744073709551616 in *.
  change ((18446744073709551616 - 1) / 10 + 1) with 1844674407370955162.
  destruct (Z.geb_spec acc 1844674407370955162) as [Hbig | _]; [lia |].
  rewrite Z.mod_small by lia.
  destruct (Z.ltb_spec (acc * 10 + (b2z c - 48)) (acc * 10)) as [Hbad | _]; [lia |].
  destruct (Z.gtb_spec (acc * 10 + (b2z c - 48)) (18446744073709551616 - 1)) as [Hbad | _];
    [lia |].
  simpl. apply IH; [exact Hl | lia | exact Hmax].
Qed.

(** [ParseInt] reads back what [FormatInt] printed, for every [int]. *)
Lemma ParseInt_FormatInt_int (n : Z) :
  strconv.in_int n -> strconv.ParseInt (strconv.FormatInt n) = inl n.
Proof.
  intros [Hlo Hhi]. destruct (Z.le_gt_cases 0 n) as [Hpos | Hneg].
  - apply ParseInt_FormatInt. lia.
  - unfold strconv.FormatInt. destruct (Z.ltb_spec n 0) as [_ | Hge]; [| lia].
    destruct (FormatUint_spec (- n)) as (c & l & E & Hd & Hv & _); [lia |].
    rewrite E. unfold strconv.ParseInt.
    change (Ascii.eqb "-" "-") with true. change (Ascii.eqb "-" "+") with false.
    cbn [orb]. unfold strconv.ParseUint.
    unfold strconv.minInt in Hlo.
    rewrite ParseUint_loop_digits64;
      [| exact Hd | lia | rewrite Hv; unfold strconv.maxUint64; lia].
    rewrite Hv. unfold strconv.IntSize. change (2 ^ (64 - 1)) with (2 ^ 63).
    cbn [negb andb].
    destruct (Z.gtb_spec (- n) (2 ^ 63)) as [Hbig | _]; [lia |].
    f_equal. lia.
Qed.

(** X11.  The header values can be read back: for every complete
    response body that [json.Unmarshal] accepts, [strconv.ParseInt] applied
    to the value of each of the three headers gives the count that decoding
    stored, negative counts and the smallest [int] included. *)
Theorem header_values_read_back (body : bytes) (r : openAIRespT) :
  Unmarshal body zero_openAIResp = (r, None) ->
  map read_back (set_headers_of (decision (ResponseBodyCb body true)))
  = [ Some (inl (PromptTokens (Usage r)));
      Some (inl (TotalTokens (Usage r)));
      Some (inl (CompletionTokens (Usage r))) ].
Proof.
  intros H. rewrite decision_complete_body, H.
  pose proof (Unmarshal_range body) as (HP & HT & HC). rewrite H in HP, HT, HC.
  cbn [fst] in HP, HT, HC.
  unfold set_headers_of, mutation_of, usage_headers, header, read_back, header_value.
  cbn [Response BodyResponse_Response HeaderMutation_ SetHeaders map Header Value option_map].
  rewrite !Itoa_bytes, !ParseInt_FormatInt_int by assumption. reflexivity.
Qed.

(** Witness of X11: the smallest [int] as a count. *)
Lemma header_values_read_back_witness :
  map read_back
      (set_headers_of
         (decision
            (ResponseBodyCb (render (usage_document [] [] strconv.minInt 0 (-1))) true)))
  = [ Some (inl strconv.minInt); Some (inl 0); Some (inl (-1)) ].
Proof.
  apply (header_values_read_back
           (render (usage_document [] [] strconv.minInt 0 (-1)))
           {| Usage := {| PromptTokens := strconv.minInt; TotalTokens := 0;
                          CompletionTokens := -1 |} |}).
  vm_compute. reflexivity.
Defined.

(** ** The header carries the number as the body writes it *)

Lemma b2z_inj (a b : ascii) : b2z a = b2z b -> a = b.
Proof.
  unfold b2z. intros H. apply N2Z.inj in H.
  rewrite <- (ascii_N_embedding a), <- (ascii_N_embedding b), H. reflexivity.
Qed.

Lemma decval_snoc (l : bytes) (x : ascii) (acc : Z) :
  decval acc (l ++ [x]) = decval acc l * 10 + (b2z x - 48).
Proof. rewrite decval_app. reflexivity. Qed.

Lemma decval_pos (c : ascii) (l : bytes) :
  forallb is_digit (c :: l) = true -> c <> "0"%char -> 0 < decval 0 (c :: l).
Proof.
  intros Hd Hc. cbn [forallb] in Hd. apply andb_true_iff in Hd as [Hdc Hl].
  pose proof (proj1 (is_digit_range c) Hdc) as Hr.
  assert (b2z c <> 48) as Hn by (intros E; apply Hc; apply (digit_zero c Hdc E)).
  cbn [decval]. pose proof (decval_mono l (0 * 10 + (b2z c - 48)) Hl ltac:(lia)). lia.
Qed.

Lemma no_leading_zero_front (a : bytes) (x : ascii) :
  no_leading_zero (a ++ [x]) -> no_leading_zero a.
Proof. destruct a; [exact (fun _ => I) | exact (fun H => H)]. Qed.

(** Two runs of digits without a leading zero that have the same value
    are the same. *)
Lemma canonical_unique (a : bytes) :
  forall b, forallb is_digit a = true -> forallb is_digit b = true ->
    no_leading_zero a -> no_leading_zero b ->
    decval 0 a = decval 0 b -> a = b.
Proof.
  induction a as [| x a IH] using rev_ind; intros b Ha Hb Za Zb E.
  - destruct b as [| c b]; [reflexivity |].
    pose proof (decval_pos c b Hb Zb) as Hp. cbn [decval] in E. cbn [decval] in Hp. lia.
  - destruct b as [| y b _] using rev_ind.
    + destruct a as [| c a].
      * exfalso. cbn [app forallb] in Ha. apply andb_true_iff in Ha as [Hx _].
        cbn [app no_leading_zero] in Za. cbn [app decval] in E.
        pose proof (proj1 (is_digit_range x) Hx).
        apply Za. apply (digit_zero x Hx). lia.
      * exfalso. pose proof (decval_pos c (a ++ [x]) Ha Za) as Hp.
        change ((c :: a) ++ [x]) with (c :: a ++ [x]) in E. cbn [decval] in E, Hp. lia.
    + rewrite !decval_snoc in E.
      rewrite forallb_app in Ha, Hb.
      apply andb_true_iff in Ha as [Ha Hx]. apply andb_true_iff in Hb as [Hb Hy].
      cbn [forallb] in Hx, Hy. rewrite andb_true_r in Hx, Hy.
      pose proof (proj1 (is_digit_range x) Hx). pose proof (proj1 (is_digit_range y) Hy).
      assert (decval 0 a = decval 0 b /\ b2z x = b2z y) as [Ev Ed] by lia.
      rewrite (IH b Ha Hb (no_leading_zero_front a x Za) (no_leading_zero_front b y Zb) Ev).
      rewrite (b2z_inj x y Ed). reflexivity.
Qed.

(** [FormatUint] prints a run of digits without a leading zero as it
    is. *)
Lemma FormatUint_decval (c : ascii) (l : bytes) :
  forallb is_digit (c :: l) = true -> (c = "0"%char -> l = []) ->
  strconv.FormatUint (decval 0 (c :: l)) = c :: l.
Proof.
  intros Hd Hz. destruct (ascii_dec c "0") as [E | Hc].
  - rewrite (Hz E), E. reflexivity.
  - pose proof (decval_pos c l Hd Hc) as Hp.
    destruct (FormatUint_spec (decval 0 (c :: l))) as (c' & l' & E & Hd' & Hv & Hz'); [lia |].
    rewrite E. apply canonical_unique; try assumption.
    intros E0. destruct (Hz' E0) as [_ H0]. lia.
Qed.

(** What [ParseUint] accepts is a run of digits, and it returns their
    value. *)
Lemma ParseUint_loop_inv (s : bytes) :
  forall acc m, 0 <= acc -> strconv.ParseUint_loop s acc = inl m ->
    forallb is_digit s = true /\ m = decval acc s.
Proof.
  induction s as [| c s IH]; intros acc m Hacc H; cbn [strconv.ParseUint_loop] in H.
  - injection H as <-. split; reflexivity.
  - cbv zeta in H. destruct (is_digit c) eqn:Hc; [| discriminate].
    pose proof (proj1 (is_digit_range c) Hc) as Hr.
    unfold strconv.maxUint64 in H.
    change (2 ^ 64) with 18446744073709551616 in H.
    change ((18446744073709551616 - 1) / 10 + 1) with 1844674407370955162 in H.
    destruct (Z.geb_spec acc 1844674407370955162) as [Hbig | Hsmall]; [discriminate |].
    destruct (Z.ltb_spec ((acc * 10 + (b2z c - 48)) mod 18446744073709551616) (acc * 10))
      as [Hw | Hw]; [discriminate |].
    cbn [orb] in H.
    destruct (Z.gtb_spec ((acc * 10 + (b2z c - 48)) mod 18446744073709551616)
                         (18446744073709551616 - 1)) as [Hg | Hg]; [discriminate |].
    assert ((acc * 10 + (b2z c - 48)) mod 18446744073709551616 = acc * 10 + (b2z c - 48))
      as Hm.
    { apply Z.mod_small. split; [lia |].
      destruct (Z.lt_ge_cases (acc * 10 + (b2z c - 48)) 18446744073709551616) as [Hlt | Hge];
        [exact Hlt | exfalso].
      assert ((acc * 10 + (b2z c - 48)) mod 18446744073709551616
              = acc * 10 + (b2z c - 48) - 18446744073709551616) as Hwrap.
      { symmetry. apply (Z.mod_unique_pos _ _ 1); lia. }
      lia. }
    rewrite Hm in H. apply IH in H; [| lia].
    destruct H as [Hs ->]. cbn [forallb decval]. rewrite Hc, Hs. split; reflexivity.
Qed.

Lemma digit_after_zero (x : ascii) :
  is_digit x = true -> json.numNext json.st0 x = json.EndNumber.
Proof. ascii_cases x. Qed.

(** A number literal of JSON has no leading zero. *)
Lemma number_ok_canonical (c : ascii) (l : bytes) :
  is_digit c = true -> forallb is_digit l = true ->
  number_ok (c :: l) = true \/ number_ok ("-"%char :: c :: l) = true ->
  c = "0"%char -> l = [].
Proof.
  intros Hc Hl H ->. destruct l as [| x l]; [reflexivity | exfalso].
  cbn [forallb] in Hl. apply andb_true_iff in Hl as [Hx _].
  destruct H as [H | H]; unfold number_ok, json.scanNumber in H;
    cbn [json.scanNumberFrom] in H.
  - change (json.numNext json.stBegin "0") with (json.Goto json.st0) in H.
    cbv beta iota in H. cbn [json.scanNumberFrom] in H.
    rewrite (digit_after_zero x Hx) in H. cbn [json.cons_lit app] in H. discriminate.
  - change (json.numNext json.stBegin "-") with (json.Goto json.stNeg) in H.
    cbv beta iota in H. cbn [json.scanNumberFrom] in H.
    change (json.numNext json.stNeg "0") with (json.Goto json.st0) in H.
    cbv beta iota in H. cbn [json.scanNumberFrom] in H.
    rewrite (digit_after_zero x Hx) in H. cbn [json.cons_lit app] in H. discriminate.
Qed.

(** The composition of the two library calls: a number literal that
    [ParseInt] accepts is printed back by [FormatInt] as it was written,
    [-0] apart. *)
Lemma FormatInt_ParseInt (lit : bytes) (n : Z) :
  number_ok lit = true -> strconv.ParseInt lit = inl n -> lit <> minus_zero ->
  strconv.FormatInt n = lit.
Proof.
  intros Hok Hp Hmz. destruct lit as [| c s]; [discriminate |].
  unfold strconv.ParseInt in Hp.
  destruct (Ascii.eqb c "+") eqn:Eplus.
  { apply Ascii.eqb_eq in Eplus. subst c.
    unfold number_ok, json.scanNumber in Hok. cbn [json.scanNumberFrom] in Hok.
    change (json.numNext json.stBegin "+") with json.BadNumber in Hok. discriminate. }
  cbn [orb] in Hp.
  destruct (Ascii.eqb c "-") eqn:Eminus.
  - apply Ascii.eqb_eq in Eminus. subst c.
    destruct (strconv.ParseUint s) as [un | [|]] eqn:Eu; try discriminate.
    unfold strconv.ParseUint in Eu. destruct s as [| c l]; [discriminate |].
    apply ParseUint_loop_inv in Eu; [| lia]. destruct Eu as [Hd ->].
    cbn [negb andb] in Hp.
    destruct (decval 0 (c :: l) >? 2 ^ (strconv.IntSize - 1)); [discriminate |].
    assert (n = - decval 0 (c :: l)) as -> by congruence.
    pose proof Hd as Hd'. cbn [forallb] in Hd'. apply andb_true_iff in Hd' as [Hc Hl].
    pose proof (number_ok_canonical c l Hc Hl (or_intror Hok)) as Hz.
    assert (c <> "0"%char) as Hc0.
    { intros E. apply Hmz. rewrite (Hz E), E. reflexivity. }
    pose proof (decval_pos c l Hd Hc0) as Hpos.
    unfold strconv.FormatInt. destruct (Z.ltb_spec (- decval 0 (c :: l)) 0) as [_ | Hge]; [| lia].
    rewrite Z.opp_involutive, FormatUint_decval by assumption. reflexivity.
  - destruct (strconv.ParseUint (c :: s)) as [un | [|]] eqn:Eu; try discriminate.
    unfold strconv.ParseUint in Eu.
    apply ParseUint_loop_inv in Eu; [| lia]. destruct Eu as [Hd ->].
    cbn [negb andb] in Hp.
    destruct (decval 0 (c :: s) >=? 2 ^ (strconv.IntSize - 1)); [discriminate |].
    assert (n = decval 0 (c :: s)) as -> by congruence.
    pose proof Hd as Hd'. cbn [forallb] in Hd'. apply andb_true_iff in Hd' as [Hc Hl].
    pose proof (number_ok_canonical c s Hc Hl (or_introl Hok)) as Hz.
    pose proof (decval_mono (c :: s) 0 Hd ltac:(lia)) as Hnn.
    rewrite FormatInt_nonneg by exact Hnn.
    apply FormatUint_decval; assumption.
Qed.

Lemma EndNumber_final (st : json.numState) (c : ascii) :
  json.numNext st c = json.EndNumber -> json.numFinal st = true.
Proof.
  destruct st; cbn [json.numNext json.numFinal]; intros H; try reflexivity; break_in H.
Qed.

(** What the scanner takes as a number is a number literal. *)
Lemma scanNumberFrom_self (s : bytes) :
  forall st lit r, json.scanNumberFrom st s = Some (lit, r) ->
    json.scanNumberFrom st lit = Some (lit, []).
Proof.
  induction s as [| c s IH]; intros st lit r H; cbn [json.scanNumberFrom] in H.
  - destruct (json.numFinal st) eqn:F; [| discriminate].
    injection H as <- <-. cbn [json.scanNumberFrom]. rewrite F. reflexivity.
  - destruct (json.numNext st c) as [st' | |] eqn:E; [| | discriminate].
    + destruct (json.scanNumberFrom st' s) as [[lit' r'] |] eqn:E'; [| discriminate].
      cbn [json.cons_lit app] in H. injection H as <- <-.
      cbn [json.scanNumberFrom]. rewrite E, (IH st' lit' r' E'). reflexivity.
    + injection H as <- <-. cbn [json.scanNumberFrom].
      rewrite (EndNumber_final st c E). reflexivity.
Qed.

Lemma scanNumber_literal (s lit r : bytes) :
  json.scanNumber s = Some (lit, r) -> number_ok lit = true.
Proof.
  intros H. unfold number_ok, json.scanNumber in *.
  rewrite (scanNumberFrom_self s _ lit r H). apply bytes_eqb_refl.
Qed.

Lemma scan_numbers (fuel : nat) :
  (forall d s v r, json.scanValue fuel d s = json.Scanned (v, r) -> numbers_ok v = true)
  /\ (forall d s vs r, json.scanArrayRest fuel d s = json.Scanned (vs, r) ->
        forallb numbers_ok vs = true)
  /\ (forall d s ms r, json.scanObjectRest fuel d s = json.Scanned (ms, r) ->
        forallb (fun m => numbers_ok (snd m)) ms = true).
Proof.
  induction fuel as [| f (IHv & IHa & IHo)]; [repeat split; discriminate |].
  split; [| split]; intros d s x r H;
    cbn [json.scanValue json.scanArrayRest json.scanObjectRest] in H; unfold json.bind in H;
    break_in H;
    try (unfold json.scanLiteral in H; break_in H);
    injection H as <- <-;
    repeat match goal with
      | H : json.scanValue f _ _ = json.Scanned _ |- _ => apply IHv in H
      | H : json.scanArrayRest f _ _ = json.Scanned _ |- _ => apply IHa in H
      | H : json.scanObjectRest f _ _ = json.Scanned _ |- _ => apply IHo in H
      | H : json.scanNumber _ = Some _ |- _ => apply scanNumber_literal in H
      end;
    cbn [numbers_ok forallb fst snd];
    repeat match goal with
      | H : _ = true |- _ => rewrite H
      end;
    reflexivity.
Qed.

Lemma checkValid_numbers (data : bytes) (v : json.value) :
  json.checkValid data = json.Scanned v -> numbers_ok v = true.
Proof.
  unfold json.checkValid. intros H.
  destruct (json.scanValue (S (List.length data)) 0 data) as [[v' r] | |] eqn:E;
    try discriminate.
  destruct (json.skipSpace r); [| discriminate]. injection H as <-.
  apply (proj1 (scan_numbers _) _ _ _ _ E).
Qed.

Lemma values_at_numbers (fields : list string) (i : nat) (v : json.value) :
  numbers_ok v = true -> forallb numbers_ok (values_at fields i v) = true.
Proof.
  destruct v as [| | | lit | raw | vs | ms]; try (intros _; reflexivity).
  cbn [numbers_ok values_at]. induction ms as [| m ms IH]; intros H; [reflexivity |].
  cbn [forallb] in H. apply andb_true_iff in H as [Hm Hms].
  cbn [filter]. destruct (selects fields i m); [| exact (IH Hms)].
  cbn [map forallb]. rewrite Hm. exact (IH Hms).
Qed.

Lemma flat_map_numbers (f : json.value -> list json.value) (vs : list json.value) :
  (forall v, numbers_ok v = true -> forallb numbers_ok (f v) = true) ->
  forallb numbers_ok vs = true -> forallb numbers_ok (flat_map f vs) = true.
Proof.
  intros Hf. induction vs as [| v vs IH]; intros H; [reflexivity |].
  cbn [forallb] in H. apply andb_true_iff in H as [Hv Hvs].
  cbn [flat_map]. rewrite forallb_app, (Hf v Hv), (IH Hvs). reflexivity.
Qed.

(** Printing the last integer of a list of values gives the text of the
    last of its accepted literals. *)
Lemma FormatInt_last (vs : list json.value) :
  forall d dt,
    forallb numbers_ok vs = true ->
    ~ In minus_zero (flat_map int_text vs) ->
    strconv.FormatInt d = dt ->
    strconv.FormatInt (last (flat_map int_of vs) d) = last (flat_map int_text vs) dt.
Proof.
  induction vs as [| v vs IH]; intros d dt Hn Hz Hd; [exact Hd |].
  cbn [forallb] in Hn. apply andb_true_iff in Hn as [Hv Hvs].
  cbn [flat_map] in *. rewrite !last_app_default.
  apply IH; [exact Hvs | intros Hin; apply Hz; apply in_or_app; right; exact Hin |].
  destruct v as [| | | lit | raw | es | ms]; try exact Hd.
  cbn [int_of int_text] in *. cbn [numbers_ok] in Hv.
  destruct (strconv.ParseInt lit) as [n | e] eqn:E; [| exact Hd].
  cbn [last]. apply FormatInt_ParseInt; [exact Hv | exact E |].
  intros ->. apply Hz. apply in_or_app. left. left. reflexivity.
Qed.

Lemma Itoa_last (i : nat) (j : json.value) :
  numbers_ok j = true ->
  ~ In minus_zero (count_texts i j) ->
  strconv.Itoa (last (count_values i j) 0)
  = string_of_list_ascii (last (count_texts i j) (json.lit_bytes "0")).
Proof.
  intros Hn Hz. unfold strconv.Itoa. f_equal.
  apply FormatInt_last; [| exact Hz | reflexivity].
  apply flat_map_numbers; [apply values_at_numbers |].
  apply values_at_numbers. exact Hn.
Qed.

(** X12.  The header carries the count as the body writes it: for a
    complete response body that is accepted, each header value is,
    character for character, the last number literal that the body gives
    for its count, and [0] when it gives none -- provided no count is
    written [-0], which is sent as [0]. *)
Theorem headers_carry_the_text (body : bytes) (j : json.value) :
  json.checkValid body = json.Scanned j ->
  body_accepted j = true ->
  (forall i, ~ In minus_zero (count_texts i j)) ->
  set_headers_of (decision (ResponseBodyCb body true))
  = usage_headers (string_of_list_ascii (last (count_texts 0 j) (json.lit_bytes "0")))
                  (string_of_list_ascii (last (count_texts 1 j) (json.lit_bytes "0")))
                  (string_of_list_ascii (last (count_texts 2 j) (json.lit_bytes "0"))).
Proof.
  intros E Hb Hz. rewrite decision_complete_body.
  pose proof (Unmarshal_counts body j E) as Hc.
  pose proof (proj2 (Unmarshal_accepts body zero_openAIResp)
                (ex_intro _ j (conj E Hb))) as He.
  pose proof (checkValid_numbers body j E) as Hn.
  destruct (Unmarshal body zero_openAIResp) as [r e]. cbn [fst snd] in *.
  subst r e. cbn [Usage PromptTokens TotalTokens CompletionTokens].
  rewrite !Itoa_last by (try exact Hn; apply Hz). reflexivity.
Qed.

(** Witness of X12: counts written with a minus sign and with many
    digits. *)
Lemma headers_carry_the_text_witness :
  set_headers_of
    (decision
       (ResponseBodyCb
          (render
             (json.VObject
                [ (key "usage",
                   json.VObject
                     [ (key "prompt_tokens", json.VNumber (key "-17"));
                       (key "total_tokens", json.VNumber (key "9223372036854775807")) ]) ]))
          true))
  = usage_headers "-17" "9223372036854775807" "0".
Proof.
  apply (headers_carry_the_text
           (render
              (json.VObject
                 [ (key "usage",
                    json.VObject
                      [ (key "prompt_tokens", json.VNumber (key "-17"));
                        (key "total_tokens",
                         json.VNumber (key "9223372036854775807")) ]) ]))
           (json.VObject
              [ (key "usage",
                 json.VObject
                   [ (key "prompt_tokens", json.VNumber (key "-17"));
                     (key "total_tokens", json.VNumber (key "9223372036854775807")) ]) ]));
    [ vm_compute; reflexivity
    | vm_compute; reflexivity
    | intros [| [| [| i]]]; vm_compute; intuition discriminate ].
Defined.

(** ** A body cut short, a body with something after it *)

Lemma skipSpace_app_cons (p : bytes) :
  forall c p1 q, json.skipSpace p = c :: p1 -> json.skipSpace (p ++ q) = c :: p1 ++ q.
Proof.
  induction p as [| a p IH]; intros c p1 q H; [discriminate |].
  cbn [json.skipSpace app] in *. destruct (json.isSpace a); [apply IH; exact H |].
  injection H as <- <-. reflexivity.
Qed.

Lemma scanString_extends (s r t q : bytes) :
  json.scanString s = Some (r, t) -> json.scanString (s ++ q) = Some (r, t ++ q).
Proof. apply (scanString_app (List.length s)). lia. Qed.

Lemma scanKey_extends (s k r q : bytes) :
  json.scanKey s = Some (k, r) -> json.scanKey (s ++ q) = Some (k, r ++ q).
Proof.
  unfold json.scanKey. intros H.
  destruct (json.skipSpace s) as [| c s1] eqn:E1; [discriminate |].
  rewrite (skipSpace_app_cons s c s1 q E1).
  destruct (Ascii.eqb c dquote); [| discriminate].
  destruct (json.scanString s1) as [[k' r'] |] eqn:E2; [| discriminate].
  rewrite (scanString_extends s1 k' r' q E2).
  destruct (json.skipSpace r') as [| c2 r1] eqn:E3; [discriminate |].
  rewrite (skipSpace_app_cons r' c2 r1 q E3).
  destruct (Ascii.eqb c2 ":"); [| discriminate].
  injection H as <- <-. reflexivity.
Qed.

(** A number that was ended by a byte of the input is not changed by
    what comes after that byte. *)
Lemma scanNumberFrom_extends (s : bytes) :
  forall st l r q, json.scanNumberFrom st s = Some (l, r) -> r <> [] ->
    json.scanNumberFrom st (s ++ q) = Some (l, r ++ q).
Proof.
  induction s as [| c s IH]; intros st l r q H Hr; cbn [json.scanNumberFrom app] in *.
  - destruct (json.numFinal st); [| discriminate]. injection H as <- <-. congruence.
  - destruct (json.numNext st c) as [st' | |]; [| | discriminate].
    + apply cons_lit_Some in H as (l' & H & ->).
      rewrite (IH st' l' r q H Hr). reflexivity.
    + injection H as <- <-. reflexivity.
Qed.

Lemma strip_prefix_extends (w : bytes) :
  forall s r q, json.strip_prefix w s = Some r -> json.strip_prefix w (s ++ q) = Some (r ++ q).
Proof.
  induction w as [| a w IH]; intros s r q H; cbn [json.strip_prefix] in *.
  - injection H as <-. reflexivity.
  - destruct s as [| b s]; [discriminate |]. cbn [app].
    destruct (Ascii.eqb a b); [apply IH; exact H | discriminate].
Qed.

Lemma scanLiteral_extends (w : string) (v0 v : json.value) (s r q : bytes) :
  json.scanLiteral w v0 s = json.Scanned (v, r) ->
  json.scanLiteral w v0 (s ++ q) = json.Scanned (v, r ++ q).
Proof.
  unfold json.scanLiteral. intros H.
  destruct (json.strip_prefix (json.lit_bytes w) s) as [r' |] eqn:E; [| discriminate].
  rewrite (strip_prefix_extends _ _ _ q E). injection H as <- <-. reflexivity.
Qed.

Lemma scanArrayRest_nonempty (f : nat) (d : Z) (vs : list json.value) (r : bytes) :
  forall s, json.scanArrayRest f d s = json.Scanned (vs, r) -> s <> [].
Proof. intros s H ->. destruct f; discriminate. Qed.

Lemma scanObjectRest_nonempty (f : nat) (d : Z) (ms : list (bytes * json.value)) (r : bytes) :
  forall s, json.scanObjectRest f d s = json.Scanned (ms, r) -> s <> [].
Proof. intros s H ->. destruct f; discriminate. Qed.

(** What the scanner has taken is not changed by bytes put after the
    input nor by more fuel, a number that ran to the end of the input
    apart. *)
Lemma scan_extends (f : nat) :
  (forall f' d p v r q, (f <= f')%nat ->
     json.scanValue f d p = json.Scanned (v, r) ->
     r <> [] \/ is_number v = false ->
     json.scanValue f' d (p ++ q) = json.Scanned (v, r ++ q))
  /\ (forall f' d p vs r q, (f <= f')%nat ->
        json.scanArrayRest f d p = json.Scanned (vs, r) ->
        json.scanArrayRest f' d (p ++ q) = json.Scanned (vs, r ++ q))
  /\ (forall f' d p ms r q, (f <= f')%nat ->
        json.scanObjectRest f d p = json.Scanned (ms, r) ->
        json.scanObjectRest f' d (p ++ q) = json.Scanned (ms, r ++ q)).
Proof.
  induction f as [| f (IHv & IHa & IHo)]; [repeat split; discriminate |].
  split; [| split].
  - intros f' d p v r q Hle H Hr. destruct f' as [| f']; [lia |].
    apply le_S_n in Hle.
    cbn [json.scanValue] in H |- *. unfold json.bind in H |- *.
    destruct (json.skipSpace p) as [| c p1] eqn:Esp; [discriminate |].
    rewrite (skipSpace_app_cons p c p1 q Esp).
    destruct (Ascii.eqb c "{").
    { destruct (json.maxNestingDepth <=? d); [discriminate |].
      destruct (json.skipSpace p1) as [| c' p2] eqn:Esp1; [discriminate |].
      rewrite (skipSpace_app_cons p1 c' p2 q Esp1).
      destruct (Ascii.eqb c' "}"); [injection H as <- <-; reflexivity |].
      destruct (json.scanKey p1) as [[k r0] |] eqn:Ek; [| discriminate].
      rewrite (scanKey_extends p1 k r0 q Ek).
      destruct (json.scanValue f (d + 1) r0) as [[v0 r1] | |] eqn:Ev; try discriminate.
      destruct (json.scanObjectRest f (d + 1) r1) as [[ms r2] | |] eqn:Eo; try discriminate.
      rewrite (IHv f' (d + 1) r0 v0 r1 q Hle Ev
                 (or_introl (scanObjectRest_nonempty _ _ _ _ _ Eo))).
      rewrite (IHo f' (d + 1) r1 ms r2 q Hle Eo).
      injection H as <- <-. reflexivity. }
    destruct (Ascii.eqb c "[").
    { destruct (json.maxNestingDepth <=? d); [discriminate |].
      destruct (json.skipSpace p1) as [| c' p2] eqn:Esp1; [discriminate |].
      rewrite (skipSpace_app_cons p1 c' p2 q Esp1).
      destruct (Ascii.eqb c' "]"); [injection H as <- <-; reflexivity |].
      destruct (json.scanValue f (d + 1) p1) as [[v0 r1] | |] eqn:Ev; try discriminate.
      destruct (json.scanArrayRest f (d + 1) r1) as [[vs r2] | |] eqn:Ea; try discriminate.
      rewrite (IHv f' (d + 1) p1 v0 r1 q Hle Ev
                 (or_introl (scanArrayRest_nonempty _ _ _ _ _ Ea))).
      rewrite (IHa f' (d + 1) r1 vs r2 q Hle Ea).
      injection H as <- <-. reflexivity. }
    destruct (Ascii.eqb c dquote).
    { destruct (json.scanString p1) as [[raw r0] |] eqn:Es; [| discriminate].
      rewrite (scanString_extends p1 raw r0 q Es). injection H as <- <-. reflexivity. }
    destruct (Ascii.eqb c "-" || is_digit c).
    { destruct (json.scanNumber (c :: p1)) as [[lit r0] |] eqn:En; [| discriminate].
      injection H as <- <-.
      destruct Hr as [Hr | Hr]; [| discriminate].
      unfold json.scanNumber in *.
      change (c :: p1 ++ q) with ((c :: p1) ++ q).
      rewrite (scanNumberFrom_extends _ _ _ _ q En Hr). reflexivity. }
    destruct (Ascii.eqb c "t").
    { change (c :: p1 ++ q) with ((c :: p1) ++ q). apply scanLiteral_extends. exact H. }
    destruct (Ascii.eqb c "f").
    { change (c :: p1 ++ q) with ((c :: p1) ++ q). apply scanLiteral_extends. exact H. }
    destruct (Ascii.eqb c "n"); [| discriminate].
    change (c :: p1 ++ q) with ((c :: p1) ++ q). apply scanLiteral_extends. exact H.
  - intros f' d p vs r q Hle H. destruct f' as [| f']; [lia |].
    apply le_S_n in Hle.
    cbn [json.scanArrayRest] in H |- *. unfold json.bind in H |- *.
    destruct (json.skipSpace p) as [| c p1] eqn:Esp; [discriminate |].
    rewrite (skipSpace_app_cons p c p1 q Esp).
    destruct (Ascii.eqb c ",").
    + destruct (json.scanValue f d p1) as [[v0 r1] | |] eqn:Ev; try discriminate.
      destruct (json.scanArrayRest f d r1) as [[vs0 r2] | |] eqn:Ea; try discriminate.
      rewrite (IHv f' d p1 v0 r1 q Hle Ev
                 (or_introl (scanArrayRest_nonempty _ _ _ _ _ Ea))).
      rewrite (IHa f' d r1 vs0 r2 q Hle Ea).
      injection H as <- <-. reflexivity.
    + destruct (Ascii.eqb c "]"); [| discriminate]. injection H as <- <-. reflexivity.
  - intros f' d p ms r q Hle H. destruct f' as [| f']; [lia |].
    apply le_S_n in Hle.
    cbn [json.scanObjectRest] in H |- *. unfold json.bind in H |- *.
    destruct (json.skipSpace p) as [| c p1] eqn:Esp; [discriminate |].
    rewrite (skipSpace_app_cons p c p1 q Esp).
    destruct (Ascii.eqb c ",").
    + destruct (json.scanKey p1) as [[k r0] |] eqn:Ek; [| discriminate].
      rewrite (scanKey_extends p1 k r0 q Ek).
      destruct (json.scanValue f d r0) as [[v0 r1] | |] eqn:Ev; try discriminate.
      destruct (json.scanObjectRest f d r1) as [[ms0 r2] | |] eqn:Eo; try discriminate.
      rewrite (IHv f' d r0 v0 r1 q Hle Ev
                 (or_introl (scanObjectRest_nonempty _ _ _ _ _ Eo))).
      rewrite (IHo f' d r1 ms0 r2 q Hle Eo).
      injection H as <- <-. reflexivity.
    + destruct (Ascii.eqb c "}"); [| discriminate]. injection H as <- <-. reflexivity.
Qed.

Lemma skipSpace_spaces_app (ws s : bytes) :
  forallb json.isSpace ws = true -> json.skipSpace (ws ++ s) = json.skipSpace s.
Proof.
  induction ws as [| c ws IH]; intros H; [reflexivity |].
  cbn [forallb] in H. apply andb_true_iff in H as [Hc Hws].
  cbn [app json.skipSpace]. rewrite Hc. exact (IH Hws).
Qed.

Lemma skipSpace_nil_spaces (r : bytes) :
  json.skipSpace r = [] -> forallb json.isSpace r = true.
Proof.
  induction r as [| c r IH]; intros H; [reflexivity |].
  cbn [json.skipSpace forallb] in *. destruct (json.isSpace c); [exact (IH H) | discriminate].
Qed.

Lemma skipSpace_spaces (ws : bytes) :
  forallb json.isSpace ws = true -> json.skipSpace ws = [].
Proof.
  intros H. rewrite <- (app_nil_r ws), (skipSpace_spaces_app ws [] H). reflexivity.
Qed.

Lemma skipSpace_nonspace_tail (q : bytes) :
  has_nonspace q = true -> json.skipSpace q <> [].
Proof.
  induction q as [| c q IH]; intros H; [discriminate |].
  cbn [has_nonspace existsb] in H. cbn [json.skipSpace].
  destruct (json.isSpace c); [exact (IH H) | discriminate].
Qed.

Lemma scanValue_leading_space (f : nat) (d : Z) (ws s : bytes) :
  forallb json.isSpace ws = true -> json.scanValue f d (ws ++ s) = json.scanValue f d s.
Proof.
  intros H. destruct f as [| f]; [reflexivity |].
  cbn [json.scanValue]. rewrite (skipSpace_spaces_app ws s H). reflexivity.
Qed.

(** The value of a valid text and the white space after it. *)
Lemma checkValid_scanned (p : bytes) (v : json.value) :
  json.checkValid p = json.Scanned v ->
  exists r, json.scanValue (S (List.length p)) 0 p = json.Scanned (v, r)
            /\ json.skipSpace r = [].
Proof.
  unfold json.checkValid. intros H.
  destruct (json.scanValue (S (List.length p)) 0 p) as [[v' r] | |]; try discriminate.
  destruct (json.skipSpace r) eqn:E; [| discriminate].
  injection H as <-. exists r. split; [reflexivity | exact E].
Qed.

(** Bytes other than white space after a valid text make it invalid,
    a number apart. *)
Lemma checkValid_extended (p q : bytes) (v : json.value) :
  json.checkValid p = json.Scanned v -> is_number v = false -> has_nonspace q = true ->
  json.checkValid (p ++ q) = json.Invalid.
Proof.
  intros Hp Hn Hq. destruct (checkValid_scanned p v Hp) as (r & Hs & Hr).
  unfold json.checkValid.
  rewrite (proj1 (scan_extends (S (List.length p))) (S (List.length (p ++ q))) 0 p v r q
             ltac:(rewrite length_app; lia) Hs (or_intror Hn)).
  rewrite (skipSpace_spaces_app r q (skipSpace_nil_spaces r Hr)).
  destruct (json.skipSpace q) eqn:E; [| reflexivity].
  exfalso. exact (skipSpace_nonspace_tail q Hq E).
Qed.

(** White space around a valid text changes nothing, a number apart. *)
Lemma checkValid_spaced (ws1 p ws2 : bytes) (v : json.value) :
  json.checkValid p = json.Scanned v -> is_number v = false ->
  forallb json.isSpace ws1 = true -> forallb json.isSpace ws2 = true ->
  json.checkValid (ws1 ++ p ++ ws2) = json.Scanned v.
Proof.
  intros Hp Hn H1 H2. destruct (checkValid_scanned p v Hp) as (r & Hs & Hr).
  unfold json.checkValid.
  rewrite (scanValue_leading_space _ 0 ws1 (p ++ ws2) H1).
  rewrite (proj1 (scan_extends (S (List.length p))) (S (List.length (ws1 ++ p ++ ws2))) 0
             p v r ws2 ltac:(rewrite !length_app; lia) Hs (or_intror Hn)).
  rewrite (skipSpace_spaces_app r ws2 (skipSpace_nil_spaces r Hr)).
  rewrite (skipSpace_spaces ws2 H2). reflexivity.
Qed.

Lemma accepted_not_number (j : json.value) : body_accepted j = true -> is_number j = false.
Proof. destruct j; try reflexivity. discriminate. Qed.

Lemma Unmarshal_rejects_invalid (body : bytes) :
  json.checkValid body = json.Invalid ->
  mutation_of (decision (ResponseBodyCb body true)) = None.
Proof.
  intros H. rewrite decision_complete_body, (Unmarshal_invalid body _ H). reflexivity.
Qed.

Lemma headers_accepted (body : bytes) :
  mutation_of (decision (ResponseBodyCb body true)) <> None ->
  exists j, json.checkValid body = json.Scanned j /\ body_accepted j = true.
Proof.
  intros H. apply (Unmarshal_accepts body zero_openAIResp).
  rewrite decision_complete_body in H.
  destruct (Unmarshal body zero_openAIResp) as [r [e |]]; [| reflexivity].
  exfalso. apply H. reflexivity.
Qed.

(** X13.  Of a body and the same body cut short, at most one gives
    headers, when what was cut off is more than white space: if a complete
    response body gives headers, no body made of it and of further bytes
    other than white space does; and if a body gives headers, no part of it
    from the start that leaves out bytes other than white space does.  So a
    truncated body never gives headers. *)
Theorem headers_for_whole_body_only (p q : bytes) :
  has_nonspace q = true ->
  (mutation_of (decision (ResponseBodyCb p true)) <> None ->
     mutation_of (decision (ResponseBodyCb (p ++ q) true)) = None)
  /\ (mutation_of (decision (ResponseBodyCb (p ++ q) true)) <> None ->
        mutation_of (decision (ResponseBodyCb p true)) = None).
Proof.
  intros Hq.
  assert (mutation_of (decision (ResponseBodyCb p true)) <> None ->
          mutation_of (decision (ResponseBodyCb (p ++ q) true)) = None) as H.
  { intros Hp. destruct (headers_accepted p Hp) as (j & Hj & Ha).
    apply Unmarshal_rejects_invalid.
    apply (checkValid_extended p q j Hj (accepted_not_number j Ha) Hq). }
  split; [exact H |]. intros Hpq.
  destruct (mutation_of (decision (ResponseBodyCb p true))) as [m |] eqn:E; [| reflexivity].
  exfalso. apply Hpq. apply H. discriminate.
Qed.

(** Witness of X13: the body of scenario A cut after twenty bytes. *)
Lemma headers_for_whole_body_only_witness :
  mutation_of
    (decision (ResponseBodyCb (firstn 20 (render (usage_document [] [] 5 15 10))) true))
  = None.
Proof.
  apply (proj2 (headers_for_whole_body_only
                  (firstn 20 (render (usage_document [] [] 5 15 10)))
                  (skipn 20 (render (usage_document [] [] 5 15 10)))
                  eq_refl)).
  vm_compute. discriminate.
Defined.

(** X14.  White space before and after a body that gives headers
    changes nothing: the decision is the same. *)
Theorem white_space_around_body (ws1 p ws2 : bytes) :
  forallb json.isSpace ws1 = true ->
  forallb json.isSpace ws2 = true ->
  mutation_of (decision (ResponseBodyCb p true)) <> None ->
  decision (ResponseBodyCb (ws1 ++ p ++ ws2) true) = decision (ResponseBodyCb p true).
Proof.
  intros H1 H2 Hp. destruct (headers_accepted p Hp) as (j & Hj & Ha).
  pose proof (checkValid_spaced ws1 p ws2 j Hj (accepted_not_number j Ha) H1 H2) as Hs.
  rewrite !decision_complete_body.
  assert (Unmarshal (ws1 ++ p ++ ws2) zero_openAIResp = Unmarshal p zero_openAIResp) as ->.
  { unfold Unmarshal. rewrite Hs, Hj. reflexivity. }
  reflexivity.
Qed.

(** Witness of X14: the body of scenario A on a line of its own, after
    a blank. *)
Lemma white_space_around_body_witness :
  decision
    (ResponseBodyCb
       (key " " ++ render (usage_document [] [] 5 15 10) ++ ["010"%char]) true)
  = decision (ResponseBodyCb (render (usage_document [] [] 5 15 10)) true).
Proof.
  apply (white_space_around_body (key " ") (render (usage_document [] [] 5 15 10))
           ["010"%char] eq_refl eq_refl).
  vm_compute. discriminate.
Defined.
